(** * nlisim / simulation: diffusion, kinetics and chemotaxis

    A shallow embedding of the numerical core of the repository:
    - [src/nlisim/util.py]       reaction kinetics primitives, voxel choice,
                                 uptake in a mesh element;
    - [src/nlisim/diffusion.py]  discrete Laplacians and the Crank-Nicholson
                                 integrators;
    - [src/nlisim/modulesv2/tafc.py]        the TAFC molecule update;
    - [src/simulation/modules/phagocyte.py],
      [src/simulation/modules/macrophage.py] the two chemotaxis routines.

    Numbers.  The code computes with IEEE binary64 values.  They are
    modelled by the type [num]: a real number, one of the two infinities,
    or NaN.  Arithmetic on finite values is exact (no rounding, no
    overflow, no signed zero); the special values follow IEEE 754 / numpy:
    [x / 0] is an infinity for [x <> 0] and NaN for [x = 0], comparisons
    with NaN are false, [np.maximum], [np.minimum] and [np.clip] propagate
    NaN. *)

From Stdlib Require Import Reals Lra ZArith Lia.
From stdpp Require Import base decidable option list gmap.

#[global] Instance Rlt_decision : RelDecision Rlt := Rlt_dec.
#[global] Instance Rle_decision : RelDecision Rle := Rle_dec.
#[global] Instance Req_decision : EqDecision R := Req_dec_T.

(** ** Idealised binary64 values *)

Module F64.

Inductive num : Type :=
  | Fin (r : R)
  | PInf
  | NInf
  | NaN.

#[global] Instance num_eq_dec : EqDecision num.
Proof. solve_decision. Defined.

#[global] Instance num_inhabited : Inhabited num := populate (Fin 0).

Definition zero : num := Fin 0.
Definition one : num := Fin 1.

Definition is_finite (a : num) : bool :=
  match a with Fin _ => true | _ => false end.

(** [inf_of s] is the infinity of sign [s] ([true] is positive). *)
Definition inf_of (s : bool) : num := if s then PInf else NInf.

(** Sign of a non-NaN value seen as a multiplier: [Some true] positive,
    [Some false] negative, [None] zero. *)
Definition sign_of (r : R) : option bool :=
  if bool_decide (0 < r)%R then Some true
  else if bool_decide (r < 0)%R then Some false
  else None.

Definition neg (a : num) : num :=
  match a with
  | Fin r => Fin (- r)
  | PInf => NInf
  | NInf => PInf
  | NaN => NaN
  end.

Definition add (a b : num) : num :=
  match a, b with
  | NaN, _ | _, NaN => NaN
  | Fin x, Fin y => Fin (x + y)
  | PInf, NInf | NInf, PInf => NaN
  | PInf, _ | _, PInf => PInf
  | NInf, _ | _, NInf => NInf
  end.

Definition sub (a b : num) : num := add a (neg b).

(** Infinity times a finite factor. *)
Definition inf_times (s : bool) (r : R) : num :=
  match sign_of r with
  | Some t => inf_of (negb (xorb s t))
  | None => NaN
  end.

Definition mul (a b : num) : num :=
  match a, b with
  | NaN, _ | _, NaN => NaN
  | Fin x, Fin y => Fin (x * y)
  | PInf, Fin y => inf_times true y
  | NInf, Fin y => inf_times false y
  | Fin x, PInf => inf_times true x
  | Fin x, NInf => inf_times false x
  | PInf, PInf | NInf, NInf => PInf
  | PInf, NInf | NInf, PInf => NInf
  end.

(** numpy division: no exception, [x / 0] is [inf], [-inf] or [nan]. *)
Definition div (a b : num) : num :=
  match a, b with
  | NaN, _ | _, NaN => NaN
  | Fin x, Fin y =>
      if bool_decide (y = 0)%R then
        match sign_of x with
        | Some s => inf_of s
        | None => NaN
        end
      else Fin (x / y)
  | Fin _, (PInf | NInf) => Fin 0
  | PInf, Fin y => if bool_decide (y < 0)%R then NInf else PInf
  | NInf, Fin y => if bool_decide (y < 0)%R then PInf else NInf
  | (PInf | NInf), (PInf | NInf) => NaN
  end.

(** [np.exp] / [math.exp]. *)
Definition nexp (a : num) : num :=
  match a with
  | Fin r => Fin (exp r)
  | PInf => PInf
  | NInf => Fin 0
  | NaN => NaN
  end.

(** Comparisons; every comparison with NaN is false, except [!=]. *)
Definition ltb (a b : num) : bool :=
  match a, b with
  | NaN, _ | _, NaN => false
  | Fin x, Fin y => bool_decide (x < y)%R
  | NInf, (Fin _ | PInf) => true
  | Fin _, PInf => true
  | _, _ => false
  end.

Definition eqb (a b : num) : bool :=
  match a, b with
  | Fin x, Fin y => bool_decide (x = y)
  | PInf, PInf | NInf, NInf => true
  | _, _ => false
  end.

Definition leb (a b : num) : bool := ltb a b || eqb a b.
Definition gtb (a b : num) : bool := ltb b a.
Definition neqb (a b : num) : bool := negb (eqb a b).

(** [np.maximum] and [np.minimum]: NaN wins. *)
Definition maximum (a b : num) : num :=
  match a, b with
  | NaN, _ | _, NaN => NaN
  | _, _ => if ltb a b then b else a
  end.

Definition minimum (a b : num) : num :=
  match a, b with
  | NaN, _ | _, NaN => NaN
  | _, _ => if ltb b a then b else a
  end.

(** [np.clip(a, lo, hi)] is [minimum(maximum(a, lo), hi)]. *)
Definition clip (a lo hi : num) : num := minimum (maximum a lo) hi.

(** The propositions the claims speak about. *)
Definition nonneg (a : num) : Prop := leb zero a = true.

(** [np.sum] of a vector, accumulated left to right from [0.0]. *)
Definition sum (l : list num) : num := foldl add zero l.

End F64.

Import F64.

(** Case analysis on [num] values and on the deciders met on the way. *)
Ltac num_cases :=
  repeat match goal with
    | a : num |- _ => destruct a
    end.

Ltac rdecide :=
  repeat (simpl in *;
    match goal with
    | |- context [bool_decide ?P] => destruct (bool_decide_reflect P)
    | H : context [bool_decide ?P] |- _ => destruct (bool_decide_reflect P)
    end);
  simpl in *.

Ltac num_unfold :=
  unfold nonneg, clip, maximum, minimum, leb, gtb, neqb, ltb, eqb,
    sub, add, mul, div, neg, nexp, zero, one, inf_times, inf_of, sign_of in *.

Ltac num_crush :=
  repeat (progress (num_unfold; rdecide));
  try solve [ reflexivity | congruence | lra | discriminate
            | split; (reflexivity || congruence || lra)
            | exfalso; lra ].

(** ** Arrays

    A numpy array is a list of its entries in row-major order; the
    element-wise operations of the code do not depend on the shape beyond
    the number of entries. *)

Module NDArray.

(** Element-wise binary operation with broadcasting of one-entry operands;
    [None] is numpy's shape-mismatch [ValueError]. *)
Definition bcast (f : num -> num -> num) (a b : list num) : option (list num) :=
  if decide (length a = length b) then Some (zip_with f a b)
  else if decide (length a = 1%nat) then Some (map (f (a !!! 0%nat)) b)
  else if decide (length b = 1%nat) then Some (map (fun x => f x (b !!! 0%nat)) a)
  else None.

(** [a[mask] = v] for a boolean mask; [None] is the [IndexError] raised when
    the mask does not have the shape of [a]. *)
Definition mask_assign (a : list num) (mask : list bool) (v : num) : option (list num) :=
  if decide (length mask = length a)
  then Some (zip_with (fun x (m : bool) => if m then v else x) a mask)
  else None.

(** [np.true_divide(y, x, where=mask)] without [out]: entries outside the
    mask are left uninitialised; [junk] stands for what the fresh buffer
    happens to hold. *)
Definition true_divide_where (junk : nat -> num) (y x : list num) (mask : list bool)
  : list num :=
  imap (fun i '(yi, xi, m) => if (m : bool) then div yi xi else junk i)
       (zip (zip y x) mask).

Definition all_finite (l : list num) : Prop := Forall (fun a => is_finite a = true) l.

End NDArray.

Import NDArray.

(** ** Reaction kinetics primitives ([src/nlisim/util.py])

    The arguments are numpy arrays or numpy scalars, so a division by zero
    gives an infinity or NaN and raises nothing. *)

Module Util.

(** [EPSILON = 1e-50] *)
Definition EPSILON : num := Fin (/ 10 ^ 50).

(** [activation_function(x, k_d, h, volume, b=1)], on one entry. *)
Definition activation_function (x k_d h volume b : num) : num :=
  mul h (sub one (mul b (nexp (div (div (neg x) k_d) volume)))).

Definition activation_function_b_default : num := one.

(** [turnover_rate(x, x_system, base_turnover_rate, rel_cyt_bind_unit_t)]
    for an array [x] and a scalar [x_system]. *)
Definition turnover_rate (junk : nat -> num) (x : list num)
    (x_system base_turnover_rate rel_cyt_bind_unit_t : num) : option (list num) :=
  let decay := nexp (mul (neg base_turnover_rate) rel_cyt_bind_unit_t) in
  if eqb x_system zero then
    Some (replicate (length x) decay)
  else
    let y := map (fun xi => add (mul (sub xi x_system) decay) x_system) x in
    let result := true_divide_where junk y x (map (fun xi => neqb xi zero) x) in
    result ← mask_assign result (map (fun xi => eqb xi zero) x) zero;
    Some (map (fun r => clip r zero one) result).

(** The [iron] argument of [iron_tf_reaction]: a float or an array. *)
Inductive operand : Type :=
  | Scalar (a : num)
  | Array (l : list num).

(** [iron_tf_reaction(iron, tf, tf_fe, p1, p2, p3)] *)
Definition iron_tf_reaction (iron : operand) (tf tf_fe : list num) (p1 p2 p3 : num)
  : option (list num) :=
  let iron := match iron with Scalar a => [a] | Array l => l end in
  tf_sum ← bcast add tf tf_fe;
  let total_binding_site := map (mul (Fin 2)) tf_sum in
  total_iron ← bcast add iron tf_fe;
  rel_total_iron ←
    bcast div total_iron (map (fun s => add s EPSILON) total_binding_site);
  rel_total_iron ←
    mask_assign rel_total_iron (map (fun s => eqb s zero) total_binding_site) zero;
  let rel_total_iron := map (fun r => maximum (minimum r one) zero) rel_total_iron in
  let rel_tf_fe :=
    map (fun r => maximum zero (mul (add (mul (add (mul p1 r) p2) r) p3) r))
        rel_total_iron in
  rel_tf_fe ← mask_assign rel_tf_fe (map (fun s => eqb s zero) total_iron) zero;
  rel_tf_fe ←
    mask_assign rel_tf_fe (map (fun s => eqb s zero) total_binding_site) zero;
  Some rel_tf_fe.

(** One entry of the result of [iron_tf_reaction], from the entries of
    [iron], [tf] and [tf_fe] at the same position. *)
Definition iron_tf_entry (p1 p2 p3 iron tf tf_fe : num) : num :=
  let total_binding_site := mul (Fin 2) (add tf tf_fe) in
  let total_iron := add iron tf_fe in
  let rel := div total_iron (add total_binding_site EPSILON) in
  let rel := if eqb total_binding_site zero then zero else rel in
  let rel := maximum (minimum rel one) zero in
  let rel_tf_fe := maximum zero (mul (add (mul (add (mul p1 rel) p2) rel) p3) rel) in
  let rel_tf_fe := if eqb total_iron zero then zero else rel_tf_fe in
  if eqb total_binding_site zero then zero else rel_tf_fe.

(** The entries of the [iron] argument once broadcast to [n] entries. *)
Definition operand_entries (n : nat) (o : operand) : list num :=
  match o with
  | Scalar a => replicate n a
  | Array l => l
  end.

(** [iron] is a scalar or has [n] entries, all finite. *)
Definition operand_fits (n : nat) (o : operand) : Prop :=
  length (operand_entries n o) = n /\ all_finite (operand_entries n o).

(** [michaelian_kinetics(substrate, enzyme, k_m, h, k_cat=1.0, volume)],
    on one entry: [h * k_cat * enzyme * substrate / (substrate + k_m * volume)]. *)
Definition michaelian_kinetics (substrate enzyme k_m h k_cat volume : num) : num :=
  div (mul (mul (mul h k_cat) enzyme) substrate) (add substrate (mul k_m volume)).

Definition michaelian_kinetics_k_cat_default : num := one.

End Util.

(** ** Python sequences, exceptions and the interpreter state *)

Module Py.

(** [l[i]] for a Python list or a one-dimensional numpy array: a negative
    index counts from the end, anything else out of range is an
    [IndexError] ([None]). *)
Definition norm_index (len : nat) (i : Z) : option nat :=
  if decide (0 <= i < Z.of_nat len)%Z then Some (Z.to_nat i)
  else if decide (- Z.of_nat len <= i < 0)%Z then Some (Z.to_nat (Z.of_nat len + i))
  else None.

Definition index {A} (l : list A) (i : Z) : option A :=
  n ← norm_index (length l) i; l !! n.

(** A three-dimensional array: its shape [(n0, n1, n2)] and its entries in
    row-major order. *)
Record Array3 (A : Type) : Type := mkArray3 {
  a3_shape : nat * nat * nat;
  a3_data : list A;
}.
Arguments mkArray3 {A}.
Arguments a3_shape {A}.
Arguments a3_data {A}.

Definition a3_wf {A} (a : Array3 A) : Prop :=
  let '(n0, n1, n2) := a3_shape a in length (a3_data a) = (n0 * n1 * n2)%nat.

(** [a[k, j, i]] *)
Definition get3 {A} (a : Array3 A) (k j i : Z) : option A :=
  let '(n0, n1, n2) := a3_shape a in
  k' ← norm_index n0 k;
  j' ← norm_index n1 j;
  i' ← norm_index n2 i;
  a3_data a !! ((k' * n1 + j') * n2 + i')%nat.

(** [a[k, j, i] = v] *)
Definition set3 {A} (a : Array3 A) (k j i : Z) (v : A) : option (Array3 A) :=
  let '(n0, n1, n2) := a3_shape a in
  k' ← norm_index n0 k;
  j' ← norm_index n1 j;
  i' ← norm_index n2 i;
  Some (mkArray3 (a3_shape a) (<[((k' * n1 + j') * n2 + i')%nat := v]> (a3_data a))).

(** Exceptions raised by the modelled code. *)
Inductive exn : Type :=
  | CGFailedIterations (info : Z)   (* Exception('CG failed (after {info} iterations)') *)
  | CGFailed (info : Z)             (* Exception('CG failed ({info})') *)
  | ValueError
  | IndexError.

(** Records written to [nlisim.util.logger]. *)
Inductive log_record : Type :=
  | Warning_cg_not_converged (info : Z)
  | Error_cg_breakdown
  | Warning_negative_clipped (total_delta : num).

(** Heap of mutable numpy vectors, addressed by location. *)
Abbreviation loc := nat.

Record state : Type := mkState {
  heap : gmap loc (list num);
  log : list log_record;
}.

Inductive outcome (A : Type) : Type :=
  | Returned (a : A)
  | Raised (e : exn).
Arguments Returned {A}.
Arguments Raised {A}.

(** Computations that read and write the state and may raise. *)
Definition M (A : Type) : Type := state -> outcome A * state.

Definition ret {A} (a : A) : M A := fun s => (Returned a, s).
Definition raise {A} (e : exn) : M A := fun s => (Raised e, s).
Definition bind {A B} (m : M A) (k : A -> M B) : M B :=
  fun s => match m s with
           | (Returned a, s') => k a s'
           | (Raised e, s') => (Raised e, s')
           end.

Definition logger (r : log_record) : M unit :=
  fun s => (Returned tt, mkState (heap s) (log s ++ [r])).

(** Dereference an array variable. *)
Definition read (l : loc) : M (list num) :=
  fun s => match heap s !! l with
           | Some v => (Returned v, s)
           | None => (Raised ValueError, s)
           end.

(** Overwrite the contents of an existing array. *)
Definition write (l : loc) (v : list num) : M unit :=
  fun s => (Returned tt, mkState (<[l := v]> (heap s)) (log s)).

(** Allocate a new array; the location is one the heap does not use. *)
Definition fresh_loc (h : gmap loc (list num)) : loc := fresh (dom h).

Definition alloc (v : list num) : M loc :=
  fun s => let l := fresh_loc (heap s) in
           (Returned l, mkState (<[l := v]> (heap s)) (log s)).

(** Lift a partial operation, raising [e] where it is undefined. *)
Definition lift {A} (e : exn) (o : option A) : M A :=
  match o with Some a => ret a | None => raise e end.

End Py.

Import Py.

Notation "x <~ m ;; k" := (Py.bind m (fun x => k))
  (at level 100, m at next level, right associativity).
Notation "m ;;; k" := (Py.bind m (fun _ => k))
  (at level 100, right associativity).

(** ** Matrices ([scipy.sparse]) *)

Module Sparse.

Abbreviation vec := (list num).

(** A [csr_matrix], by rows; entries that are not stored read as [0.0]. *)
Abbreviation mat := (list (list num)).

Definition mshape (m : mat) : nat * nat :=
  (length m, match m with r :: _ => length r | [] => 0%nat end).

(** [eye(r, c)] and [identity(n)] *)
Definition eye (r c : nat) : mat :=
  map (fun i => map (fun j => if decide (i = j) then one else zero) (seq 0 c)) (seq 0 r).

Definition identity (n : nat) : mat := eye n n.

(** [s * m] for a scalar [s].  The code passes finite scalars, for which
    scaling the stored entries and scaling every entry agree. *)
Definition mscale (s : num) (m : mat) : mat := map (map (mul s)) m.

(** [a + b], [a - b]: entry by entry; [None] is the [ValueError] for
    inconsistent shapes. *)
Definition mzip (f : num -> num -> num) (a b : mat) : option mat :=
  if decide (mshape a = mshape b) then Some (zip_with (zip_with f) a b) else None.

(** [m @ v] *)
Definition matvec (m : mat) (v : vec) : option vec :=
  if decide (Forall (fun r => length r = length v) m)
  then Some (map (fun r => sum (zip_with mul r v)) m)
  else None.

(** A [dok_matrix]: a shape and a dictionary from [(row, column)] to the
    stored entry. *)
Record dok : Type := mkDok {
  dok_shape : nat * nat;
  dok_dict : gmap (nat * nat) num;
}.

Definition dok_matrix (shape : nat * nat) : dok := mkDok shape ∅.

(** [m[r, c]]: a missing key reads as [0.0]. *)
Definition dok_get (m : dok) (r c : Z) : option num :=
  r' ← norm_index (dok_shape m).1 r;
  c' ← norm_index (dok_shape m).2 c;
  Some (default zero (dok_dict m !! (r', c'))).

(** [m[r, c] = v]: a zero is not stored, and removes the key. *)
Definition dok_set (m : dok) (r c : Z) (v : num) : option dok :=
  r' ← norm_index (dok_shape m).1 r;
  c' ← norm_index (dok_shape m).2 c;
  Some (mkDok (dok_shape m)
          (if eqb v zero then delete (r', c') (dok_dict m)
           else <[(r', c') := v]> (dok_dict m))).

(** [m.tocsr()] *)
Definition tocsr (m : dok) : mat :=
  map (fun r => map (fun c => default zero (dok_dict m !! (r, c)))
                    (seq 0 (dok_shape m).2))
      (seq 0 (dok_shape m).1).

End Sparse.

Import Sparse.

(** ** The rectangular grid ([nlisim.grid], [nlisim.coordinates]) *)

Module Grid.

(** [Voxel(x=, y=, z=)] *)
Record Voxel : Type := mkVoxel { vx : Z; vy : Z; vz : Z }.

#[global] Instance Voxel_eq_dec : EqDecision Voxel.
Proof. solve_decision. Defined.

(** The parts of [RectangularGrid] the Laplacian builders use: the shape
    [(z_extent, y_extent, x_extent)] and, per axis, the array of local
    spacings. *)
Record RectangularGrid : Type := mkGrid {
  shape : nat * nat * nat;
  delta : nat -> Array3 num;
}.

Definition z_extent (g : RectangularGrid) : nat := (shape g).1.1.
Definition y_extent (g : RectangularGrid) : nat := (shape g).1.2.
Definition x_extent (g : RectangularGrid) : nat := (shape g).2.

(** [len(grid)] *)
Definition len (g : RectangularGrid) : nat :=
  (z_extent g * y_extent g * x_extent g)%nat.

Definition is_valid_voxel (g : RectangularGrid) (v : Voxel) : bool :=
  bool_decide (0 <= vx v < Z.of_nat (x_extent g))%Z
  && bool_decide (0 <= vy v < Z.of_nat (y_extent g))%Z
  && bool_decide (0 <= vz v < Z.of_nat (z_extent g))%Z.

(** Modelled from the spec: [get_flattened_index] of [nlisim/grid.py] is not
    among the sources; "each voxel has an integer coordinate (x,y,z) and a
    flattened scalar index bijective with that coordinate".  The index is
    the row-major position in an array of shape (z, y, x). *)
Definition get_flattened_index (g : RectangularGrid) (v : Voxel) : Z :=
  ((vz v * Z.of_nat (y_extent g) + vy v) * Z.of_nat (x_extent g) + vx v)%Z.

(** Displacements [(dk, dj, di)] to the six face neighbours. *)
Definition face_offsets : list (Z * Z * Z) :=
  [(-1, 0, 0); (1, 0, 0); (0, -1, 0); (0, 1, 0); (0, 0, -1); (0, 0, 1)]%Z.

(** Modelled from the spec: [get_adjacent_voxels] of [nlisim/grid.py] is not
    among the sources; "adjacency queries return only in-bounds neighbors
    (face-adjacent, optionally corner-adjacent)".  Only the call with
    [corners=False] occurs. *)
Definition get_adjacent_voxels (g : RectangularGrid) (v : Voxel) : list Voxel :=
  filter (fun n => is_valid_voxel g n = true)
    (map (fun '(dk, dj, di) => mkVoxel (vx v + di) (vy v + dj) (vz v + dk))
         face_offsets).

(** [zip( *mask.nonzero())]: the [(k, j, i)] of the true entries, in
    row-major order. *)
Definition nonzero (mask : Array3 bool) : list (Z * Z * Z) :=
  let '(n0, n1, n2) := a3_shape mask in
  k ← seq 0 n0; j ← seq 0 n1; i ← seq 0 n2;
  if decide (a3_data mask !! ((k * n1 + j) * n2 + i)%nat = Some true)
  then [(Z.of_nat k, Z.of_nat j, Z.of_nat i)] else [].

End Grid.

Import Grid.

(** ** Discrete Laplacians and Crank-Nicholson ([src/nlisim/diffusion.py]) *)

Module Diffusion.

Fixpoint foldM {A B} (f : B -> A -> option B) (b : B) (l : list A) : option B :=
  match l with
  | [] => Some b
  | a :: l => b' ← f b a; foldM f b' l
  end.

(** [1 / (dx * dx + dy * dy + dz * dz)] *)
Definition inverse_distance2 (dx dy dz : num) : num :=
  div one (add (add (mul dx dx) (mul dy dy)) (mul dz dz)).

(** The two updates that close an iteration of the neighbour loop:
    [laplacian[voxel_index, voxel_index] -= w] and
    [laplacian[voxel_index, neighbor_index] += w]. *)
Definition add_edge (laplacian : dok) (voxel_index neighbor_index : Z) (w : num)
  : option dok :=
  d ← dok_get laplacian voxel_index voxel_index;
  laplacian ← dok_set laplacian voxel_index voxel_index (sub d w);
  o ← dok_get laplacian voxel_index neighbor_index;
  dok_set laplacian voxel_index neighbor_index (add o w).

(** Body of the neighbour loop of [discrete_laplacian]. *)
Definition laplacian_neighbor (grid : RectangularGrid) (mask : Array3 bool)
    (kji : Z * Z * Z) (laplacian : dok) (neighbor : Voxel) : option dok :=
  let '(k, j, i) := kji in
  let voxel_index := get_flattened_index grid (mkVoxel i j k) in
  let ni := vx neighbor in
  let nj := vy neighbor in
  let nk := vz neighbor in
  m ← get3 mask nk nj ni;
  if negb m then Some laplacian
  else
    let neighbor_index := get_flattened_index grid neighbor in
    delta_x ← get3 (delta grid 2) k j i;
    delta_y ← get3 (delta grid 1) k j i;
    delta_z ← get3 (delta grid 0) k j i;
    let dx := mul delta_x (Fin (IZR (i - ni))) in
    let dy := mul delta_y (Fin (IZR (j - nj))) in
    let dz := mul delta_z (Fin (IZR (k - nk))) in
    add_edge laplacian voxel_index neighbor_index (inverse_distance2 dx dy dz).

(** [discrete_laplacian(grid, mask)] *)
Definition discrete_laplacian (grid : RectangularGrid) (mask : Array3 bool)
  : option mat :=
  let graph_shape := (len grid, len grid) in
  laplacian ←
    foldM (fun laplacian '(k, j, i) =>
             foldM (laplacian_neighbor grid mask (k, j, i)) laplacian
                   (get_adjacent_voxels grid (mkVoxel i j k)))
          (dok_matrix graph_shape) (nonzero mask);
  Some (tocsr laplacian).

(** Body of the offset loop of [periodic_discrete_laplacian]. *)
Definition periodic_neighbor (grid : RectangularGrid) (mask : Array3 bool)
    (kji : Z * Z * Z) (laplacian : dok) (offset : Z * Z * Z) : option dok :=
  let '(k, j, i) := kji in
  let voxel_index := get_flattened_index grid (mkVoxel i j k) in
  let '(dk, dj, di) := offset in
  let neighbor :=
    mkVoxel ((i + di) mod Z.of_nat (x_extent grid))
            ((j + dj) mod Z.of_nat (y_extent grid))
            ((k + dk) mod Z.of_nat (z_extent grid)) in
  m ← get3 mask (vz neighbor) (vy neighbor) (vx neighbor);
  if negb m then Some laplacian
  else
    let neighbor_index := get_flattened_index grid neighbor in
    delta_x ← get3 (delta grid 2) k j i;
    delta_y ← get3 (delta grid 1) k j i;
    delta_z ← get3 (delta grid 0) k j i;
    let dx := mul delta_x (Fin (IZR di)) in
    let dy := mul delta_y (Fin (IZR dj)) in
    let dz := mul delta_z (Fin (IZR dk)) in
    add_edge laplacian voxel_index neighbor_index (inverse_distance2 dx dy dz).

(** [periodic_discrete_laplacian(grid, mask)] *)
Definition periodic_discrete_laplacian (grid : RectangularGrid) (mask : Array3 bool)
  : option mat :=
  let graph_shape := (len grid, len grid) in
  laplacian ←
    foldM (fun laplacian '(k, j, i) =>
             foldM (periodic_neighbor grid mask (k, j, i)) laplacian face_offsets)
          (dok_matrix graph_shape) (nonzero mask);
  Some (tocsr laplacian).

(** The operators built in the first two lines of [apply_grid_diffusion]:
    [a = eye - (diffusivity * dt / 2.0) * laplacian] and
    [b = eye + (diffusivity * dt / 2.0) * laplacian]. *)
Definition grid_operators (laplacian : mat) (diffusivity dt : num)
  : option (mat * mat) :=
  let '(r, c) := mshape laplacian in
  let s := div (mul diffusivity dt) (Fin 2) in
  a ← mzip sub (eye r c) (mscale s laplacian);
  b ← mzip add (eye r c) (mscale s laplacian);
  Some (a, b).

(** [assemble_mesh_laplacian_crank_nicholson(laplacian, diffusivity, dt)] *)
Definition assemble_mesh_laplacian_crank_nicholson
    (laplacian : mat) (diffusivity dt : num) : option (mat * mat) :=
  let rank := (mshape laplacian).1 in
  let s := mul (mul (Fin (1 / 2)) dt) diffusivity in
  a ← mzip add (identity rank) (mscale s laplacian);
  b ← mzip sub (identity rank) (mscale s laplacian);
  Some (a, b).

(** [np.copyto(dst, src)]: [src] is broadcast to the shape of [dst]. *)
Definition copyto (dst : loc) (src : vec) : M unit :=
  old <~ read dst;;
  if decide (length src = length old) then write dst src
  else if decide (length src = 1%nat)
       then write dst (replicate (length old) (src !!! 0%nat))
       else raise ValueError.

Section Integrators.

(** [scipy.sparse.linalg.cg(a, b, x0=, tol=)], returning the iterate and
    the [info] code: [0] on success, positive when the tolerance was not
    reached within the iteration cap, negative on illegal input or
    breakdown. *)
Variable cg : mat -> vec -> option vec -> num -> vec * Z.

(** [apply_grid_diffusion(variable, laplacian, diffusivity, dt, tolerance)];
    the result is the location of the array returned. *)
Definition apply_grid_diffusion (variable : loc) (laplacian : mat)
    (diffusivity dt tolerance : num) : M loc :=
  ab <~ lift ValueError (grid_operators laplacian diffusivity dt);;
  v <~ read variable;;
  rhs <~ lift ValueError (matvec ab.2 v);;
  let '(var_next, info) := cg ab.1 rhs None tolerance in
  if (0 <? info)%Z then raise (CGFailedIterations info)
  else if (info <? 0)%Z then raise (CGFailed info)
  else if decide (length var_next = length v)
       then alloc (map (maximum zero) var_next)
       else raise ValueError.

Definition apply_grid_diffusion_tolerance_default : num := Fin (/ 10 ^ 10).

(** [apply_mesh_diffusion_crank_nicholson(variable, cn_a, cn_b, tolerance)] *)
Definition apply_mesh_diffusion_crank_nicholson (variable : loc) (cn_a cn_b : mat)
    (tolerance : num) : M unit :=
  v <~ read variable;;
  rhs <~ lift ValueError (matvec cn_b v);;
  let '(result, info) := cg cn_a rhs (Some v) tolerance in
  (if (info =? 0)%Z then ret tt
   else if (0 <? info)%Z then logger (Warning_cg_not_converged info)
   else logger Error_cg_breakdown);;;
  result <~
    (if existsb (fun r => ltb r zero) result then
       logger (Warning_negative_clipped
                 (sum (zip_with sub (map (fun r => clip r zero PInf) result) result)));;;
       ret (map (fun r => clip r zero PInf) result)
     else ret result);;
  copyto variable result.

End Integrators.

End Diffusion.

(** ** Random draws

    [random.random()] and [rg.uniform()] take the next value of one
    process-wide stream of uniform draws in [0, 1). *)

Module Random.

Record generator : Type := mkGenerator {
  stream : nat -> R;
  position : nat;
}.

Definition random (g : generator) : num * generator :=
  (Fin (stream g (position g)), mkGenerator (stream g) (S (position g))).

(** Every draw lies in the half-open unit interval. *)
Definition uniform_stream (g : generator) : Prop :=
  forall n, (0 <= stream g n < 1)%R.

End Random.

(** ** Voxel choice and uptake in a mesh element ([src/nlisim/util.py]) *)

Module UtilMesh.

(** [np.cumsum] *)
Fixpoint cumsum_from (acc : num) (l : list num) : list num :=
  match l with
  | [] => []
  | a :: l => add acc a :: cumsum_from (add acc a) l
  end.

Definition cumsum (l : list num) : list num :=
  match l with
  | [] => []
  | a :: l => a :: cumsum_from a l
  end.

(** [np.argmax] of a boolean array: the first position holding [True], and
    [0] when there is none. *)
Fixpoint first_true (l : list bool) : option nat :=
  match l with
  | [] => None
  | b :: l => if b then Some 0%nat else S <$> first_true l
  end.

Definition argmax_bool (l : list bool) : nat := default 0%nat (first_true l).

(** [choose_voxel_by_prob(voxels, default_value, weights)]; the generator is
    advanced only when [rg.uniform()] is reached. *)
Definition choose_voxel_by_prob (voxels : list Voxel) (default_value : Voxel)
    (weights : list num) (g : Random.generator) : option Voxel * Random.generator :=
  let normalization_constant := sum weights in
  if leb normalization_constant zero then (Some default_value, g)
  else
    let normalized_weights :=
      zero :: map (fun w => div w normalization_constant) weights in
    let '(u, g') := Random.random g in
    let random_voxel_idx : Z :=
      (Z.of_nat (argmax_bool (map (fun c => gtb (sub c u) zero)
                                  (cumsum normalized_weights))) - 1)%Z in
    if (random_voxel_idx <? 0)%Z then (Some default_value, g')
    else (Py.index voxels random_voxel_idx, g').

(** The parts of [TetrahedralMesh] read by [uptake_in_element]. *)
Record TetrahedralMesh : Type := mkMesh {
  element_point_indices : list (list Z);
  point_dual_volumes : list num;
}.

(** [a[points]] for an array of point indices with one row per element. *)
Definition gather (a : list num) (points : list (list Z)) : option (list (list num)) :=
  mapM (mapM (Py.index a)) points.

(** [m / s] for [m] of shape [(n, 4)] and [s] of shape [(n,)]: numpy aligns
    [s] with the last axis of [m], so the shapes agree only for [n = 1] and
    [n = 4]. *)
Definition divide_rows (m : list (list num)) (s : list num) : option (list (list num)) :=
  mapM (fun row => bcast div row s) m.

(** [np.subtract.at(a, points, values)]: one unbuffered subtraction per
    index, in order. *)
Definition subtract_at_row (a : list num) (pv : list (Z * num)) : option (list num) :=
  Diffusion.foldM (fun a '(p, v) =>
                     n ← norm_index (length a) p;
                     old ← a !! n;
                     Some (<[n := sub old v]> a)) a pv.

Definition subtract_at (a : list num) (points : list (list Z))
    (values : list (list num)) : option (list num) :=
  if decide (length points = length values
             /\ Forall2 (fun p v => length p = length v) points values)
  then Diffusion.foldM subtract_at_row a (zip_with zip points values)
  else None.

(** [uptake_in_element(mesh, point_field, element_index, amount)] for an
    array of element indices and a scalar amount; the result is the new
    content of [point_field]. *)
Definition uptake_in_element (mesh : TetrahedralMesh) (point_field : list num)
    (element_index : list Z) (amount : num) : option (list num) :=
  points ← mapM (Py.index (element_point_indices mesh)) element_index;
  field_at_points ← gather point_field points;
  point_field_proportions ← divide_rows field_at_points (map sum field_at_points);
  volumes ← gather (point_dual_volumes mesh) points;
  let values :=
    zip_with (zip_with (fun prop vol => div (mul prop amount) vol))
             point_field_proportions volumes in
  subtract_at point_field points values.

End UtilMesh.

(** ** The TAFC molecule ([src/nlisim/modulesv2/tafc.py]) *)

Module TAFC.

(** Element-wise operations on grids of one shape; [None] is the
    [ValueError] for operands that cannot be combined. *)
Definition ew2 (f : num -> num -> num) (a b : Array3 num) : option (Array3 num) :=
  if decide (a3_shape a = a3_shape b /\ length (a3_data a) = length (a3_data b))
  then Some (mkArray3 (a3_shape a) (zip_with f (a3_data a) (a3_data b)))
  else None.

Definition ew1 (f : num -> num) (a : Array3 num) : Array3 num :=
  mkArray3 (a3_shape a) (map f (a3_data a)).

(** [a *= s] for a zero-dimensional array [s], held as a one-entry list. *)
Definition imul_scalar (a : Array3 num) (s : list num) : option (Array3 num) :=
  match s with
  | [s] => Some (ew1 (fun x => mul x s) a)
  | _ => None
  end.

(** The fields of the structured arrays [transferrin.grid] and [tafc.grid]. *)
Record TransferrinGrid : Type := mkTransferrinGrid {
  Tf : Array3 num;
  TfFe : Array3 num;
  TfFe2 : Array3 num;
}.

Record TAFCGrid : Type := mkTAFCGrid {
  TAFC : Array3 num;
  TAFCBI : Array3 num;
}.

(** The members of the enumerations of [nlisim.modulesv2.afumigatus] that
    [advance] names; the remaining members are told apart by a number. *)
Inductive AfumigatusCellState : Type :=
  | FREE
  | OtherCellState (n : nat).

Inductive AfumigatusCellStatus : Type :=
  | DYING
  | SWELLING_CONIDIA
  | HYPHAE
  | GERM_TUBE
  | OtherCellStatus (n : nat).

Inductive NetworkSpecies : Type :=
  | MirB
  | EstB
  | NetTAFC
  | OtherSpecies (n : nat).

#[global] Instance AfumigatusCellState_eq_dec : EqDecision AfumigatusCellState.
Proof. solve_decision. Defined.
#[global] Instance AfumigatusCellStatus_eq_dec : EqDecision AfumigatusCellStatus.
Proof. solve_decision. Defined.

(** A fungal cell record.  [cell_voxel] is
    [tuple(grid.get_voxel(cell['point']))], the index triple used on the
    grids; [dead] is the flag behind [cells.alive()]. *)
Record AfumigatusCellData : Type := mkAfumigatusCell {
  dead : bool;
  cell_state : AfumigatusCellState;
  cell_status : AfumigatusCellStatus;
  cell_voxel : Z * Z * Z;
  boolean_network : NetworkSpecies -> bool;
  iron_pool : num;
}.

(** The simulation state read and written by [TAFC.advance]. *)
Record State : Type := mkSimState {
  transferrin_grid : TransferrinGrid;
  tafc_grid : TAFCGrid;
  iron_grid : Array3 num;
  afumigatus_cells : list AfumigatusCellData;
  k_m_tf_tafc : num;
  tafc_up : num;
  tafc_qtty : num;
  voxel_volume : num;
  molecules_turnover_rate : num;
  molecules_rel_cyt_bind_unit_t : num;
}.

(** Modelled from the spec: the method [michaelian_kinetics] of
    [MoleculeModel] ([nlisim/modulesv2/molecules.py]) is not among the
    sources; it is the saturable rate
    "h·k_cat·enzyme·substrate / (substrate + k_m·volume)" with [k_cat = 1],
    taken entry by entry. *)
Definition model_michaelian_kinetics (substrate enzyme : Array3 num)
    (km h voxel_volume : num) : option (Array3 num) :=
  ew2 (fun s e => Util.michaelian_kinetics s e km h
                    Util.michaelian_kinetics_k_cat_default voxel_volume)
      substrate enzyme.

(** Lines 67 to 99: iron passes from transferrin to TAFC. *)
Definition transferrin_interaction (time_step : num) (st : State) : option State :=
  let transferrin := transferrin_grid st in
  let tafc := tafc_grid st in
  let h := div time_step (Fin 60) in
  dfe2dt ← model_michaelian_kinetics (TfFe2 transferrin) (TAFC tafc)
             (k_m_tf_tafc st) h (voxel_volume st);
  dfedt ← model_michaelian_kinetics (TfFe transferrin) (TAFC tafc)
            (k_m_tf_tafc st) h (voxel_volume st);
  (* enforce bounds from TAFC quantity *)
  total_change ← ew2 add dfe2dt dfedt;
  rel ← ew2 div (TAFC tafc) total_change;
  rel ← ew2 (fun r t => if eqb t zero then zero else r) rel total_change;
  let rel := ew1 (fun r => maximum r one) rel in
  dfe2dt ← ew2 mul dfe2dt rel;
  dfedt ← ew2 mul dfedt rel;
  (* transferrin+2Fe loses an iron, becomes transferrin+Fe *)
  tffe2 ← ew2 sub (TfFe2 transferrin) dfe2dt;
  tffe ← ew2 add (TfFe transferrin) dfe2dt;
  (* transferrin+Fe loses an iron, becomes transferrin *)
  tffe ← ew2 sub tffe dfedt;
  tf ← ew2 add (Tf transferrin) dfedt;
  (* iron from transferrin becomes bound to TAFC *)
  change ← ew2 add dfe2dt dfedt;
  tafc_free ← ew2 sub (TAFC tafc) change;
  tafc_bi ← ew2 add (TAFCBI tafc) change;
  Some (mkSimState (mkTransferrinGrid tf tffe tffe2) (mkTAFCGrid tafc_free tafc_bi)
          (iron_grid st) (afumigatus_cells st) (k_m_tf_tafc st) (tafc_up st)
          (tafc_qtty st) (voxel_volume st) (molecules_turnover_rate st)
          (molecules_rel_cyt_bind_unit_t st)).

(** Lines 101 to 105: all available iron is bound to TAFC. *)
Definition iron_interaction (st : State) : option State :=
  let tafc := tafc_grid st in
  potential_reactive_quantity ← ew2 minimum (iron_grid st) (TAFC tafc);
  tafc_free ← ew2 sub (TAFC tafc) potential_reactive_quantity;
  tafc_bi ← ew2 add (TAFCBI tafc) potential_reactive_quantity;
  iron ← ew2 sub (iron_grid st) potential_reactive_quantity;
  Some (mkSimState (transferrin_grid st) (mkTAFCGrid tafc_free tafc_bi)
          iron (afumigatus_cells st) (k_m_tf_tafc st) (tafc_up st)
          (tafc_qtty st) (voxel_volume st) (molecules_turnover_rate st)
          (molecules_rel_cyt_bind_unit_t st)).

(** Body of the loop over the living fungal cells (lines 108 to 131), on
    the TAFC grids and the cell at hand. *)
Definition fungus_cell (tafc_up tafc_qtty : num)
    (acc : TAFCGrid * list AfumigatusCellData) (cell : AfumigatusCellData)
  : option (TAFCGrid * list AfumigatusCellData) :=
  let '(tafc, done) := acc in
  if dead cell then Some (tafc, done ++ [cell])
  else if bool_decide (cell_state cell <> FREE)
          || bool_decide (cell_status cell = DYING)
  then Some (tafc, done ++ [cell])
  else
    let '(k, j, i) := cell_voxel cell in
    let net := boolean_network cell in
    (* uptake iron from TAFCBI *)
    '(tafc, cell) ←
      (if net MirB && net EstB then
         bi ← get3 (TAFCBI tafc) k j i;
         let qtty := mul bi tafc_up in
         bi ← get3 (TAFCBI tafc) k j i;
         tafc_bi ← set3 (TAFCBI tafc) k j i (sub bi qtty);
         Some (mkTAFCGrid (TAFC tafc) tafc_bi,
               mkAfumigatusCell (dead cell) (cell_state cell) (cell_status cell)
                 (cell_voxel cell) (boolean_network cell)
                 (add (iron_pool cell) qtty))
       else Some (tafc, cell));
    (* secrete TAFC *)
    tafc ←
      (if net NetTAFC
          && bool_decide (cell_status cell ∈ [SWELLING_CONIDIA; HYPHAE; GERM_TUBE])
       then
         free ← get3 (TAFC tafc) k j i;
         tafc_free ← set3 (TAFC tafc) k j i (add free tafc_qtty);
         Some (mkTAFCGrid tafc_free (TAFCBI tafc))
       else Some tafc);
    Some (tafc, done ++ [cell]).

Definition fungus_interaction (st : State) : option State :=
  '(tafc, cells) ←
    Diffusion.foldM (fungus_cell (tafc_up st) (tafc_qtty st))
                    (tafc_grid st, []) (afumigatus_cells st);
  Some (mkSimState (transferrin_grid st) tafc (iron_grid st) cells
          (k_m_tf_tafc st) (tafc_up st) (tafc_qtty st) (voxel_volume st)
          (molecules_turnover_rate st) (molecules_rel_cyt_bind_unit_t st)).

(** Lines 133 to 139: degrade TAFC.  The call names the first two
    arguments of [turnover_rate] [x_mol] and [x_system_mol]; they are bound
    here to the parameters [x] and [x_system] of the helper of
    [src/nlisim/util.py]. *)
Definition degrade (junk : nat -> num) (st : State) : option State :=
  let tafc := tafc_grid st in
  trnvr_rt ← Util.turnover_rate junk [Fin 1] zero
               (molecules_turnover_rate st) (molecules_rel_cyt_bind_unit_t st);
  tafc_free ← imul_scalar (TAFC tafc) trnvr_rt;
  tafc_bi ← imul_scalar (TAFCBI tafc) trnvr_rt;
  Some (mkSimState (transferrin_grid st) (mkTAFCGrid tafc_free tafc_bi)
          (iron_grid st) (afumigatus_cells st) (k_m_tf_tafc st) (tafc_up st)
          (tafc_qtty st) (voxel_volume st) (molecules_turnover_rate st)
          (molecules_rel_cyt_bind_unit_t st)).

(** [TAFC.advance(state, previous_time)]; [time_step] is [self.time_step]. *)
Definition advance (junk : nat -> num) (time_step : num) (st : State) : option State :=
  st ← transferrin_interaction time_step st;
  st ← iron_interaction st;
  st ← fungus_interaction st;
  degrade junk st.

(** Every entry of every concentration field of the state is [>= 0]. *)
Definition grid_nonneg (a : Array3 num) : Prop := Forall nonneg (a3_data a).

Definition concentrations_nonneg (st : State) : Prop :=
  grid_nonneg (Tf (transferrin_grid st))
  /\ grid_nonneg (TfFe (transferrin_grid st))
  /\ grid_nonneg (TfFe2 (transferrin_grid st))
  /\ grid_nonneg (TAFC (tafc_grid st))
  /\ grid_nonneg (TAFCBI (tafc_grid st))
  /\ grid_nonneg (iron_grid st).

End TAFC.

(** ** Cells and chemotaxis ([src/simulation/modules]) *)

Module Simulation.

(** [Point(x=, y=, z=)] *)
Record Point : Type := mkPoint { px : num; py : num; pz : num }.

(** [a + b] on points. *)
Definition point_add (a b : Point) : Point :=
  mkPoint (add (px a) (px b)) (add (py a) (py b)) (add (pz a) (pz b)).

(** The parts of [simulation.grid.RectangularGrid] the chemotaxis routines
    read: the coordinates of the voxel centres and of the voxel edges
    along each axis. *)
Record RectangularGrid : Type := mkSimGrid {
  grid_x : list num;
  grid_y : list num;
  grid_z : list num;
  grid_xv : list num;
  grid_yv : list num;
  grid_zv : list num;
}.

(** Modelled from the spec: [is_valid_voxel] of [simulation/grid.py] is not
    among the sources; candidates are "filtered ... to in-bounds voxels". *)
Definition is_valid_voxel (grid : RectangularGrid) (v : Voxel) : bool :=
  bool_decide (0 <= vx v < Z.of_nat (length (grid_x grid)))%Z
  && bool_decide (0 <= vy v < Z.of_nat (length (grid_y grid)))%Z
  && bool_decide (0 <= vz v < Z.of_nat (length (grid_z grid)))%Z.

(** The values of the members of [simulation.modules.geometry.TissueTypes]
    the code names. *)
Record TissueTypes : Type := mkTissueTypes {
  SURFACTANT : Z;
  BLOOD : Z;
  EPITHELIUM : Z;
  PORE : Z;
}.

(** Python's [a or b] on integers. *)
Definition py_or (a b : Z) : Z := if decide (a = 0%Z) then b else a.

(** The fields of a cell record that the routines read or write.
    [voxel] is the denormalised voxel index kept by the cell list. *)
Record CellData : Type := mkCell {
  point : Point;
  dead : bool;
  iron_pool : num;
  boolean_network : list bool;
  voxel : Voxel;
}.

Definition set_point (c : CellData) (p : Point) : CellData :=
  mkCell p (dead c) (iron_pool c) (boolean_network c) (voxel c).

Definition set_iron_pool (c : CellData) (q : num) : CellData :=
  mkCell (point c) (dead c) q (boolean_network c) (voxel c).

Definition set_boolean_network (c : CellData) (b : list bool) : CellData :=
  mkCell (point c) (dead c) (iron_pool c) b (voxel c).

(** Modelled from the spec: [CellList.alive] of [simulation/cell.py] is not
    among the sources; it gives the "indices whose status is not the
    terminal dead value", in ascending order. *)
Definition alive (cells : list CellData) : list nat :=
  omap (fun '(i, c) => if dead c then None else Some i) (zip (seq 0 (length cells)) cells).

(** [logistic(x, l, b)]: [1 - b * math.exp(-((x / l) ** 2))] *)
Definition logistic (x l b : num) : num :=
  let q := div x l in
  sub one (mul b (nexp (neg (mul q q)))).

(** [hill_probability(substract, km=10)] *)
Definition hill_probability (substract km : num) : num :=
  div (mul substract substract) (add (mul substract substract) (mul km km)).

Definition hill_probability_km_default : num := Fin 10.

(** The values a loop variable takes: [[0, 1, -1]]. *)
Definition steps : list Z := [0; 1; -1]%Z.

(** The final loop of both routines: the first position whose cumulative
    weight reaches [prob]. *)
Fixpoint select_from (prob cum_p : num) (i : nat) (p : list num) : option nat :=
  match p with
  | [] => None
  | w :: p =>
      let cum_p := add cum_p w in
      if leb prob cum_p then Some i else select_from prob cum_p (S i) p
  end.

(** [if p_tot: p[i] = p[i] / p_tot] for every position. *)
Definition scale (p : list num) (p_tot : num) : list num :=
  if eqb p_tot zero then p else map (fun w => div w p_tot) p.

Section Chemotaxis.

(** [grid.get_voxel], of [simulation/grid.py], which is not among the
    sources: the voxel that holds a point. *)
Variable get_voxel : RectangularGrid -> Point -> Voxel.

Variable tissue_types : TissueTypes.

(** Modelled from the spec: [CellList.update_voxel_index] of
    [simulation/cell.py] is not among the sources; "the population's voxel
    index is refreshed immediately for that agent". *)
Definition update_voxel_index (grid : RectangularGrid) (c : CellData) : CellData :=
  mkCell (point c) (dead c) (iron_pool c) (boolean_network c) (get_voxel grid (point c)).

(** *** [PhagocyteCellList.chemotaxis] ([phagocyte.py]) *)

(** The weight loop, for one offset [(x, y, z)]. *)
Definition phagocyte_weigh (molecule : Array3 num) (drift_lambda drift_bias : num)
    (tissue : Array3 Z) (grid : RectangularGrid) (vox : Voxel)
    (acc : list num * list (Z * Z * Z) * num) (xyz : Z * Z * Z)
  : option (list num * list (Z * Z * Z) * num) :=
  let '(p, vox_list, p_tot) := acc in
  let '(x, y, z) := xyz in
  let vox_list := vox_list ++ [(x, y, z)] in
  let zk := (vz vox + z)%Z in
  let yj := (vy vox + y)%Z in
  let xi := (vx vox + x)%Z in
  if is_valid_voxel grid (mkVoxel xi yj zk) then
    t ← get3 tissue zk yj xi;
    if bool_decide (t ∈ [SURFACTANT tissue_types; BLOOD tissue_types;
                         EPITHELIUM tissue_types; PORE tissue_types])
    then
      m ← get3 molecule zk yj xi;
      let w := logistic m drift_lambda drift_bias in
      Some (p ++ [w], vox_list, add p_tot w)
    else Some (p ++ [zero], vox_list, p_tot)
  else Some (p ++ [zero], vox_list, p_tot).

(** The 27 offsets in the order of the three nested loops. *)
Definition offsets27 : list (Z * Z * Z) :=
  x ← steps; y ← steps; z ← steps; [(x, y, z)].

(** The body of the loop over the living cells, given the draw [prob]. *)
Definition phagocyte_chemotaxis_cell (molecule : Array3 num)
    (drift_lambda drift_bias : num) (tissue : Array3 Z) (grid : RectangularGrid)
    (prob : num) (cell : CellData) : option CellData :=
  let vox := get_voxel grid (point cell) in
  '(p, vox_list, p_tot) ←
    Diffusion.foldM (phagocyte_weigh molecule drift_lambda drift_bias tissue grid vox)
                    ([], [], zero) offsets27;
  let p := scale p p_tot in
  match select_from prob zero 0 p with
  | None => Some cell
  | Some i =>
      '(ox, oy, oz) ← vox_list !! i;
      nx ← Py.index (grid_x grid) (vx vox + ox);
      ny ← Py.index (grid_y grid) (vy vox + oy);
      nz ← Py.index (grid_z grid) (vz vox + oz);
      Some (update_voxel_index grid (set_point cell (mkPoint nx ny nz)))
  end.

(** Run a loop body on the cells listed in [indices], in order, threading
    the cell table and the random generator. *)
Fixpoint for_each_cell
    (body : Random.generator -> CellData -> option (CellData * Random.generator))
    (indices : list nat) (cells : list CellData) (g : Random.generator)
  : option (list CellData * Random.generator) :=
  match indices with
  | [] => Some (cells, g)
  | index :: indices =>
      cell ← cells !! index;
      '(cell, g) ← body g cell;
      for_each_cell body indices (<[index := cell]> cells) g
  end.

(** [self.chemotaxis(molecule, drift_lambda, drift_bias, tissue, grid)] *)
Definition phagocyte_chemotaxis (molecule : Array3 num)
    (drift_lambda drift_bias : num) (tissue : Array3 Z) (grid : RectangularGrid)
    (cells : list CellData) (g : Random.generator)
  : option (list CellData * Random.generator) :=
  for_each_cell
    (fun g cell =>
       let '(prob, g) := Random.random g in
       cell ← phagocyte_chemotaxis_cell molecule drift_lambda drift_bias tissue grid
                prob cell;
       Some (cell, g))
    (alive cells) cells g.

(** *** [macrophage.py] *)

(** The state read and written by [Macrophage.advance]. *)
Record MacrophageState : Type := mkMacrophageState {
  cells : list CellData;
  MPH_UPTAKE_QTTY : num;
  TF_ENHANCE : num;
  DRIFT_LAMBDA : num;
  DRIFT_BIAS : num;
}.

Record State : Type := mkState {
  macrophage : MacrophageState;
  iron_concentration : Array3 num;
  lung_tissue : Array3 Z;
  grid : RectangularGrid;
}.

(** The body of the loop of [interact] over the living cells. *)
Definition interact_cell (uptake enhance : num) (grid : RectangularGrid)
    (iron : Array3 num) (g : Random.generator) (cell : CellData)
  : option (Array3 num * CellData * Random.generator) :=
  let vox := get_voxel grid (point cell) in
  iron_amount ← get3 iron (vz vox) (vy vox) (vx vox);
  let '(u, g) := Random.random g in
  '(iron, cell) ←
    (if gtb (hill_probability iron_amount hill_probability_km_default) u then
       let qtty := mul uptake iron_amount in
       old ← get3 iron (vz vox) (vy vox) (vx vox);
       iron ← set3 iron (vz vox) (vy vox) (vx vox) (sub old qtty);
       Some (iron, set_iron_pool cell (add (iron_pool cell) qtty))
     else Some (iron, cell));
  let fpn := 0%Z in
  let tf := 1%Z in
  n_fpn ← norm_index (length (boolean_network cell)) fpn;
  let cell := set_boolean_network cell (<[n_fpn := true]> (boolean_network cell)) in
  n_tf ← norm_index (length (boolean_network cell)) tf;
  let cell := set_boolean_network cell (<[n_tf := false]> (boolean_network cell)) in
  b_fpn ← Py.index (boolean_network cell) fpn;
  if (b_fpn : bool) then
    b_tf ← Py.index (boolean_network cell) tf;
    let enhancer := if (b_tf : bool) then enhance else one in
    let qtty :=
      mul (iron_pool cell)
          (if gtb (mul uptake enhancer) one then one else mul uptake enhancer) in
    old ← get3 iron (vz vox) (vy vox) (vx vox);
    iron ← set3 iron (vz vox) (vy vox) (vx vox) (add old qtty);
    Some (iron, set_iron_pool cell (sub (iron_pool cell) qtty), g)
  else Some (iron, cell, g).

(** [interact(state)]: the loop threads the iron field, the cell table and
    the generator. *)
Fixpoint interact_loop (uptake enhance : num) (grid : RectangularGrid)
    (indices : list nat) (iron : Array3 num) (cells : list CellData)
    (g : Random.generator)
  : option (Array3 num * list CellData * Random.generator) :=
  match indices with
  | [] => Some (iron, cells, g)
  | index :: indices =>
      cell ← cells !! index;
      '(iron, cell, g) ← interact_cell uptake enhance grid iron g cell;
      interact_loop uptake enhance grid indices iron (<[index := cell]> cells) g
  end.

Definition interact (st : State) (g : Random.generator)
  : option (State * Random.generator) :=
  let m := macrophage st in
  '(iron, cs, g) ←
    interact_loop (MPH_UPTAKE_QTTY m) (TF_ENHANCE m) (grid st)
                  (alive (cells m)) (iron_concentration st) (cells m) g;
  Some (mkState (mkMacrophageState cs (MPH_UPTAKE_QTTY m) (TF_ENHANCE m)
                   (DRIFT_LAMBDA m) (DRIFT_BIAS m))
                iron (lung_tissue st) (grid st), g).

(** The innermost loop body of the weight loops of [chemotaxis].  The loop
    variables [x], [y] and [z] are overwritten by the voxel coordinates, so
    [x] and [y] carry over to the next iteration. *)
Definition macrophage_weigh (molecule : Array3 num) (drift_lambda drift_bias : num)
    (tissue : Array3 Z) (grid : RectangularGrid) (vox : Voxel)
    (acc : list num * list (Z * Z * Z) * num * (Z * Z)) (z : Z)
  : option (list num * list (Z * Z * Z) * num * (Z * Z)) :=
  let '(p, vox_list, p_tot, (x, y)) := acc in
  let vox_list := vox_list ++ [(x, y, z)] in
  let z := (vz vox + z)%Z in
  let y := (vy vox + y)%Z in
  let x := (vx vox + x)%Z in
  xv_first ← Py.index (grid_xv grid) 0;
  xv_last ← Py.index (grid_xv grid) (-1);
  yv_first ← Py.index (grid_yv grid) 0;
  yv_last ← Py.index (grid_yv grid) (-1);
  zv_first ← Py.index (grid_zv grid) 0;
  zv_last ← Py.index (grid_zv grid) (-1);
  if leb xv_first (Fin (IZR x)) && leb (Fin (IZR x)) xv_last
     && leb yv_first (Fin (IZR y)) && leb (Fin (IZR y)) yv_last
     && leb zv_first (Fin (IZR z)) && leb (Fin (IZR z)) zv_last
  then
    t ← get3 tissue z y x;
    if bool_decide (t ∈ [py_or (SURFACTANT tissue_types)
                           (py_or (BLOOD tissue_types)
                              (py_or (EPITHELIUM tissue_types) (PORE tissue_types)))])
    then
      m ← get3 molecule z y x;
      let w := logistic m drift_lambda drift_bias in
      Some (p ++ [w], vox_list, add p_tot w, (x, y))
    else Some (p ++ [zero], vox_list, p_tot, (x, y))
  else Some (p ++ [zero], vox_list, p_tot, (x, y)).

(** [for y in [0, 1, -1]: for z in [0, 1, -1]: ...] *)
Definition macrophage_weigh_y (molecule : Array3 num) (drift_lambda drift_bias : num)
    (tissue : Array3 Z) (grid : RectangularGrid) (vox : Voxel)
    (acc : list num * list (Z * Z * Z) * num * (Z * Z)) (y : Z)
  : option (list num * list (Z * Z * Z) * num * (Z * Z)) :=
  let '(p, vox_list, p_tot, (x, _)) := acc in
  Diffusion.foldM (macrophage_weigh molecule drift_lambda drift_bias tissue grid vox)
                  (p, vox_list, p_tot, (x, y)) steps.

(** [for x in [0, 1, -1]: for y in [0, 1, -1]: ...] *)
Definition macrophage_weigh_x (molecule : Array3 num) (drift_lambda drift_bias : num)
    (tissue : Array3 Z) (grid : RectangularGrid) (vox : Voxel)
    (acc : list num * list (Z * Z * Z) * num * (Z * Z)) (x : Z)
  : option (list num * list (Z * Z * Z) * num * (Z * Z)) :=
  let '(p, vox_list, p_tot, (_, y)) := acc in
  Diffusion.foldM (macrophage_weigh_y molecule drift_lambda drift_bias tissue grid vox)
                  (p, vox_list, p_tot, (x, y)) steps.

(** The body of the loop of [chemotaxis] over the living cells; [prob] is
    the argument of the routine. *)
Definition macrophage_chemotaxis_cell (molecule : Array3 num) (prob : num)
    (drift_lambda drift_bias : num) (tissue : Array3 Z) (grid : RectangularGrid)
    (cell : CellData) : option CellData :=
  let vox := get_voxel grid (point cell) in
  '(p, vox_list, p_tot, _) ←
    Diffusion.foldM (macrophage_weigh_x molecule drift_lambda drift_bias tissue grid vox)
                    ([], [], zero, (0%Z, 0%Z)) steps;
  let p := scale p p_tot in
  match select_from prob zero 0 p with
  | None => Some cell
  | Some i =>
      '(ox, oy, oz) ← vox_list !! i;
      Some (update_voxel_index grid
              (set_point cell
                 (point_add (point cell)
                    (mkPoint (Fin (IZR ox)) (Fin (IZR oy)) (Fin (IZR oz))))))
  end.

(** [chemotaxis(molecule, prob, drift_lambda, drift_bias, cells, tissue, grid)] *)
Definition macrophage_chemotaxis (molecule : Array3 num) (prob : num)
    (drift_lambda drift_bias : num) (cs : list CellData) (tissue : Array3 Z)
    (grid : RectangularGrid) (g : Random.generator)
  : option (list CellData * Random.generator) :=
  for_each_cell
    (fun g cell =>
       cell ← macrophage_chemotaxis_cell molecule prob drift_lambda drift_bias
                tissue grid cell;
       Some (cell, g))
    (alive cs) cs g.

(** [Macrophage.advance(state, previous_time)] *)
Definition macrophage_advance (st : State) (g : Random.generator)
  : option (State * Random.generator) :=
  '(st, g) ← interact st g;
  let m := macrophage st in
  let '(prob, g) := Random.random g in
  '(cs, g) ←
    macrophage_chemotaxis (iron_concentration st) prob (DRIFT_LAMBDA m) (DRIFT_BIAS m)
                          (cells m) (lung_tissue st) (grid st) g;
  Some (mkState (mkMacrophageState cs (MPH_UPTAKE_QTTY m) (TF_ENHANCE m)
                   (DRIFT_LAMBDA m) (DRIFT_BIAS m))
                (iron_concentration st) (lung_tissue st) (grid st), g).

End Chemotaxis.


End Simulation.

(** ** What the Laplacian builders are checked against *)

Module LaplacianSpec.

(** The spacing arrays have the shape of the grid and hold finite values
    that are not zero. *)
Definition spacing_ok (grid : RectangularGrid) : Prop :=
  forall axis, (axis < 3)%nat ->
    a3_shape (delta grid axis) = shape grid
    /\ a3_wf (delta grid axis)
    /\ Forall (fun d => exists r, d = Fin r /\ r <> 0%R) (a3_data (delta grid axis)).

(** The mask is a boolean array of the shape of the grid. *)
Definition mask_fits (grid : RectangularGrid) (mask : Array3 bool) : Prop :=
  a3_shape mask = shape grid /\ a3_wf mask.

(** Row [i] of a graph Laplacian: finite entries that sum to zero, the
    diagonal entry being minus the sum of the others. *)
Definition graph_laplacian_row (i : nat) (row : list num) : Prop :=
  all_finite row
  /\ sum row = zero
  /\ row !! i = Some (neg (sum (delete i row))).

(** The real value of a finite number. *)
Definition to_R (a : num) : R := match a with Fin r => r | _ => 0%R end.

(** Sum of [f] over the positions in [l]. *)
Definition sum_over (f : nat -> R) (l : list nat) : R :=
  foldr (fun c acc => (f c + acc)%R) 0%R l.

(** The entry of a [dok_matrix] at a position, as a read would give it. *)
Definition entry (m : dok) (r c : nat) : num := default zero (dok_dict m !! (r, c)).

(** A [dok_matrix] under construction is [N] by [N], stores finite values
    only, and only in the rows [touched]. *)
Definition dok_ok (N : nat) (touched : nat -> Prop) (m : dok) : Prop :=
  dok_shape m = (N, N)
  /\ forall r c v, dok_dict m !! (r, c) = Some v -> is_finite v = true /\ touched r.

(** The sum of row [r] of an [N] by [N] [dok_matrix]. *)
Definition row_sum (N : nat) (m : dok) (r : nat) : R :=
  sum_over (fun c => to_R (entry m r c)) (seq 0 N).

(** The rows of the voxels of the mask. *)
Definition masked_row (grid : RectangularGrid) (mask : Array3 bool) (r : nat) : Prop :=
  exists k j i, (k, j, i) ∈ nonzero mask
                /\ r = Z.to_nat (get_flattened_index grid (mkVoxel i j k)).

(** The invariant of the loops of the builders: a well-formed matrix whose
    rows all sum to zero. *)
Definition balanced (grid : RectangularGrid) (mask : Array3 bool) (m : dok) : Prop :=
  dok_ok (len grid) (masked_row grid mask) m
  /\ forall r, row_sum (len grid) m r = 0%R.

(** What is claimed of the result of a builder: it returns a square matrix
    of the size of the grid whose rows are graph-Laplacian rows, the rows of
    the voxels outside the mask being zero throughout. *)
Definition is_graph_laplacian (grid : RectangularGrid) (mask : Array3 bool)
    (result : option mat) : Prop :=
  exists laplacian,
    result = Some laplacian
    /\ length laplacian = len grid
    /\ (forall i row, laplacian !! i = Some row ->
          length row = len grid /\ graph_laplacian_row i row)
    /\ (forall v, is_valid_voxel grid v = true ->
          get3 mask (vz v) (vy v) (vx v) = Some false ->
          laplacian !! Z.to_nat (get_flattened_index grid v)
          = Some (replicate (len grid) zero)).

(** The sum of the real values of a list of numbers. *)
Definition total (l : list num) : R := foldr (fun a acc => (to_R a + acc)%R) 0%R l.

End LaplacianSpec.

(** ** Concrete inputs

    The inputs at which the properties below are instantiated. *)

Module Scenarios.

(** A solver that gives back its right-hand side and reports one
    iteration without convergence. *)
Definition cg_not_converged : mat -> vec -> option vec -> num -> vec * Z :=
  fun _ rhs _ _ => (rhs, 1%Z).

(** A heap with one array, [[1.0]], at location 0, and an empty log. *)
Definition one_cell_state : state := Py.mkState {[ 0%nat := [Fin 1] ]} [].

(** A grid of two voxels along the x axis, with unit spacing, and the mask
    that selects both. *)
Definition two_voxel_grid : RectangularGrid :=
  mkGrid (1, 1, 2)%nat (fun _ => mkArray3 (1, 1, 2)%nat [Fin 1; Fin 1]).

Definition two_voxel_mask : Array3 bool := mkArray3 (1, 1, 2)%nat [true; true].

(** One voxel holding one unit of iron-loaded transferrin (TfFe2) and a
    hundred units of free TAFC; no fungal cell.  The constants make the
    Michaelis-Menten rate [h * TAFC * TfFe2 / (TfFe2 + k_m * volume)] equal
    to fifty. *)
Definition one_voxel (a : num) : Array3 num := mkArray3 (1, 1, 1)%nat [a].

Definition tafc_state : TAFC.State :=
  TAFC.mkSimState
    (TAFC.mkTransferrinGrid (one_voxel (Fin 0)) (one_voxel (Fin 0)) (one_voxel (Fin 1)))
    (TAFC.mkTAFCGrid (one_voxel (Fin 100)) (one_voxel (Fin 0)))
    (one_voxel (Fin 0))
    []
    (Fin 1) (Fin 1) (Fin 1) (Fin 1) (Fin 0) (Fin 0).

(** A mesh of one tetrahedron with unit dual volumes, and a point field
    holding [1.0] at each of its four points. *)
Definition one_tetrahedron : UtilMesh.TetrahedralMesh :=
  UtilMesh.mkMesh [[0; 1; 2; 3]%Z] [Fin 1; Fin 1; Fin 1; Fin 1].

Definition unit_point_field : list num := [Fin 1; Fin 1; Fin 1; Fin 1].

(** The values of the tissue types, as in [nlisim.util.TissueType]. *)
Definition tissue_type_values : Simulation.TissueTypes :=
  Simulation.mkTissueTypes 4 1 3 5.

(** A grid of a single unit voxel, centred at (0.5, 0.5, 0.5); every point
    lies in that voxel. *)
Definition one_voxel_grid : Simulation.RectangularGrid :=
  Simulation.mkSimGrid [Fin (1 / 2)] [Fin (1 / 2)] [Fin (1 / 2)]
                       [Fin 0; Fin 1] [Fin 0; Fin 1] [Fin 0; Fin 1].

Definition get_voxel_origin : Simulation.RectangularGrid -> Simulation.Point -> Voxel :=
  fun _ _ => mkVoxel 0 0 0.

(** The voxel is air, which no cell may occupy. *)
Definition air_tissue : Array3 Z := mkArray3 (1, 1, 1)%nat [0%Z].

(** A living cell away from the centre of the voxel. *)
Definition off_centre_cell : Simulation.CellData :=
  Simulation.mkCell (Simulation.mkPoint (Fin (7 / 10)) (Fin (1 / 2)) (Fin (1 / 2)))
                    false (Fin 0) [true; false; true] (mkVoxel 0 0 0).

(** A generator whose draws are all [0.0]. *)
Definition zero_generator : Random.generator := Random.mkGenerator (fun _ => 0%R) 0.

(** A grid of two voxels of width one half along the x axis.  The voxel of
    a point is found from its x coordinate. *)
Definition two_voxel_sim_grid : Simulation.RectangularGrid :=
  Simulation.mkSimGrid [Fin (1 / 4); Fin (3 / 4)] [Fin (1 / 4)] [Fin (1 / 4)]
                       [Fin 0; Fin (1 / 2); Fin 1] [Fin 0; Fin (1 / 2)] [Fin 0; Fin (1 / 2)].

Definition get_voxel_by_x : Simulation.RectangularGrid -> Simulation.Point -> Voxel :=
  fun _ p => mkVoxel (if ltb (Simulation.px p) (Fin (1 / 2)) then 0 else 1) 0 0.

(** Both voxels are surfactant and hold no iron. *)
Definition surfactant_tissue : Array3 Z := mkArray3 (1, 1, 2)%nat [4%Z; 4%Z].

Definition no_iron : Array3 num := mkArray3 (1, 1, 2)%nat [Fin 0; Fin 0].

(** Two living macrophages in the first voxel. *)
Definition first_macrophage : Simulation.CellData :=
  Simulation.mkCell (Simulation.mkPoint (Fin (1 / 10)) (Fin (1 / 10)) (Fin (1 / 10)))
                    false (Fin 0) [true; false; true] (mkVoxel 0 0 0).

Definition second_macrophage : Simulation.CellData :=
  Simulation.mkCell (Simulation.mkPoint (Fin (2 / 10)) (Fin (1 / 10)) (Fin (1 / 10)))
                    false (Fin 0) [true; false; true] (mkVoxel 0 0 0).

(** The state given to [Macrophage.advance]: uptake 0.1, no enhancement,
    drift scale 10 and no drift bias, so that every candidate voxel that
    may be occupied has weight one. *)
Definition macrophage_state : Simulation.State :=
  Simulation.mkState
    (Simulation.mkMacrophageState [first_macrophage; second_macrophage]
       (Fin (1 / 10)) (Fin 1) (Fin 10) (Fin 0))
    no_iron surfactant_tissue two_voxel_sim_grid.

(** A stream of draws: 0.75 everywhere but at position 3, where it is 0.25. *)
Definition sample_generator : Random.generator :=
  Random.mkGenerator (fun n => if decide (n = 3%nat) then (1 / 4)%R else (3 / 4)%R) 0.

(** The weights the macrophage routine gives the candidates of a cell of
    the first voxel of [two_voxel_sim_grid]: one for the voxel itself and
    for its neighbour along x, nothing for the others. *)
Definition two_candidates : list num :=
  [Fin 1; zero; zero; zero; zero; zero; zero; zero; zero;
   Fin 1; zero; zero; zero; zero; zero; zero; zero; zero;
   zero; zero; zero; zero; zero; zero; zero; zero; zero].

(** A cell of [two_voxel_sim_grid] after a move by [ox] voxels along x, its
    voxel index refreshed. *)
Definition moved_by (ox : R) (c : Simulation.CellData) : Simulation.CellData :=
  Simulation.update_voxel_index get_voxel_by_x two_voxel_sim_grid
    (Simulation.set_point c
       (Simulation.point_add (Simulation.point c)
          (Simulation.mkPoint (Fin ox) (Fin 0) (Fin 0)))).

End Scenarios.

(** ** What the cell routines are checked against *)

Module CellSpec.

Import Simulation.

(** The fields of a cell that chemotaxis leaves alone. *)
Definition same_cell_state (c c' : CellData) : Prop :=
  dead c' = dead c /\ iron_pool c' = iron_pool c
  /\ boolean_network c' = boolean_network c.

(** The offsets listed by one run of the innermost loop, entered with the
    loop variables at [x] and [y], and by one run of the loop over [y],
    entered with [x]. *)
Definition inner_offsets (vox : Voxel) (x y : Z) : list (Z * Z * Z) :=
  [(x, y, 0); (vx vox + x, vy vox + y, 1); (2 * vx vox + x, 2 * vy vox + y, -1)]%Z.

Definition middle_offsets (vox : Voxel) (x : Z) : list (Z * Z * Z) :=
  inner_offsets vox x 0 ++ inner_offsets vox (3 * vx vox + x) 1
  ++ inner_offsets vox (6 * vx vox + x) (-1).

(** A weight other than [0.0] is given only to an offset whose voxel holds
    the tissue value [t]. *)
Definition weighed_for (tissue : Array3 Z) (vox : Voxel) (t : Z)
    (w : num) (o : Z * Z * Z) : Prop :=
  w <> zero ->
  get3 tissue (vz vox + o.2) (vy vox + o.1.2) (vx vox + o.1.1) = Some t.

(** The offsets that the weight loops of the macrophage routine list for a
    cell of the voxel [vox], in order: the loop variables [x] and [y] are
    overwritten by voxel coordinates inside the innermost loop, so that
    they drift by the coordinates of [vox] at every iteration until the
    enclosing loop sets them again. *)
Definition drifting_offsets (vox : Voxel) : list (Z * Z * Z) :=
  x ← steps;
  '(b, y) ← zip [0; 1; 2]%Z steps;
  '(c, z) ← zip [0; 1; 2]%Z steps;
  [((x + (3 * b + c) * vx vox)%Z, (y + c * vy vox)%Z, z)].

End CellSpec.

(** ** What the TAFC steps are checked against *)

Module TAFCSpec.

(** Two grids of one shape, holding as many entries. *)
Definition same_dims (a b : Array3 num) : Prop :=
  a3_shape a = a3_shape b /\ length (a3_data a) = length (a3_data b).

(** The grid holds the finite value [r] at the flat position [i]. *)
Definition at_voxel (a : Array3 num) (i : nat) (r : R) : Prop :=
  a3_data a !! i = Some (Fin r).

End TAFCSpec.

(** ** Further concrete inputs *)

Module Scenarios2.

Import Scenarios.

(** The state of [macrophage_state] with the first macrophage only. *)
Definition one_macrophage_state : Simulation.State :=
  Simulation.mkState
    (Simulation.mkMacrophageState [first_macrophage]
       (Fin (1 / 10)) (Fin 1) (Fin 10) (Fin 0))
    no_iron surfactant_tissue two_voxel_sim_grid.

(** A living, free fungal cell in the voxel of [tafc_state], with every
    node of its boolean network on and an empty iron pool. *)
Definition hypha : TAFC.AfumigatusCellData :=
  TAFC.mkAfumigatusCell false TAFC.FREE TAFC.HYPHAE (0, 0, 0)%Z (fun _ => true) (Fin 0).

(** A solver that gives back its right-hand side and reports success. *)
Definition cg_converged : mat -> vec -> option vec -> num -> vec * Z :=
  fun _ rhs _ _ => (rhs, 0%Z).

End Scenarios2.

(** ** The TNF-a / anti-TNF-a reaction ([src/nlisim/modulesv2/antitnfa.py]) *)

Module AntiTNFa.

(** [np.min([a, b, c], axis=0)]: the three arrays are stacked, which needs
    one shape, and reduced entry by entry; NaN wins. *)
Definition min3 (a b c : list num) : option (list num) :=
  if decide (length a = length b /\ length b = length c)
  then Some (zip_with minimum (zip_with minimum a b) c)
  else None.

(** Lines 69 to 71 of [AntiTNFa.advance].  [kinetics] is the array returned
    by [self.michaelianKinetics], a method of [MoleculeModel]
    ([nlisim/modulesv2/molecule.py]), which is not among the sources.  The
    result is the new content of [anti_tnf_a.grid] and of [tnf_a.grid]. *)
Definition react (kinetics anti_tnf_a tnf_a : list num)
  : option (list num * list num) :=
  reacted_quantity ← min3 kinetics anti_tnf_a tnf_a;
  Some (map (maximum zero) (zip_with sub anti_tnf_a reacted_quantity),
        map (maximum zero) (zip_with sub tnf_a reacted_quantity)).

End AntiTNFa.

(** ** The minimal complement model ([src/complement-test/BMB_complement_minimal.py]) *)

Module Complement.

Declare Scope num_scope.
Delimit Scope num_scope with num.
#[local] Infix "+" := add : num_scope.
#[local] Infix "-" := sub : num_scope.
#[local] Infix "*" := mul : num_scope.
#[local] Infix "/" := div : num_scope.
#[local] Notation "- x" := (neg x) : num_scope.

(** [x ** 2] *)
Definition sq (x : num) : num := mul x x.

(** [minimal_model(t, var, k, ks, d, FD, FI)]: the right-hand side of the
    system.  The rate tables [k], [ks] and [d] come from the module
    [constants], which is not among the sources; they are read by index.
    [None] is the [ValueError] of unpacking [var] into nine names. *)
Definition minimal_model (t : num) (var : list num) (k ks d : nat -> num)
    (FD FI : num) : option (list num) :=
  match var with
  | [C3; C3b; C3bB_c; C3bB_o; C3bBb; FB; FH; C3bH; C3bBbH] =>
      let dC3 :=
        (ks 1%nat - d 1%nat * C3 - k 1%nat * C3
         - (k 2%nat * C3bBb * C3) / (k 3%nat + C3))%num in
      let dC3b :=
        (k 1%nat * C3
         + (k 2%nat * C3bBb * C3) / (k 3%nat + C3)
         - k 4%nat * C3b * FB
         + k 5%nat * C3bB_c
         + k 6%nat * C3bBb
         - k 15%nat * C3b * FH
         + k 16%nat * C3bH
         + k 21%nat * C3bBbH)%num in
      let dC3bB_c :=
        (k 4%nat * C3b * FB - k 5%nat * C3bB_c - k 9%nat * C3bB_c
         + k 10%nat * C3bB_o)%num in
      let dC3bB_o :=
        (k 9%nat * C3bB_c - k 10%nat * C3bB_o
         - (k 7%nat * FD * C3bB_o) / (k 8%nat + C3bB_o))%num in
      let dC3bBb :=
        ((k 7%nat * FD * C3bB_o) / (k 8%nat + C3bB_o) - k 6%nat * C3bBb
         - k 25%nat * C3bBb * FH + k 16%nat * C3bBbH)%num in
      let dFB :=
        (ks 2%nat - d 2%nat * FB - k 4%nat * C3b * FB + k 5%nat * C3bB_c)%num in
      let dFH :=
        (ks 3%nat
         - d 3%nat * FH
         - k 15%nat * C3b * FH
         + k 16%nat * C3bH
         - k 25%nat * C3bBb * FH
         + k 16%nat * C3bBbH
         + (k 19%nat * C3bH * FI) / (k 20%nat + C3bH)
         + k 21%nat * C3bBbH)%num in
      let dC3bH :=
        (k 15%nat * C3b * FH - k 16%nat * C3bH
         - (k 19%nat * C3bH * FI) / (k 20%nat + C3bH))%num in
      let dC3bBbH :=
        (k 25%nat * C3bBb * FH - k 16%nat * C3bBbH - k 21%nat * C3bBbH)%num in
      Some [dC3; dC3b; dC3bB_c; dC3bB_o; dC3bBb; dFB; dFH; dC3bH; dC3bBbH]
  | _ => None
  end.

(** [m.T] for an array of [n] columns given by rows. *)
Definition transpose (n : nat) (m : list (list num)) : list (list num) :=
  map (fun j => map (fun row => row !!! j) m) (seq 0 n).

(** [jacobian(t, var, k, ks, d, FD, FI)]: the nine rows as the code lists
    them, one for each variable, then the transposition. *)
Definition jacobian (t : num) (var : list num) (k ks d : nat -> num)
    (FD FI : num) : option (list (list num)) :=
  match var with
  | [C3; C3b; C3bB_c; C3bB_o; C3bBb; FB; FH; C3bH; C3bBbH] =>
      Some (transpose 9
        [ [ (- d 1%nat - k 1%nat - C3bBb * k 2%nat / (C3 + k 3%nat)
             + C3 * C3bBb * k 2%nat / sq (C3 + k 3%nat))%num;
            (k 1%nat + C3bBb * k 2%nat / (C3 + k 3%nat)
             - C3 * C3bBb * k 2%nat / sq (C3 + k 3%nat))%num;
            zero; zero; zero; zero; zero; zero; zero ];
          [ zero;
            (- FH * k 15%nat - FB * k 4%nat)%num;
            (FB * k 4%nat)%num;
            zero;
            zero;
            (- FB * k 4%nat)%num;
            (- FH * k 15%nat)%num;
            (FH * k 15%nat)%num;
            zero ];
          [ zero; k 5%nat; (- k 5%nat - k 9%nat)%num; k 9%nat; zero; k 5%nat;
            zero; zero; zero ];
          [ zero;
            zero;
            k 10%nat;
            (- k 10%nat - FD * k 7%nat / (C3bB_o + k 8%nat)
             + C3bB_o * FD * k 7%nat / sq (C3bB_o + k 8%nat))%num;
            (FD * k 7%nat / (C3bB_o + k 8%nat)
             - C3bB_o * FD * k 7%nat / sq (C3bB_o + k 8%nat))%num;
            zero; zero; zero; zero ];
          [ (- C3 * k 2%nat / (C3 + k 3%nat))%num;
            (C3 * k 2%nat / (C3 + k 3%nat) + k 6%nat)%num;
            zero;
            zero;
            (- FH * k 25%nat - k 6%nat)%num;
            zero;
            (- FH * k 25%nat)%num;
            zero;
            (FH * k 25%nat)%num ];
          [ zero; (- C3b * k 4%nat)%num; (C3b * k 4%nat)%num; zero; zero;
            (- C3b * k 4%nat - d 2%nat)%num; zero; zero; zero ];
          [ zero;
            (- C3b * k 15%nat)%num;
            zero;
            zero;
            (- C3bBb * k 25%nat)%num;
            zero;
            (- C3b * k 15%nat - C3bBb * k 25%nat - d 3%nat)%num;
            (C3b * k 15%nat)%num;
            (C3bBb * k 25%nat)%num ];
          [ zero;
            k 16%nat;
            zero;
            zero;
            zero;
            zero;
            (k 16%nat + FI * k 19%nat / (C3bH + k 20%nat)
             - C3bH * FI * k 19%nat / sq (C3bH + k 20%nat))%num;
            (- k 16%nat - FI * k 19%nat / (C3bH + k 20%nat)
             + C3bH * FI * k 19%nat / sq (C3bH + k 20%nat))%num;
            zero ];
          [ zero; k 21%nat; zero; zero; k 16%nat; zero;
            (k 16%nat + k 21%nat)%num; zero; (- k 16%nat - k 21%nat)%num ] ])
  | _ => None
  end.

End Complement.

(** ** What the complement model is checked against *)

Module ComplementSpec.

(** The entry in row [i] and column [j] of a matrix of reals given by
    rows. *)
Definition entry (m : list (list R)) (i j : nat) : R := nth j (nth i m []) 0%R.

End ComplementSpec.

(** ** Random points of a simplex ([src/nlisim/util.py]) *)

From stdpp Require Import sorting.
Import F64.

Module Simplex.

(** [np.random.random(n)]: [n] draws, in order. *)
Fixpoint draws (n : nat) (g : Random.generator) : list num * Random.generator :=
  match n with
  | O => ([], g)
  | S n =>
      let '(u, g) := Random.random g in
      let '(us, g) := draws n g in
      (u :: us, g)
  end.

(** The order of [np.sort]: ascending, NaN last. *)
Definition sort_le (a b : num) : Prop :=
  match a, b with
  | _, NaN => True
  | NaN, _ => False
  | _, _ => leb a b = true
  end.

#[global] Instance sort_le_dec (a b : num) : Decision (sort_le a b).
Proof. destruct a, b; simpl; apply _. Defined.

(** [np.sort] *)
Definition sort (l : list num) : list num := merge_sort sort_le l.

(** [np.diff(a, prepend=lo, append=hi)]: the differences of neighbours in
    [lo], the entries of [a], [hi]. *)
Definition diff (prepend append : num) (a : list num) : list num :=
  let b := prepend :: a ++ [append] in
  zip_with sub (tail b) b.

(** [sample_point_from_simplex(dimension)], for a dimension that is not
    negative. *)
Definition sample_point_from_simplex (dimension : nat) (g : Random.generator)
  : list num * Random.generator :=
  let '(us, g) := draws dimension g in
  (diff zero one (sort us), g).

Definition sample_point_from_simplex_dimension_default : nat := 3.

End Simplex.

(** * Properties *)

(** ** Facts about the idealised numbers *)

Module F64Facts.

Lemma map_is_fmap {A B} (f : A -> B) (l : list A) : map f l = f <$> l.
Proof. reflexivity. Qed.

Lemma nonneg_Fin (r : R) : nonneg (Fin r) <-> (0 <= r)%R.
Proof. num_crush; split; intros; try lra; try congruence. Qed.

Lemma nonneg_finite_or_inf (a : num) : nonneg a -> a <> NaN /\ a <> NInf.
Proof. destruct a; num_crush; split; congruence. Qed.

Lemma eqb_zero_Fin (r : R) : eqb (Fin r) zero = bool_decide (r = 0%R).
Proof. reflexivity. Qed.

Lemma add_Fin (x y : R) : add (Fin x) (Fin y) = Fin (x + y).
Proof. reflexivity. Qed.

Lemma mul_Fin (x y : R) : mul (Fin x) (Fin y) = Fin (x * y).
Proof. reflexivity. Qed.

Lemma sub_Fin (x y : R) : sub (Fin x) (Fin y) = Fin (x - y).
Proof. unfold sub; simpl. f_equal. Qed.

Lemma div_Fin (x y : R) : y <> 0%R -> div (Fin x) (Fin y) = Fin (x / y).
Proof. intros Hy. simpl. rewrite bool_decide_eq_false_2 by exact Hy. reflexivity. Qed.

Lemma div_zero_zero : div (Fin 0) (Fin 0) = NaN.
Proof. num_crush. Qed.

Lemma EPSILON_pos : (0 < / 10 ^ 50)%R.
Proof. apply Rinv_0_lt_compat, pow_lt. lra. Qed.

Lemma EPSILON_lt_1 : (/ 10 ^ 50 < 1)%R.
Proof.
  pose proof (Rinv_lt_contravar 1 (10 ^ 50)) as H.
  rewrite Rinv_1 in H. apply H.
  - rewrite Rmult_1_l. apply pow_lt. lra.
  - apply Rlt_pow_R1; [lra | lia].
Qed.

End F64Facts.

Import F64Facts.

(** ** Reaction kinetics *)

Module UtilFacts.

Import Util.

(** The special case of [turnover_rate]: a system level of zero. *)
Lemma turnover_rate_special_case (junk : nat -> num) (x : list num) (r t : num) :
  turnover_rate junk x zero r t
  = Some (replicate (length x) (nexp (mul (neg r) t))).
Proof.
  unfold turnover_rate.
  replace (eqb zero zero) with true; [reflexivity |].
  unfold eqb, zero. now rewrite bool_decide_eq_true_2.
Qed.

(** C5, as the code has it: with [x_system = 0] the function returns the
    decay factor [exp(-r*t)] at every entry of the result, whatever the
    entry of [x] is there, zero included; the result has the shape of
    [x]. *)
Theorem turnover_rate_x_system_zero (junk : nat -> num) (x : list num) (r t : num) :
  exists res,
    turnover_rate junk x zero r t = Some res
    /\ length res = length x
    /\ forall i v, res !! i = Some v -> v = nexp (mul (neg r) t).
Proof.
  rewrite turnover_rate_special_case. eexists. split; [reflexivity |].
  split; [apply length_replicate |].
  intros i v Hv. now apply lookup_replicate in Hv as [-> _].
Qed.

(** C5 fails as stated: at an entry where [x == 0] the result is
    [exp(-r*t)], which is not [0]. *)
Lemma turnover_rate_zero_entry_not_zero :
  exists v, turnover_rate (fun _ => NaN) [Fin 0] zero (Fin 1) (Fin 1) = Some [v]
            /\ eqb v zero = false.
Proof.
  exists (Fin (exp (- 1 * 1))). split.
  - rewrite turnover_rate_special_case. reflexivity.
  - unfold eqb, zero. apply bool_decide_eq_false_2.
    pose proof (exp_pos (- 1 * 1)). lra.
Qed.

(** Where [x_system] is not zero the zero entries of [x] do give [0]:
    the second branch zero-fills them after the guarded division. *)
Lemma turnover_rate_general_zero_entry (junk : nat -> num) (x : list num)
    (x_system r t : num) (res : list num) (i : nat) :
  eqb x_system zero = false ->
  turnover_rate junk x x_system r t = Some res ->
  x !! i = Some (Fin 0) ->
  res !! i = Some (Fin 0).
Proof.
  intros Hs Hres Hx. unfold turnover_rate in Hres. rewrite Hs in Hres.
  unfold mask_assign in Hres. simpl in Hres.
  case_decide as Hlen; [| discriminate]. simpl in Hres.
  injection Hres as <-.
  rewrite !map_is_fmap in *.
  rewrite list_lookup_fmap.
  rewrite lookup_zip_with.
  unfold true_divide_where.
  rewrite list_lookup_imap.
  rewrite !lookup_zip_with.
  rewrite !list_lookup_fmap, Hx. simpl.
  unfold eqb, zero at 1. rewrite bool_decide_eq_true_2 by reflexivity. simpl.
  num_crush.
Qed.


Lemma exp_le_1 (r : R) : (r <= 0)%R -> (exp r <= 1)%R.
Proof.
  intros [Hlt | ->].
  - pose proof (exp_increasing _ _ Hlt) as H. rewrite exp_0 in H. lra.
  - rewrite exp_0. lra.
Qed.

(** [michaelian_kinetics] on finite values with a denominator that is not
    zero. *)
Lemma michaelian_kinetics_Fin (s e k_m h k_cat v : R) :
  (s + k_m * v <> 0)%R ->
  michaelian_kinetics (Fin s) (Fin e) (Fin k_m) (Fin h) (Fin k_cat) (Fin v)
  = Fin (h * k_cat * e * s / (s + k_m * v)).
Proof.
  intros Hd. unfold michaelian_kinetics. rewrite !mul_Fin, add_Fin.
  now apply div_Fin.
Qed.

(** C6 fails as stated: with [substrate == 0] and [volume == 0] the
    Michaelis-Menten form is [0/0], which is NaN and not [0]; the same
    holds for the activation function at [x == 0] and [volume == 0]. *)
Lemma kinetics_zero_over_zero_is_nan :
  michaelian_kinetics (Fin 0) (Fin 1) (Fin 1) (Fin 1) (Fin 1) (Fin 0) = NaN
  /\ activation_function (Fin 0) (Fin 1) (Fin 1) (Fin 0) (Fin 1) = NaN.
Proof.
  split.
  - unfold michaelian_kinetics. num_crush.
  - unfold activation_function. num_crush.
Qed.

(** C6, as the code has it.  On finite non-negative arguments
    [michaelian_kinetics] is finite and non-negative whenever
    [substrate + k_m*volume] is not zero, and is [0] when the substrate is;
    [activation_function], with [0 <= b <= 1], is finite and non-negative
    whenever [x > 0] or [k_d*volume] is not zero.  No division is guarded:
    where numerator and denominator both vanish the result is NaN. *)
Theorem kinetics_zero_safety (s e k_m h k_cat v x k_d b : R) :
  (0 <= s)%R -> (0 <= e)%R -> (0 <= k_m)%R -> (0 <= h)%R -> (0 <= k_cat)%R ->
  (0 <= v)%R -> (0 <= x)%R -> (0 <= k_d)%R -> (0 <= b <= 1)%R ->
  ((s + k_m * v <> 0)%R ->
   exists r, michaelian_kinetics (Fin s) (Fin e) (Fin k_m) (Fin h) (Fin k_cat) (Fin v)
             = Fin r /\ (0 <= r)%R /\ (s = 0%R -> r = 0%R))
  /\ ((s + k_m * v = 0)%R ->
      michaelian_kinetics (Fin s) (Fin e) (Fin k_m) (Fin h) (Fin k_cat) (Fin v) = NaN)
  /\ ((0 < x)%R \/ (k_d * v <> 0)%R ->
      exists r, activation_function (Fin x) (Fin k_d) (Fin h) (Fin v) (Fin b) = Fin r
                /\ (0 <= r)%R)
  /\ (x = 0%R -> (k_d * v = 0)%R ->
      activation_function (Fin x) (Fin k_d) (Fin h) (Fin v) (Fin b) = NaN).
Proof.
  intros Hs He Hk Hh Hc Hv Hx Hkd Hb.
  assert (Hkv : (0 <= k_m * v)%R) by (apply Rmult_le_pos; assumption).
  repeat split.
  - intros Hd. eexists. split; [now apply michaelian_kinetics_Fin |]. split.
    + apply Rmult_le_pos.
      * repeat apply Rmult_le_pos; assumption.
      * left. apply Rinv_0_lt_compat. lra.
    + intros ->. unfold Rdiv. ring.
  - intros Hd. assert (s = 0%R) as -> by lra.
    unfold michaelian_kinetics. rewrite !mul_Fin, add_Fin.
    simpl. rewrite bool_decide_eq_true_2 by exact Hd.
    unfold sign_of.
    rewrite !bool_decide_eq_false_2; [reflexivity | lra | lra].
  - intros Hcase. unfold activation_function.
    destruct (Req_dec_T k_d 0) as [-> | Hkd0].
    + (* k_d = 0: then x > 0 *)
      destruct Hcase as [Hxp | Hne]; [| exfalso; apply Hne; ring].
      exists h. num_crush. split; [f_equal; ring | lra].
    + destruct (Req_dec_T v 0) as [-> | Hv0].
      * destruct Hcase as [Hxp | Hne]; [| exfalso; apply Hne; ring].
        assert (- x / k_d < 0)%R.
        { unfold Rdiv. apply Rmult_neg_pos; [lra |].
          apply Rinv_0_lt_compat. lra. }
        exists h. num_crush. split; [f_equal; ring | lra].
      * assert (Hle : (- x / k_d / v <= 0)%R).
        { unfold Rdiv. rewrite Rmult_assoc.
          assert (0 < / k_d * / v)%R.
          { apply Rmult_lt_0_compat; apply Rinv_0_lt_compat; lra. }
          nra. }
        pose proof (exp_pos (- x / k_d / v)) as Hp.
        pose proof (exp_le_1 _ Hle) as H1.
        exists (h * (1 - b * exp (- x / k_d / v)))%R.
        assert (Hbe : (b * exp (- x / k_d / v) <= 1)%R).
        { destruct Hb as [Hb0 Hb1].
          apply Rle_trans with (1 * 1)%R; [| lra].
          apply Rmult_le_compat; lra. }
        num_crush. split; [reflexivity |].
        apply Rmult_le_pos; lra.
  - intros -> Hz. unfold activation_function.
    destruct (Req_dec_T k_d 0) as [-> | Hkd0].
    + num_crush.
    + assert (v = 0%R) as ->.
      { destruct (Rmult_integral _ _ Hz); [contradiction | assumption]. }
      assert (- 0 / k_d = 0)%R by (unfold Rdiv; ring).
      num_crush.
Qed.

Lemma kinetics_zero_safety_witness :
  (exists r, michaelian_kinetics (Fin 0) (Fin 5) (Fin 2) (Fin 1) (Fin 1) (Fin 1)
             = Fin r /\ (0 <= r)%R /\ (0%R = 0%R -> r = 0%R))
  /\ (exists r, activation_function (Fin 3) (Fin 2) (Fin 1) (Fin 1) (Fin 1) = Fin r
                /\ (0 <= r)%R).
Proof.
  pose proof (kinetics_zero_safety 0 5 2 1 1 1 3 2 1) as H.
  destruct H as (Hm & _ & Ha & _); try lra.
  split; [apply Hm; lra | apply Ha; left; lra].
Defined.


(** *** [iron_tf_reaction] *)

Ltac len_solve :=
  repeat (rewrite length_map || rewrite length_zip_with || rewrite length_fmap
          || rewrite length_replicate);
  lia.

Lemma bcast_same_length f (a b : list num) :
  length a = length b -> bcast f a b = Some (zip_with f a b).
Proof. intros H. unfold bcast. now rewrite decide_True. Qed.

Lemma bcast_singleton_l f (a : num) (b : list num) :
  bcast f [a] b = Some (zip_with f (replicate (length b) a) b).
Proof.
  unfold bcast. simpl. case_decide as H.
  - destruct b as [| b0 [| b1 b]]; simpl in *; try discriminate. reflexivity.
  - f_equal. clear H. induction b as [| b0 b IH]; simpl; [reflexivity | now f_equal].
Qed.

Lemma mask_assign_same_length (a : list num) (m : list bool) (v : num) :
  length m = length a ->
  mask_assign a m v = Some (zip_with (fun x (b : bool) => if b then v else x) a m).
Proof. intros H. unfold mask_assign. now rewrite decide_True. Qed.

(** The result, entry by entry. *)
Lemma iron_tf_reaction_entries (iron : operand) (tf tf_fe : list num) (p1 p2 p3 : num) :
  length tf = length tf_fe ->
  length (operand_entries (length tf) iron) = length tf ->
  iron_tf_reaction iron tf tf_fe p1 p2 p3
  = Some (zip_with (fun i '(a, b) => iron_tf_entry p1 p2 p3 i a b)
            (operand_entries (length tf) iron) (zip tf tf_fe)).
Proof.
  intros Hlen Hi. unfold iron_tf_reaction.
  rewrite (bcast_same_length add tf tf_fe Hlen). simpl.
  assert (Hti : bcast add match iron with Scalar a => [a] | Array l => l end tf_fe
                = Some (zip_with add (operand_entries (length tf) iron) tf_fe)).
  { destruct iron as [a | l]; simpl in *.
    - rewrite bcast_singleton_l. now rewrite Hlen.
    - apply bcast_same_length. congruence. }
  rewrite Hti. simpl. clear Hti.
  set (ir := operand_entries (length tf) iron) in *.
  rewrite bcast_same_length by len_solve.
  simpl.
  rewrite mask_assign_same_length by len_solve.
  simpl.
  rewrite mask_assign_same_length by len_solve.
  simpl.
  rewrite mask_assign_same_length by len_solve.
  simpl. f_equal.
  clearbody ir. clear iron.
  revert tf tf_fe Hlen Hi.
  induction ir as [| i ir IH]; intros [| a tf] [| b tf_fe] Hlen Hi;
    simpl in *; try discriminate; try reflexivity.
  f_equal. apply IH; congruence.
Qed.

(** A finite entry is never negative, and is zero where there is no
    binding site. *)
Lemma iron_tf_entry_bounds (p1 p2 p3 iron tf tf_fe : R) :
  exists r, iron_tf_entry (Fin p1) (Fin p2) (Fin p3) (Fin iron) (Fin tf) (Fin tf_fe) = Fin r
            /\ (0 <= r)%R
            /\ ((2 * (tf + tf_fe))%R = 0%R -> r = 0%R).
Proof.
  unfold iron_tf_entry, EPSILON.
  pose proof EPSILON_pos as He. set (eps := (/ 10 ^ 50)%R) in *. clearbody eps.
  rewrite !add_Fin, !mul_Fin, !add_Fin.
  rewrite eqb_zero_Fin.
  destruct (bool_decide_reflect (2 * (tf + tf_fe) = 0)%R) as [Hz | Hz].
  - exists 0%R. repeat split; lra.
  - rewrite eqb_zero_Fin.
    destruct (bool_decide_reflect (iron + tf_fe = 0)%R) as [Hi | Hi].
    + exists 0%R. repeat split; lra.
    + destruct (div (Fin (iron + tf_fe)) (Fin (2 * (tf + tf_fe) + eps))) as [q | | |] eqn:Hq.
      * (* a finite quotient *)
        assert (Hc : exists c, maximum (minimum (Fin q) one) zero = Fin c).
        { num_crush; eexists; reflexivity. }
        destruct Hc as [c ->]. rewrite !mul_Fin, !add_Fin, !mul_Fin.
        set (poly := (((p1 * c + p2) * c + p3) * c)%R).
        destruct (Rlt_dec 0 poly) as [Hp | Hp].
        -- exists poly. split; [| split; [lra | intros; contradiction]].
           subst poly. num_crush.
        -- exists 0%R. split; [| split; [lra | intros; contradiction]].
           subst poly. num_crush.
      * (* +inf is clipped to 1 *)
        replace (maximum (minimum PInf one) zero) with (Fin 1) by num_crush.
        rewrite !mul_Fin, !add_Fin, !mul_Fin.
        set (poly := (((p1 * 1 + p2) * 1 + p3) * 1)%R).
        destruct (Rlt_dec 0 poly) as [Hp | Hp].
        -- exists poly. split; [| split; [lra | intros; contradiction]].
           subst poly. num_crush.
        -- exists 0%R. split; [| split; [lra | intros; contradiction]].
           subst poly. num_crush.
      * (* -inf is clipped to 0 *)
        replace (maximum (minimum NInf one) zero) with (Fin 0) by num_crush.
        rewrite !mul_Fin, !add_Fin, !mul_Fin.
        exists 0%R. split; [| split; [lra | intros; contradiction]].
        num_crush.
      * (* 0/0 needs a zero numerator *)
        exfalso. revert Hq. simpl.
        destruct (bool_decide_reflect (2 * (tf + tf_fe) + eps = 0)%R); [| discriminate].
        unfold sign_of.
        destruct (bool_decide_reflect (0 < iron + tf_fe)%R); [simpl; discriminate |].
        destruct (bool_decide_reflect (iron + tf_fe < 0)%R); [simpl; discriminate |].
        lra.
Qed.


(** C7, as the code has it: for finite arguments ([iron] a scalar or an
    array of the shape of [tf] and [tf_fe]) the call returns, every entry of
    the result is finite and [>= 0], and the entry is [0] wherever the total
    binding sites [2*(tf + tf_fe)] are zero.  The clamp to [[0, 1]] is
    applied to the relative total iron, not to the value returned, which has
    no upper bound of its own. *)
Theorem iron_tf_reaction_bounds (iron : operand) (tf tf_fe : list num) (p1 p2 p3 : R) :
  length tf = length tf_fe ->
  all_finite tf -> all_finite tf_fe ->
  operand_fits (length tf) iron ->
  exists res,
    iron_tf_reaction iron tf tf_fe (Fin p1) (Fin p2) (Fin p3) = Some res
    /\ length res = length tf
    /\ forall i a b v,
         tf !! i = Some a -> tf_fe !! i = Some b -> res !! i = Some v ->
         nonneg v /\ is_finite v = true
         /\ (eqb (mul (Fin 2) (add a b)) zero = true -> v = zero).
Proof.
  intros Hlen Htf Htffe [Hil Hif].
  rewrite (iron_tf_reaction_entries iron tf tf_fe _ _ _ Hlen Hil).
  eexists. split; [reflexivity |]. split.
  { rewrite length_zip_with, length_zip. lia. }
  intros i a b v Ha Hb Hv.
  apply lookup_zip_with_Some in Hv as (x & [a' b'] & -> & Hx & Hab).
  apply lookup_zip_with_Some in Hab as (a'' & b'' & Heq & Ha' & Hb').
  injection Heq as -> ->.
  rewrite Ha in Ha'. rewrite Hb in Hb'. injection Ha' as <-. injection Hb' as <-.
  unfold all_finite in *. rewrite Forall_lookup in Htf, Htffe, Hif.
  specialize (Htf _ _ Ha). specialize (Htffe _ _ Hb). specialize (Hif _ _ Hx).
  destruct a as [ra | | |], b as [rb | | |], x as [rx | | |]; try discriminate.
  destruct (iron_tf_entry_bounds p1 p2 p3 rx ra rb) as (r & -> & Hr & Hz).
  split; [now apply nonneg_Fin |]. split; [reflexivity |].
  rewrite add_Fin, mul_Fin, eqb_zero_Fin. intros Ht.
  apply bool_decide_eq_true_1 in Ht. unfold zero. f_equal. auto.
Qed.

Lemma iron_tf_reaction_bounds_witness :
  exists res,
    iron_tf_reaction (Scalar (Fin 1)) [Fin 0; Fin 2] [Fin 0; Fin 1]
                     (Fin 1) (Fin 1) (Fin 1) = Some res
    /\ length res = 2%nat
    /\ forall i a b v,
         [Fin 0; Fin 2] !! i = Some a -> [Fin 0; Fin 1] !! i = Some b ->
         res !! i = Some v ->
         nonneg v /\ is_finite v = true
         /\ (eqb (mul (Fin 2) (add a b)) zero = true -> v = zero).
Proof.
  apply (iron_tf_reaction_bounds (Scalar (Fin 1)) [Fin 0; Fin 2] [Fin 0; Fin 1] 1 1 1).
  - reflexivity.
  - repeat constructor.
  - repeat constructor.
  - split; [reflexivity | repeat constructor].
Defined.

(** C7 fails as stated: the value returned can exceed [1].  With
    [p1 = p2 = 0] and [p3 = 5], iron 10 and one free transferrin, the
    relative total iron is clamped to [1] and the result is [5]. *)
Lemma iron_tf_reaction_above_one :
  exists v,
    iron_tf_reaction (Scalar (Fin 10)) [Fin 1] [Fin 0] (Fin 0) (Fin 0) (Fin 5) = Some [v]
    /\ leb v one = false.
Proof.
  exists (Fin 5).
  rewrite iron_tf_reaction_entries by reflexivity. simpl.
  assert (He : iron_tf_entry (Fin 0) (Fin 0) (Fin 5) (Fin 10) (Fin 1) (Fin 0) = Fin 5).
  { unfold iron_tf_entry, EPSILON.
    pose proof EPSILON_pos as Hp. pose proof EPSILON_lt_1 as Hl.
    set (eps := (/ 10 ^ 50)%R) in *. clearbody eps.
    rewrite !add_Fin, !mul_Fin, !add_Fin, !eqb_zero_Fin.
    rewrite !bool_decide_eq_false_2 by lra.
    rewrite div_Fin by lra.
    assert (Hq : (1 < (10 + 0) / (2 * (1 + 0) + eps))%R).
    { apply Rmult_lt_reg_r with (2 * (1 + 0) + eps)%R; [lra |].
      unfold Rdiv. rewrite Rmult_assoc, Rinv_l by lra. lra. }
    set (q := ((10 + 0) / (2 * (1 + 0) + eps))%R) in *. clearbody q.
    replace (maximum (minimum (Fin q) one) zero) with (Fin 1) by num_crush.
    rewrite !mul_Fin, !add_Fin, !mul_Fin.
    num_crush. f_equal. lra. }
  rewrite He. split; [reflexivity |]. num_crush.
Qed.

End UtilFacts.

(** ** Crank-Nicholson operators *)

Module OperatorFacts.

Import Diffusion.

(** [diffusivity * dt / 2.0] and [0.5 * dt * diffusivity] are the same
    number. *)
Lemma half_step_scalar (diffusivity dt : num) :
  div (mul diffusivity dt) (Fin 2) = mul (mul (Fin (1 / 2)) dt) diffusivity.
Proof.
  destruct diffusivity as [d | | |], dt as [t | | |]; num_crush;
    try (f_equal; lra).
Qed.

Lemma mshape_mscale (s : num) (m : mat) : mshape (mscale s m) = mshape m.
Proof.
  unfold mshape, mscale. rewrite length_map.
  destruct m as [| r m]; simpl; [reflexivity |]. now rewrite length_map.
Qed.

Lemma mshape_eye (r c : nat) : (r = 0%nat -> c = 0%nat) -> mshape (eye r c) = (r, c).
Proof.
  intros H. unfold mshape, eye. rewrite length_map, length_seq.
  destruct r as [| r]; simpl.
  - now rewrite H.
  - now rewrite length_map, length_seq.
Qed.

Lemma mshape_eye_like (m : mat) : mshape (eye (mshape m).1 (mshape m).2) = mshape m.
Proof.
  rewrite mshape_eye; [now destruct (mshape m) |].
  unfold mshape. simpl. destruct m; [reflexivity | discriminate].
Qed.

(** C2, as the code has it: for a square Laplacian both builders succeed,
    and [assemble_mesh_laplacian_crank_nicholson] returns the operators of
    the one-shot apply with their roles exchanged: its [A] is the one-shot
    [B = I + (D*dt/2) L] and its [B] is the one-shot [A = I - (D*dt/2) L]. *)
Theorem assemble_is_grid_operators_swapped (laplacian : mat) (diffusivity dt : num) :
  (mshape laplacian).1 = (mshape laplacian).2 ->
  exists a b,
    grid_operators laplacian diffusivity dt = Some (a, b)
    /\ assemble_mesh_laplacian_crank_nicholson laplacian diffusivity dt = Some (b, a)
    /\ a = zip_with (zip_with sub)
             (eye (mshape laplacian).1 (mshape laplacian).2)
             (mscale (div (mul diffusivity dt) (Fin 2)) laplacian)
    /\ b = zip_with (zip_with add)
             (eye (mshape laplacian).1 (mshape laplacian).2)
             (mscale (div (mul diffusivity dt) (Fin 2)) laplacian).
Proof.
  intros Hsq.
  unfold grid_operators, assemble_mesh_laplacian_crank_nicholson, identity.
  rewrite <- half_step_scalar.
  set (s := div (mul diffusivity dt) (Fin 2)).
  pose proof (mshape_eye_like laplacian) as He.
  destruct (mshape laplacian) as [r c] eqn:Hs. simpl in *. subst c.
  unfold mzip. rewrite !mshape_mscale, Hs, He.
  rewrite !decide_True by reflexivity. simpl.
  eexists _, _. repeat split; reflexivity.
Qed.

Lemma assemble_is_grid_operators_swapped_witness :
  exists a b,
    grid_operators [[Fin 1]] (Fin 1) (Fin 2) = Some (a, b)
    /\ assemble_mesh_laplacian_crank_nicholson [[Fin 1]] (Fin 1) (Fin 2) = Some (b, a)
    /\ a = zip_with (zip_with sub) (eye 1 1) (mscale (div (mul (Fin 1) (Fin 2)) (Fin 2)) [[Fin 1]])
    /\ b = zip_with (zip_with add) (eye 1 1) (mscale (div (mul (Fin 1) (Fin 2)) (Fin 2)) [[Fin 1]]).
Proof.
  apply (assemble_is_grid_operators_swapped [[Fin 1]] (Fin 1) (Fin 2)).
  reflexivity.
Defined.

(** C2 fails as stated: on the one-by-one Laplacian [[1]] with [D = 1] and
    [dt = 2] the one-shot apply builds [A = [[0]]], [B = [[2]]] and the
    assembler returns [A = [[2]]], [B = [[0]]]. *)
Lemma assemble_differs_from_grid_operators :
  grid_operators [[Fin 1]] (Fin 1) (Fin 2) = Some ([[Fin 0]], [[Fin 2]])
  /\ assemble_mesh_laplacian_crank_nicholson [[Fin 1]] (Fin 1) (Fin 2)
     = Some ([[Fin 2]], [[Fin 0]])
  /\ [[Fin 0]] <> [[Fin 2]].
Proof.
  assert (H2 : (2 <> 0)%R) by lra.
  repeat split.
  - unfold grid_operators, mzip. simpl.
    rewrite bool_decide_eq_false_2 by lra. unfold sub. simpl.
    do 4 f_equal; f_equal; field.
  - unfold assemble_mesh_laplacian_crank_nicholson, mzip. simpl.
    unfold sub. simpl. do 4 f_equal; f_equal; field.
  - intros H. injection H as H. lra.
Qed.

End OperatorFacts.

(** ** The diffusion integrators *)

Module IntegratorFacts.

Import Diffusion Scenarios.

Section WithSolver.

Variable cg : mat -> vec -> option vec -> num -> vec * Z.

(** Clipping changes nothing where no entry is negative. *)
Lemma clip_no_negative (result : vec) :
  existsb (fun r => ltb r zero) result = false ->
  map (fun r => clip r zero PInf) result = result.
Proof.
  induction result as [| r result IH]; simpl; [reflexivity |].
  intros H. apply orb_false_iff in H as [Hr Hrest].
  rewrite IH by exact Hrest. f_equal.
  destruct r; num_crush.
Qed.

(** What the mesh step does once the solver has answered. *)
Lemma mesh_step_returns (variable : loc) (cn_a cn_b : mat) (tolerance : num)
    (s : state) (v rhs result : vec) (info : Z) :
  heap s !! variable = Some v ->
  matvec cn_b v = Some rhs ->
  cg cn_a rhs (Some v) tolerance = (result, info) ->
  length result = length v ->
  exists s',
    apply_mesh_diffusion_crank_nicholson cg variable cn_a cn_b tolerance s
    = (Returned tt, s')
    /\ heap s' = <[variable := map (fun r => clip r zero PInf) result]> (heap s)
    /\ ((0 < info)%Z -> Warning_cg_not_converged info ∈ log s')
    /\ ((info < 0)%Z -> Error_cg_breakdown ∈ log s').
Proof.
  intros Hv Hrhs Hcg Hlen.
  unfold apply_mesh_diffusion_crank_nicholson, copyto,
    Py.bind, read, lift, ret, raise, logger, write.
  rewrite Hv, Hrhs, Hcg.
  set (clipped := map (fun r => clip r zero PInf) result).
  assert (Hwritten : (if existsb (fun r => ltb r zero) result then clipped else result)
                     = clipped).
  { subst clipped. destruct (existsb _ result) eqn:He; [reflexivity |].
    symmetry. now apply clip_no_negative. }
  assert (Hclen : length clipped = length v).
  { subst clipped. now rewrite length_map. }
  destruct (info =? 0)%Z eqn:H0; [| destruct (0 <? info)%Z eqn:Hpos];
    destruct (existsb (fun r => ltb r zero) result) eqn:Hneg; simpl;
    rewrite Hv; simpl; rewrite <- ?Hwritten;
    rewrite decide_True by congruence;
    (eexists; split; [reflexivity |]; simpl; split; [reflexivity |]);
    split; intros Hi; try lia;
    rewrite ?elem_of_app, ?list_elem_of_singleton; auto.
Qed.

(** What the grid apply does once the solver has answered. *)
Lemma grid_apply_raises (variable : loc) (laplacian a b : mat)
    (diffusivity dt tolerance : num) (s : state) (v rhs var_next : vec) (info : Z) :
  heap s !! variable = Some v ->
  grid_operators laplacian diffusivity dt = Some (a, b) ->
  matvec b v = Some rhs ->
  cg a rhs None tolerance = (var_next, info) ->
  info <> 0%Z ->
  apply_grid_diffusion cg variable laplacian diffusivity dt tolerance s
  = (Raised (if (0 <? info)%Z then CGFailedIterations info else CGFailed info), s).
Proof.
  intros Hv Hops Hrhs Hcg Hinfo.
  unfold apply_grid_diffusion, Py.bind, lift, read, ret, raise.
  rewrite Hops. simpl. rewrite Hv, Hrhs, Hcg.
  destruct (0 <? info)%Z eqn:Hpos; [reflexivity |].
  destruct (info <? 0)%Z eqn:Hneg; [reflexivity |]. lia.
Qed.

(** The grid apply leaves the heap as it found it, except for the array it
    allocates for its result. *)
Lemma grid_apply_frame (variable : loc) (laplacian : mat)
    (diffusivity dt tolerance : num) (s : state) :
  let '(out, s') :=
    apply_grid_diffusion cg variable laplacian diffusivity dt tolerance s in
  log s' = log s
  /\ match out with
     | Returned l =>
         heap s !! l = None
         /\ exists r, heap s' = <[l := r]> (heap s) /\ Forall (fun x => ltb x zero = false) r
     | Raised _ => heap s' = heap s
     end.
Proof.
  unfold apply_grid_diffusion, Py.bind, lift, read, ret, raise.
  destruct (grid_operators laplacian diffusivity dt) as [[a b] |]; simpl; [| auto].
  destruct (heap s !! variable) as [v |] eqn:Hv; [| auto].
  destruct (matvec b v) as [rhs |]; simpl; [| auto].
  destruct (cg a rhs None tolerance) as [var_next info].
  destruct (0 <? info)%Z; [auto |].
  destruct (info <? 0)%Z; [auto |].
  case_decide; [| auto].
  unfold alloc. simpl. split; [reflexivity |]. split.
  - apply not_elem_of_dom. unfold fresh_loc. apply is_fresh.
  - eexists. split; [reflexivity |].
    apply Forall_forall. intros x Hx.
    rewrite map_is_fmap in Hx. apply list_elem_of_fmap in Hx as (y & -> & _).
    destruct y; num_crush.
Qed.


(** The mesh step writes in place: when it returns, the heap differs from
    the one it found only at [variable], and nothing was allocated. *)
Lemma mesh_step_frame (variable : loc) (cn_a cn_b : mat) (tolerance : num) (s : state) :
  let '(out, s') :=
    apply_mesh_diffusion_crank_nicholson cg variable cn_a cn_b tolerance s in
  match out with
  | Returned _ =>
      exists v r, heap s !! variable = Some v
                  /\ heap s' = <[variable := r]> (heap s)
                  /\ length r = length v
  | Raised _ => heap s' = heap s
  end.
Proof.
  unfold apply_mesh_diffusion_crank_nicholson, copyto,
    Py.bind, read, lift, ret, raise, logger, write.
  destruct (heap s !! variable) as [v |] eqn:Hv; [| reflexivity].
  destruct (matvec cn_b v) as [rhs |]; [| reflexivity].
  destruct (cg cn_a rhs (Some v) tolerance) as [result info].
  destruct (info =? 0)%Z; [| destruct (0 <? info)%Z];
    destruct (existsb (fun r => ltb r zero) result); simpl; rewrite Hv; simpl;
    repeat case_decide; simpl; try reflexivity;
    exists v; eexists; (split; [reflexivity |]); (split; [reflexivity |]);
    rewrite ?length_replicate; congruence.
Qed.

(** C1, as the code has it.  The mesh step recovers from both solver
    signals: it returns, the variable holds the solver's iterate clipped at
    zero, and the log has a warning for a positive [info] and an error for
    a negative one.  The one-shot grid apply does not recover: on either
    signal it raises and leaves the state as it was. *)
Theorem cg_signal_handling (variable : loc) (laplacian cn_a cn_b a b : mat)
    (diffusivity dt tolerance : num) (s : state)
    (v rhs_mesh result rhs_grid var_next : vec) (info_mesh info_grid : Z) :
  heap s !! variable = Some v ->
  matvec cn_b v = Some rhs_mesh ->
  cg cn_a rhs_mesh (Some v) tolerance = (result, info_mesh) ->
  length result = length v ->
  grid_operators laplacian diffusivity dt = Some (a, b) ->
  matvec b v = Some rhs_grid ->
  cg a rhs_grid None tolerance = (var_next, info_grid) ->
  info_grid <> 0%Z ->
  (exists s',
     apply_mesh_diffusion_crank_nicholson cg variable cn_a cn_b tolerance s
     = (Returned tt, s')
     /\ heap s' = <[variable := map (fun r => clip r zero PInf) result]> (heap s)
     /\ ((0 < info_mesh)%Z -> Warning_cg_not_converged info_mesh ∈ log s')
     /\ ((info_mesh < 0)%Z -> Error_cg_breakdown ∈ log s'))
  /\ apply_grid_diffusion cg variable laplacian diffusivity dt tolerance s
     = (Raised (if (0 <? info_grid)%Z then CGFailedIterations info_grid
                else CGFailed info_grid), s).
Proof.
  intros Hv Hm Hcm Hlen Hops Hg Hcg Hinfo. split.
  - eapply mesh_step_returns; eassumption.
  - eapply grid_apply_raises; eassumption.
Qed.

(** C10: the one-shot grid apply never writes to the array it is given.
    Whatever the outcome, the caller's variable holds what it held; a result
    is returned in a newly allocated array, at a location the heap did not
    use.  The mesh step, by contrast, allocates nothing and overwrites the
    variable it is given. *)
Theorem apply_grid_diffusion_does_not_mutate (variable : loc) (laplacian cn_a cn_b : mat)
    (diffusivity dt tolerance : num) (s : state) :
  (let '(out, s') :=
     apply_grid_diffusion cg variable laplacian diffusivity dt tolerance s in
   heap s' !! variable = heap s !! variable
   /\ forall l, out = Returned l ->
        l <> variable /\ heap s !! l = None /\ is_Some (heap s' !! l)
        /\ forall l', l' <> l -> heap s' !! l' = heap s !! l')
  /\ (let '(out, s') :=
        apply_mesh_diffusion_crank_nicholson cg variable cn_a cn_b tolerance s in
      out = Returned tt ->
      dom (heap s') = dom (heap s)
      /\ exists r, heap s' !! variable = Some r
                   /\ forall l', l' <> variable -> heap s' !! l' = heap s !! l').
Proof.
  split.
  - pose proof (grid_apply_frame variable laplacian diffusivity dt tolerance s) as H.
    assert (Hread : forall l s',
              apply_grid_diffusion cg variable laplacian diffusivity dt tolerance s
              = (Returned l, s') -> is_Some (heap s !! variable)).
    { intros l s'. unfold apply_grid_diffusion, Py.bind, lift, read, ret, raise.
      destruct (grid_operators laplacian diffusivity dt) as [[a b] |]; simpl;
        [| discriminate].
      destruct (heap s !! variable); [eauto | discriminate]. }
    destruct (apply_grid_diffusion cg variable laplacian diffusivity dt tolerance s)
      as [out s'] eqn:Hrun.
    destruct H as [_ H]. destruct out as [l | e].
    + destruct H as (Hfresh & r & Hheap & _).
      destruct (Hread l s' eq_refl) as [v Hv].
      assert (Hne : l <> variable) by congruence.
      split.
      * rewrite Hheap. now apply lookup_insert_ne.
      * intros l0 Hl0. injection Hl0 as <-. repeat split; try assumption.
        -- rewrite Hheap, lookup_insert_eq. eauto.
        -- intros l' Hl'. rewrite Hheap. apply lookup_insert_ne. congruence.
    + rewrite H. split; [reflexivity | discriminate].
  - pose proof (mesh_step_frame variable cn_a cn_b tolerance s) as H.
    destruct (apply_mesh_diffusion_crank_nicholson cg variable cn_a cn_b tolerance s)
      as [out s'].
    intros ->. destruct H as (v & r & Hv & Hheap & _). split.
    + rewrite Hheap, dom_insert_L.
      assert (Hin : variable ∈ dom (heap s)) by (apply elem_of_dom; eauto).
      apply subseteq_union_1_L. now apply singleton_subseteq_l.
    + exists r. rewrite Hheap. split; [apply lookup_insert_eq |].
      intros l' Hl'. apply lookup_insert_ne. congruence.
Qed.

End WithSolver.


Lemma cg_signal_handling_witness :
  (exists s',
     apply_mesh_diffusion_crank_nicholson cg_not_converged 0%nat [[Fin 1]] [[Fin 1]]
       (Fin (/ 10 ^ 10)) one_cell_state = (Returned tt, s')
     /\ heap s'
        = <[0%nat := map (fun r => clip r zero PInf) [sum (zip_with mul [Fin 1] [Fin 1])]]>
            (heap one_cell_state)
     /\ ((0 < 1)%Z -> Warning_cg_not_converged 1 ∈ log s')
     /\ ((1 < 0)%Z -> Error_cg_breakdown ∈ log s'))
  /\ apply_grid_diffusion cg_not_converged 0%nat [[Fin 0]] (Fin 1) (Fin 1)
       (Fin (/ 10 ^ 10)) one_cell_state
     = (Raised (CGFailedIterations 1), one_cell_state).
Proof.
  eapply (cg_signal_handling cg_not_converged 0%nat [[Fin 0]] [[Fin 1]] [[Fin 1]]
            _ _ (Fin 1) (Fin 1) (Fin (/ 10 ^ 10)) one_cell_state [Fin 1]
            _ _ _ _ 1%Z 1%Z).
  - reflexivity.
  - reflexivity.
  - reflexivity.
  - reflexivity.
  - reflexivity.
  - reflexivity.
  - reflexivity.
  - lia.
Defined.

(** C1 fails as stated for the one-shot grid apply: when the solver reports
    non-convergence the call raises an exception instead of returning the
    iterate. *)
Lemma grid_apply_raises_on_non_convergence :
  apply_grid_diffusion cg_not_converged 0%nat [[Fin 0]] (Fin 1) (Fin 1)
    (Fin (/ 10 ^ 10)) one_cell_state
  = (Raised (CGFailedIterations 1), one_cell_state).
Proof.
  eapply (grid_apply_raises cg_not_converged 0%nat [[Fin 0]] _ _ (Fin 1) (Fin 1)
            (Fin (/ 10 ^ 10)) one_cell_state [Fin 1] _ _ 1%Z);
    try reflexivity.
  lia.
Qed.

End IntegratorFacts.

(** ** The discrete Laplacians *)

Module LaplacianFacts.

Import Diffusion LaplacianSpec.

(** *** Indexing *)

Lemma norm_index_in_range (n : nat) (i : Z) :
  (0 <= i < Z.of_nat n)%Z -> norm_index n i = Some (Z.to_nat i).
Proof. intros H. unfold norm_index. now rewrite decide_True. Qed.

Lemma flat_index_bound (n0 n1 n2 k j i : nat) :
  (k < n0)%nat -> (j < n1)%nat -> (i < n2)%nat ->
  ((k * n1 + j) * n2 + i < n0 * n1 * n2)%nat.
Proof.
  intros Hk Hj Hi.
  assert (H1 : (k * n1 + j + 1 <= n0 * n1)%nat) by nia.
  assert (H2 : ((k * n1 + j + 1) * n2 <= n0 * n1 * n2)%nat)
    by (apply Nat.mul_le_mono_r; exact H1).
  nia.
Qed.

Lemma flat_index_inj (n1 n2 k j i k' j' i' : nat) :
  (j < n1)%nat -> (i < n2)%nat -> (j' < n1)%nat -> (i' < n2)%nat ->
  ((k * n1 + j) * n2 + i = (k' * n1 + j') * n2 + i')%nat ->
  k = k' /\ j = j' /\ i = i'.
Proof.
  intros Hj Hi Hj' Hi' H.
  assert (k * n1 + j = k' * n1 + j')%nat by nia.
  assert (k = k') by nia. subst. lia.
Qed.

(** A read inside the shape of a well-formed array succeeds. *)
Lemma get3_in_range {A} (a : Array3 A) (n0 n1 n2 : nat) (k j i : Z) :
  a3_shape a = (n0, n1, n2) -> a3_wf a ->
  (0 <= k < Z.of_nat n0)%Z -> (0 <= j < Z.of_nat n1)%Z -> (0 <= i < Z.of_nat n2)%Z ->
  get3 a k j i
  = a3_data a !! ((Z.to_nat k * n1 + Z.to_nat j) * n2 + Z.to_nat i)%nat
  /\ is_Some (get3 a k j i).
Proof.
  intros Hs Hwf Hk Hj Hi. unfold get3, a3_wf in *. rewrite Hs in *.
  rewrite !norm_index_in_range by assumption. simpl. split; [reflexivity |].
  apply lookup_lt_is_Some. rewrite Hwf. apply flat_index_bound; lia.
Qed.

(** The positions listed by [nonzero] are inside the array and hold [true]. *)
Lemma nonzero_spec (mask : Array3 bool) (n0 n1 n2 : nat) (k j i : Z) :
  a3_shape mask = (n0, n1, n2) ->
  (k, j, i) ∈ nonzero mask ->
  (0 <= k < Z.of_nat n0)%Z /\ (0 <= j < Z.of_nat n1)%Z /\ (0 <= i < Z.of_nat n2)%Z
  /\ get3 mask k j i = Some true.
Proof.
  intros Hs. unfold nonzero, get3. rewrite Hs.
  intros H.
  apply list_elem_of_bind in H as (k' & H & Hk).
  apply list_elem_of_bind in H as (j' & H & Hj).
  apply list_elem_of_bind in H as (i' & H & Hi).
  apply elem_of_seq in Hk, Hj, Hi.
  case_decide as Hm; [| now apply not_elem_of_nil in H].
  apply list_elem_of_singleton in H. injection H as -> -> ->.
  repeat split; try lia.
  rewrite !norm_index_in_range by lia. simpl. now rewrite !Nat2Z.id.
Qed.


(** *** Sums over positions *)

Lemma sum_over_ext (f g : nat -> R) (l : list nat) :
  (forall c, c ∈ l -> f c = g c) -> sum_over f l = sum_over g l.
Proof.
  induction l as [| c l IH]; intros H; simpl; [reflexivity |].
  rewrite (H c) by left. rewrite IH; [reflexivity |].
  intros c' Hc'. apply H. now right.
Qed.

(** Adding [d] at one position of a duplicate-free list of positions adds
    [d] to the sum. *)
Lemma sum_over_bump (f : nat -> R) (c0 : nat) (d : R) (l : list nat) :
  NoDup l -> c0 ∈ l ->
  sum_over (fun c => if decide (c = c0) then (f c + d)%R else f c) l
  = (sum_over f l + d)%R.
Proof.
  induction l as [| c l IH]; intros Hnd Hin; [now apply not_elem_of_nil in Hin |].
  apply NoDup_cons in Hnd as [Hc Hnd]. simpl.
  destruct (decide (c = c0)) as [-> | Hne].
  - rewrite (sum_over_ext _ f l); [lra |].
    intros c Hcl. rewrite decide_False; [reflexivity |]. congruence.
  - apply elem_of_cons in Hin as [-> | Hin]; [congruence |].
    rewrite IH by assumption. lra.
Qed.

Lemma sum_over_bump_seq (f : nat -> R) (c0 : nat) (d : R) (n : nat) :
  (c0 < n)%nat ->
  sum_over (fun c => if decide (c = c0) then (f c + d)%R else f c) (seq 0 n)
  = (sum_over f (seq 0 n) + d)%R.
Proof.
  intros H. apply sum_over_bump; [apply NoDup_seq |]. apply elem_of_seq. lia.
Qed.

(** *** Reads and writes of a [dok_matrix] *)

Section Dok.

Variable N : nat.

(** The rows that may hold entries. *)
Variable touched : nat -> Prop.

#[local] Abbreviation dok_ok := (LaplacianSpec.dok_ok N touched).
#[local] Abbreviation row_sum := (LaplacianSpec.row_sum N).

Lemma entry_finite (m : dok) (r c : nat) :
  dok_ok m -> exists x, entry m r c = Fin x.
Proof.
  intros [_ H]. unfold entry.
  destruct (dok_dict m !! (r, c)) as [v |] eqn:Hv; simpl.
  - destruct (H _ _ _ Hv) as [Hf _]. destruct v; try discriminate. eauto.
  - eexists. reflexivity.
Qed.

(** [m[r0, c0] += d], as a read followed by a write. *)
Lemma dok_bump (m : dok) (r0 c0 : Z) (d : R) :
  dok_ok m -> (0 <= r0 < Z.of_nat N)%Z -> (0 <= c0 < Z.of_nat N)%Z ->
  touched (Z.to_nat r0) ->
  exists o m',
    dok_get m r0 c0 = Some o
    /\ dok_set m r0 c0 (add o (Fin d)) = Some m'
    /\ dok_ok m'
    /\ forall r, row_sum m' r
                 = (row_sum m r + if decide (r = Z.to_nat r0) then d else 0)%R.
Proof.
  intros Hok Hr Hc Ht. pose proof Hok as [Hs Hfin].
  unfold dok_get, dok_set. rewrite Hs. simpl.
  rewrite !norm_index_in_range by assumption. simpl.
  set (r0' := Z.to_nat r0). set (c0' := Z.to_nat c0).
  destruct (entry_finite m r0' c0' Hok) as [x Hx].
  exists (Fin x). eexists.
  split; [unfold entry in Hx; now rewrite Hx |].
  rewrite add_Fin. split; [reflexivity |].
  assert (Hentry : forall r c,
            entry (mkDok (N, N)
                     (if eqb (Fin (x + d)) zero then delete (r0', c0') (dok_dict m)
                      else <[(r0', c0') := Fin (x + d)]> (dok_dict m))) r c
            = if decide ((r, c) = (r0', c0')) then Fin (x + d) else entry m r c).
  { intros r c. unfold entry. cbn [dok_dict]. rewrite eqb_zero_Fin.
    destruct (bool_decide_reflect (x + d = 0)%R) as [Hz | Hz].
    - destruct (decide ((r, c) = (r0', c0'))) as [-> | Hne].
      + rewrite lookup_delete_eq. simpl. unfold zero. now rewrite Hz.
      + now rewrite lookup_delete_ne by congruence.
    - destruct (decide ((r, c) = (r0', c0'))) as [-> | Hne].
      + now rewrite lookup_insert_eq.
      + now rewrite lookup_insert_ne by congruence. }
  split.
  - split; [reflexivity |]. intros r c v. cbn [dok_dict].
    rewrite eqb_zero_Fin.
    destruct (bool_decide (x + d = 0)%R).
    + intros Hv. apply lookup_delete_Some in Hv as [_ Hv]. eauto.
    + intros Hv. apply lookup_insert_Some in Hv as [[Hk <-] | [_ Hv]]; [| eauto].
      injection Hk as <- <-. split; [reflexivity | exact Ht].
  - intros r. unfold row_sum.
    destruct (decide (r = r0')) as [-> | Hne].
    + rewrite <- (sum_over_bump_seq _ c0' d N) by (subst c0'; lia).
      apply sum_over_ext. intros c _. rewrite Hentry.
      destruct (decide (c = c0')) as [-> | Hc'].
      * rewrite decide_True by reflexivity. rewrite Hx. reflexivity.
      * rewrite decide_False by congruence. reflexivity.
    + rewrite Rplus_0_r. apply sum_over_ext. intros c _. rewrite Hentry.
      rewrite decide_False by congruence. reflexivity.
Qed.

(** An edge of weight [w] leaves every row sum as it was. *)
Lemma add_edge_ok (m : dok) (voxel_index neighbor_index : Z) (w : R) :
  dok_ok m ->
  (0 <= voxel_index < Z.of_nat N)%Z -> (0 <= neighbor_index < Z.of_nat N)%Z ->
  touched (Z.to_nat voxel_index) ->
  exists m',
    add_edge m voxel_index neighbor_index (Fin w) = Some m'
    /\ dok_ok m'
    /\ forall r, row_sum m' r = row_sum m r.
Proof.
  intros Hok Hv Hn Ht. unfold add_edge.
  destruct (dok_bump m voxel_index voxel_index (- w) Hok Hv Hv Ht)
    as (d & m1 & Hget1 & Hset1 & Hok1 & Hsum1).
  rewrite Hget1. simpl.
  replace (sub d (Fin w)) with (add d (Fin (- w))) by reflexivity.
  rewrite Hset1. simpl.
  destruct (dok_bump m1 voxel_index neighbor_index w Hok1 Hv Hn Ht)
    as (o & m2 & Hget2 & Hset2 & Hok2 & Hsum2).
  rewrite Hget2. simpl. rewrite Hset2.
  eexists. split; [reflexivity |]. split; [assumption |].
  intros r. rewrite Hsum2, Hsum1. destruct (decide _); lra.
Qed.

End Dok.


(** *** Loops *)

(** A loop whose body keeps an invariant runs to its end and keeps it. *)
Lemma foldM_invariant {A B} (I : B -> Prop) (f : B -> A -> option B) (l : list A) (b : B) :
  I b ->
  (forall b a, a ∈ l -> I b -> exists b', f b a = Some b' /\ I b') ->
  exists b', foldM f b l = Some b' /\ I b'.
Proof.
  revert b. induction l as [| a l IH]; intros b Hb Hstep; simpl.
  - eauto.
  - destruct (Hstep b a) as (b1 & -> & Hb1); [left | assumption |]. simpl.
    apply IH; [assumption |]. intros b2 a2 Ha2. apply Hstep. now right.
Qed.

(** *** Edge weights *)

Lemma face_offsets_cases (dk dj di : Z) :
  (dk, dj, di) ∈ face_offsets ->
  (dk, dj, di) = (-1, 0, 0)%Z \/ (dk, dj, di) = (1, 0, 0)%Z
  \/ (dk, dj, di) = (0, -1, 0)%Z \/ (dk, dj, di) = (0, 1, 0)%Z
  \/ (dk, dj, di) = (0, 0, -1)%Z \/ (dk, dj, di) = (0, 0, 1)%Z.
Proof.
  unfold face_offsets. rewrite !elem_of_cons. rewrite elem_of_nil. tauto.
Qed.

(** Along a face step, whichever way it is taken, the inverse squared
    distance is finite when no spacing is zero. *)
Lemma inverse_distance2_face (sx sy sz : R) (dk dj di : Z) (sgn : Z) :
  sx <> 0%R -> sy <> 0%R -> sz <> 0%R ->
  (dk, dj, di) ∈ face_offsets ->
  sgn = 1%Z \/ sgn = (-1)%Z ->
  exists w,
    inverse_distance2 (mul (Fin sx) (Fin (IZR (sgn * di))))
                      (mul (Fin sy) (Fin (IZR (sgn * dj))))
                      (mul (Fin sz) (Fin (IZR (sgn * dk))))
    = Fin w.
Proof.
  intros Hx Hy Hz Hoff Hsgn.
  pose proof (Rsqr_pos_lt sx Hx) as Hx2.
  pose proof (Rsqr_pos_lt sy Hy) as Hy2.
  pose proof (Rsqr_pos_lt sz Hz) as Hz2.
  unfold Rsqr in *.
  unfold inverse_distance2. rewrite !mul_Fin, !add_Fin.
  eexists. apply div_Fin.
  apply face_offsets_cases in Hoff.
  destruct Hsgn as [-> | ->];
    destruct Hoff as [H | [H | [H | [H | [H | H]]]]];
    injection H as -> -> ->;
    repeat match goal with
      | |- context [IZR (?a * ?b)] =>
          let v := eval cbv in (a * b)%Z in change (a * b)%Z with v
      end;
    nra.
Qed.

(** *** Voxels and their flattened index *)

Section OnGrid.

Variable grid : RectangularGrid.
Variables n0 n1 n2 : nat.
Hypothesis Hshape : shape grid = (n0, n1, n2).

Lemma extents : z_extent grid = n0 /\ y_extent grid = n1 /\ x_extent grid = n2.
Proof. unfold z_extent, y_extent, x_extent. now rewrite Hshape. Qed.

Lemma len_grid : len grid = (n0 * n1 * n2)%nat.
Proof. unfold len. destruct extents as (-> & -> & ->). reflexivity. Qed.

Lemma is_valid_voxel_spec (v : Voxel) :
  is_valid_voxel grid v = true
  <-> (0 <= vx v < Z.of_nat n2)%Z /\ (0 <= vy v < Z.of_nat n1)%Z
      /\ (0 <= vz v < Z.of_nat n0)%Z.
Proof.
  unfold is_valid_voxel. destruct extents as (-> & -> & ->).
  rewrite !andb_true_iff, !bool_decide_eq_true. tauto.
Qed.

Lemma flattened_index_spec (v : Voxel) :
  is_valid_voxel grid v = true ->
  (0 <= get_flattened_index grid v < Z.of_nat (len grid))%Z
  /\ Z.to_nat (get_flattened_index grid v)
     = ((Z.to_nat (vz v) * n1 + Z.to_nat (vy v)) * n2 + Z.to_nat (vx v))%nat.
Proof.
  intros Hv. apply is_valid_voxel_spec in Hv as (Hx & Hy & Hz).
  unfold get_flattened_index. destruct extents as (_ & -> & ->). rewrite len_grid.
  pose proof (flat_index_bound n0 n1 n2 (Z.to_nat (vz v)) (Z.to_nat (vy v))
                (Z.to_nat (vx v))) as Hb.
  assert (Heq : ((vz v * Z.of_nat n1 + vy v) * Z.of_nat n2 + vx v)%Z
                = Z.of_nat ((Z.to_nat (vz v) * n1 + Z.to_nat (vy v)) * n2
                            + Z.to_nat (vx v))%nat).
  { rewrite Nat2Z.inj_add, Nat2Z.inj_mul, Nat2Z.inj_add, Nat2Z.inj_mul.
    rewrite !Z2Nat.id by lia. reflexivity. }
  rewrite Heq. rewrite Nat2Z.id. split; [| reflexivity]. lia.
Qed.

(** Distinct voxels of the grid have distinct flattened indices. *)
Lemma flattened_index_inj (u v : Voxel) :
  is_valid_voxel grid u = true -> is_valid_voxel grid v = true ->
  Z.to_nat (get_flattened_index grid u) = Z.to_nat (get_flattened_index grid v) ->
  u = v.
Proof.
  intros Hu Hv Heq.
  destruct (flattened_index_spec u Hu) as [_ Eu].
  destruct (flattened_index_spec v Hv) as [_ Ev].
  rewrite Eu, Ev in Heq.
  apply is_valid_voxel_spec in Hu as (Hux & Huy & Huz).
  apply is_valid_voxel_spec in Hv as (Hvx & Hvy & Hvz).
  apply flat_index_inj in Heq as (Hk & Hj & Hi); try lia.
  destruct u, v; simpl in *. f_equal; lia.
Qed.

Lemma adjacent_voxel_spec (v n : Voxel) :
  n ∈ get_adjacent_voxels grid v ->
  is_valid_voxel grid n = true
  /\ exists dk dj di, (dk, dj, di) ∈ face_offsets
       /\ n = mkVoxel (vx v + di) (vy v + dj) (vz v + dk).
Proof.
  unfold get_adjacent_voxels. rewrite list_elem_of_filter, map_is_fmap.
  intros [Hvalid Hin]. split; [assumption |].
  apply list_elem_of_fmap in Hin as ([[dk dj] di] & -> & Hoff). eauto.
Qed.

End OnGrid.


(** *** Sums of finite lists *)

Lemma foldl_add_finite (l : list num) (a : R) :
  all_finite l -> foldl add (Fin a) l = Fin (a + total l).
Proof.
  revert a. induction l as [| x l IH]; intros a Hf; simpl.
  - f_equal. lra.
  - apply Forall_cons in Hf as [Hx Hl]. destruct x as [x | | |]; try discriminate.
    rewrite IH by assumption. f_equal. simpl. lra.
Qed.

Lemma sum_finite (l : list num) : all_finite l -> sum l = Fin (total l).
Proof.
  intros Hf. unfold sum, zero. rewrite foldl_add_finite by assumption.
  f_equal. lra.
Qed.

Lemma total_map (g : nat -> num) (l : list nat) :
  total (map g l) = sum_over (fun c => to_R (g c)) l.
Proof. induction l as [| c l IH]; simpl; [reflexivity | now rewrite IH]. Qed.

Lemma total_delete (l : list num) (i : nat) (x : num) :
  l !! i = Some x -> total l = (to_R x + total (delete i l))%R.
Proof.
  revert i. induction l as [| y l IH]; intros [| i] H; simpl in *; try discriminate.
  - injection H as ->. reflexivity.
  - rewrite (IH i H). lra.
Qed.

Lemma all_finite_delete (l : list num) (i : nat) :
  all_finite l -> all_finite (delete i l).
Proof.
  unfold all_finite. apply Forall_delete.
Qed.

Lemma map_const_replicate {A} (a : A) (l : list nat) :
  map (fun _ => a) l = replicate (length l) a.
Proof. induction l as [| c l IH]; simpl; [reflexivity | now rewrite IH]. Qed.


(** *** The two builders *)

Section Builders.

Variable grid : RectangularGrid.
Variable mask : Array3 bool.
Variables n0 n1 n2 : nat.
Hypothesis Hshape : shape grid = (n0, n1, n2).
Hypothesis Hspacing : spacing_ok grid.
Hypothesis Hmask : mask_fits grid mask.

#[local] Abbreviation masked_row := (LaplacianSpec.masked_row grid mask).
#[local] Abbreviation balanced := (LaplacianSpec.balanced grid mask).

Lemma masked_voxel (k j i : Z) :
  (k, j, i) ∈ nonzero mask ->
  is_valid_voxel grid (mkVoxel i j k) = true
  /\ (0 <= k < Z.of_nat n0)%Z /\ (0 <= j < Z.of_nat n1)%Z /\ (0 <= i < Z.of_nat n2)%Z
  /\ get3 mask k j i = Some true.
Proof.
  intros Hin. destruct Hmask as [Hms _]. rewrite Hshape in Hms.
  destruct (nonzero_spec mask n0 n1 n2 k j i Hms Hin) as (Hk & Hj & Hi & Hget).
  split; [| tauto]. apply (is_valid_voxel_spec grid n0 n1 n2 Hshape). simpl. tauto.
Qed.

Lemma mask_lookup (v : Voxel) :
  is_valid_voxel grid v = true -> is_Some (get3 mask (vz v) (vy v) (vx v)).
Proof.
  intros Hv. apply (is_valid_voxel_spec grid n0 n1 n2 Hshape) in Hv as (Hx & Hy & Hz).
  destruct Hmask as [Hms Hwf]. rewrite Hshape in Hms.
  now apply (get3_in_range mask n0 n1 n2).
Qed.

Lemma delta_lookup (axis : nat) (k j i : Z) :
  (axis < 3)%nat ->
  (0 <= k < Z.of_nat n0)%Z -> (0 <= j < Z.of_nat n1)%Z -> (0 <= i < Z.of_nat n2)%Z ->
  exists r, get3 (delta grid axis) k j i = Some (Fin r) /\ r <> 0%R.
Proof.
  intros Hax Hk Hj Hi. destruct (Hspacing axis Hax) as (Hs & Hwf & Hall).
  rewrite Hshape in Hs.
  destruct (get3_in_range (delta grid axis) n0 n1 n2 k j i Hs Hwf Hk Hj Hi)
    as [Heq [d Hd]].
  rewrite Hd. rewrite Heq in Hd.
  rewrite Forall_lookup in Hall. destruct (Hall _ _ Hd) as (r & -> & Hr). eauto.
Qed.

(** The part of a loop body that follows the mask test: read the three
    spacings and add the edge. *)
Lemma edge_step (k j i : Z) (neighbor : Voxel) (dk dj di sgn : Z) (m : dok) :
  (k, j, i) ∈ nonzero mask ->
  is_valid_voxel grid neighbor = true ->
  (dk, dj, di) ∈ face_offsets ->
  sgn = 1%Z \/ sgn = (-1)%Z ->
  balanced m ->
  exists m',
    (delta_x ← get3 (delta grid 2) k j i;
     delta_y ← get3 (delta grid 1) k j i;
     delta_z ← get3 (delta grid 0) k j i;
     add_edge m (get_flattened_index grid (mkVoxel i j k))
       (get_flattened_index grid neighbor)
       (inverse_distance2 (mul delta_x (Fin (IZR (sgn * di))))
                          (mul delta_y (Fin (IZR (sgn * dj))))
                          (mul delta_z (Fin (IZR (sgn * dk)))))) = Some m'
    /\ balanced m'.
Proof.
  intros Hin Hn Hoff Hsgn [Hok Hsum].
  destruct (masked_voxel k j i Hin) as (Hv & Hk & Hj & Hi & _).
  destruct (delta_lookup 2 k j i) as (sx & -> & Hsx); try lia.
  destruct (delta_lookup 1 k j i) as (sy & -> & Hsy); try lia.
  destruct (delta_lookup 0 k j i) as (sz & -> & Hsz); try lia.
  cbn -[inverse_distance2 mul add_edge get_flattened_index IZR Z.mul].
  destruct (inverse_distance2_face sx sy sz dk dj di sgn Hsx Hsy Hsz Hoff Hsgn)
    as [w ->].
  destruct (flattened_index_spec grid n0 n1 n2 Hshape _ Hv) as [Hvi _].
  destruct (flattened_index_spec grid n0 n1 n2 Hshape _ Hn) as [Hni _].
  destruct (add_edge_ok (len grid) masked_row m _ _ w Hok Hvi Hni)
    as (m' & Hedge & Hok' & Hsum').
  { exists k, j, i. split; [assumption | reflexivity]. }
  exists m'. split; [assumption |]. split; [assumption |].
  intros r. now rewrite Hsum'.
Qed.

Lemma laplacian_neighbor_ok (k j i : Z) (neighbor : Voxel) (m : dok) :
  (k, j, i) ∈ nonzero mask ->
  neighbor ∈ get_adjacent_voxels grid (mkVoxel i j k) ->
  balanced m ->
  exists m', laplacian_neighbor grid mask (k, j, i) m neighbor = Some m' /\ balanced m'.
Proof.
  intros Hin Hadj Hbal.
  apply adjacent_voxel_spec in Hadj as (Hn & dk & dj & di & Hoff & ->).
  unfold laplacian_neighbor. cbn [vx vy vz] in *.
  destruct (mask_lookup _ Hn) as [b Hb]. cbn [vx vy vz] in Hb. rewrite Hb. simpl.
  destruct b; simpl; [| eauto].
  replace (i - (i + di))%Z with (-1 * di)%Z by lia.
  replace (j - (j + dj))%Z with (-1 * dj)%Z by lia.
  replace (k - (k + dk))%Z with (-1 * dk)%Z by lia.
  exact (edge_step k j i _ dk dj di (-1) m Hin Hn Hoff (or_intror eq_refl) Hbal).
Qed.

Lemma periodic_neighbor_ok (k j i : Z) (offset : Z * Z * Z) (m : dok) :
  (k, j, i) ∈ nonzero mask ->
  offset ∈ face_offsets ->
  balanced m ->
  exists m', periodic_neighbor grid mask (k, j, i) m offset = Some m' /\ balanced m'.
Proof.
  intros Hin Hoff Hbal. destruct offset as [[dk dj] di].
  destruct (masked_voxel k j i Hin) as (_ & Hk & Hj & Hi & _).
  unfold periodic_neighbor.
  destruct (extents grid n0 n1 n2 Hshape) as (-> & -> & ->).
  set (neighbor := mkVoxel ((i + di) mod Z.of_nat n2) ((j + dj) mod Z.of_nat n1)
                           ((k + dk) mod Z.of_nat n0)).
  assert (Hn : is_valid_voxel grid neighbor = true).
  { apply (is_valid_voxel_spec grid n0 n1 n2 Hshape). subst neighbor. simpl.
    repeat split; apply Z.mod_pos_bound; lia. }
  destruct (mask_lookup _ Hn) as [b Hb]. rewrite Hb. simpl.
  destruct b; simpl; [| eauto].
  pose proof (edge_step k j i neighbor dk dj di 1 m Hin Hn Hoff
                (or_introl eq_refl) Hbal) as Hstep.
  rewrite !Z.mul_1_l in Hstep. exact Hstep.
Qed.

Lemma empty_balanced : balanced (dok_matrix (len grid, len grid)).
Proof.
  split; [split; [reflexivity |] |].
  - intros r c v H. simpl in H. now rewrite lookup_empty in H.
  - intros r. unfold row_sum.
    rewrite (sum_over_ext _ (fun _ => 0%R)).
    + induction (seq 0 (len grid)) as [| c l IH]; simpl; [reflexivity | lra].
    + intros c _. unfold entry. simpl. now rewrite lookup_empty.
Qed.

(** What a balanced matrix gives once converted. *)
Lemma tocsr_balanced (m : dok) :
  balanced m -> is_graph_laplacian grid mask (Some (tocsr m)).
Proof.
  intros [[Hs Hkeys] Hsum]. exists (tocsr m). split; [reflexivity |].
  unfold tocsr. rewrite Hs. cbn [fst snd].
  assert (Hrow : forall i row,
            map (fun r => map (fun c => default zero (dok_dict m !! (r, c)))
                              (seq 0 (len grid))) (seq 0 (len grid)) !! i = Some row ->
            (i < len grid)%nat /\ row = map (entry m i) (seq 0 (len grid))).
  { intros i row. rewrite map_is_fmap, list_lookup_fmap.
    destruct (seq 0 (len grid) !! i) as [r |] eqn:Hr; [| discriminate].
    apply lookup_seq in Hr as [-> Hlt]. simpl. intros H. injection H as <-.
    split; [assumption | reflexivity]. }
  split; [now rewrite length_map, length_seq |]. split.
  - intros i row Hi. apply Hrow in Hi as [Hlt ->].
    assert (Hfin : all_finite (map (entry m i) (seq 0 (len grid)))).
    { apply Forall_forall. intros x Hx. rewrite map_is_fmap in Hx.
      apply list_elem_of_fmap in Hx as (c & -> & _).
      destruct (entry_finite (len grid) masked_row m i c) as [y ->];
        [split; assumption | reflexivity]. }
    assert (Htot : total (map (entry m i) (seq 0 (len grid))) = 0%R).
    { rewrite total_map. apply Hsum. }
    split; [now rewrite length_map, length_seq |].
    split; [assumption |]. split.
    + rewrite sum_finite by assumption. unfold zero. now rewrite Htot.
    + assert (Hdiag : map (entry m i) (seq 0 (len grid)) !! i = Some (entry m i i)).
      { rewrite map_is_fmap, list_lookup_fmap, lookup_seq_lt by assumption.
        reflexivity. }
      rewrite Hdiag. f_equal.
      rewrite sum_finite by now apply all_finite_delete.
      rewrite (total_delete _ _ _ Hdiag) in Htot.
      destruct (entry_finite (len grid) masked_row m i i) as [y Hy];
        [split; assumption |].
      rewrite Hy in *. simpl in *. f_equal. lra.
  - intros v Hv Hfalse.
    set (r := Z.to_nat (get_flattened_index grid v)).
    destruct (flattened_index_spec grid n0 n1 n2 Hshape v Hv) as [Hr _].
    rewrite map_is_fmap, list_lookup_fmap, lookup_seq_lt by (subst r; lia).
    simpl. f_equal.
    transitivity (map (fun _ : nat => zero) (seq 0 (len grid)));
      [| now rewrite map_const_replicate, length_seq].
    apply map_ext. intros c.
    destruct (dok_dict m !! (r, c)) as [x |] eqn:Hx; [| reflexivity].
    exfalso. destruct (Hkeys _ _ _ Hx) as [_ (k & j & i & Hin & Heq)].
    destruct (masked_voxel k j i Hin) as (Hu & _ & _ & _ & Htrue).
    apply (flattened_index_inj grid n0 n1 n2 Hshape) in Heq; [| assumption ..].
    subst v. simpl in Hfalse. congruence.
Qed.

Lemma discrete_laplacian_ok :
  is_graph_laplacian grid mask (discrete_laplacian grid mask).
Proof.
  unfold discrete_laplacian.
  destruct (foldM_invariant balanced
              (fun laplacian '(k, j, i) =>
                 foldM (laplacian_neighbor grid mask (k, j, i)) laplacian
                       (get_adjacent_voxels grid (mkVoxel i j k)))
              (nonzero mask) (dok_matrix (len grid, len grid)) empty_balanced)
    as (m & -> & Hm).
  - intros m [[k j] i] Hin Hm.
    apply foldM_invariant; [assumption |].
    intros m' n Hn Hm'. now apply laplacian_neighbor_ok.
  - simpl. now apply tocsr_balanced.
Qed.

Lemma periodic_discrete_laplacian_ok :
  is_graph_laplacian grid mask (periodic_discrete_laplacian grid mask).
Proof.
  unfold periodic_discrete_laplacian.
  destruct (foldM_invariant balanced
              (fun laplacian '(k, j, i) =>
                 foldM (periodic_neighbor grid mask (k, j, i)) laplacian face_offsets)
              (nonzero mask) (dok_matrix (len grid, len grid)) empty_balanced)
    as (m & -> & Hm).
  - intros m [[k j] i] Hin Hm.
    apply foldM_invariant; [assumption |].
    intros m' n Hn Hm'. now apply periodic_neighbor_ok.
  - simpl. now apply tocsr_balanced.
Qed.

End Builders.

(** C4: for a grid whose spacings are finite and not zero, and a boolean
    mask of the shape of the grid, both builders return, and in the matrix
    returned every row sums to zero, its diagonal entry being minus the sum
    of its other entries; the row of a voxel outside the mask is zero
    throughout.  This holds for the absorbing builder and for the periodic
    one. *)
Theorem laplacian_rows_sum_to_zero (grid : RectangularGrid) (mask : Array3 bool) :
  spacing_ok grid -> mask_fits grid mask ->
  is_graph_laplacian grid mask (discrete_laplacian grid mask)
  /\ is_graph_laplacian grid mask (periodic_discrete_laplacian grid mask).
Proof.
  intros Hs Hm. destruct (shape grid) as [[n0 n1] n2] eqn:Hshape. split.
  - exact (discrete_laplacian_ok grid mask n0 n1 n2 Hshape Hs Hm).
  - exact (periodic_discrete_laplacian_ok grid mask n0 n1 n2 Hshape Hs Hm).
Qed.


Lemma laplacian_rows_sum_to_zero_witness :
  is_graph_laplacian Scenarios.two_voxel_grid Scenarios.two_voxel_mask
    (discrete_laplacian Scenarios.two_voxel_grid Scenarios.two_voxel_mask)
  /\ is_graph_laplacian Scenarios.two_voxel_grid Scenarios.two_voxel_mask
       (periodic_discrete_laplacian Scenarios.two_voxel_grid Scenarios.two_voxel_mask).
Proof.
  apply (laplacian_rows_sum_to_zero Scenarios.two_voxel_grid Scenarios.two_voxel_mask).
  - intros axis _. split; [reflexivity |]. split; [reflexivity |].
    assert (H1 : exists r, Fin 1 = Fin r /\ r <> 0%R)
      by (exists 1%R; split; [reflexivity | lra]).
    simpl. apply Forall_cons. split; [exact H1 |].
    apply Forall_cons. split; [exact H1 | apply Forall_nil_2].
  - split; reflexivity.
Defined.

End LaplacianFacts.

(** ** Evaluation on concrete inputs *)

(** Evaluate integer arithmetic under [IZR] and decide the comparisons of
    real constants met while evaluating. *)
Ltac eval_step :=
  match goal with
  | |- context [IZR ?z] =>
      lazymatch z with
      | Z0 => fail
      | Zpos _ => fail
      | Zneg _ => fail
      | _ => let v := eval cbv in z in progress change z with v
      end
  | |- context [bool_decide ?P] =>
      first [ rewrite (bool_decide_eq_true_2 P) by lra
            | rewrite (bool_decide_eq_false_2 P) by lra ]
  end.

Ltac evaluate := simpl; repeat (eval_step; simpl).

(** ** Non-negativity of concentrations *)

Module ConcentrationFacts.

Import Scenarios.

Lemma michaelian_kinetics_fifty :
  Util.michaelian_kinetics (Fin 1) (Fin 100) (Fin 1) (Fin (60 / 60))
    Util.michaelian_kinetics_k_cat_default (Fin 1) = Fin 50.
Proof.
  unfold Util.michaelian_kinetics, Util.michaelian_kinetics_k_cat_default, one.
  evaluate. f_equal. lra.
Qed.

Lemma michaelian_kinetics_no_substrate :
  Util.michaelian_kinetics (Fin 0) (Fin 100) (Fin 1) (Fin (60 / 60))
    Util.michaelian_kinetics_k_cat_default (Fin 1) = Fin 0.
Proof.
  unfold Util.michaelian_kinetics, Util.michaelian_kinetics_k_cat_default, one.
  evaluate. f_equal. lra.
Qed.

Lemma tafc_state_nonneg : TAFC.concentrations_nonneg tafc_state.
Proof.
  unfold TAFC.concentrations_nonneg, TAFC.grid_nonneg, tafc_state, one_voxel. simpl.
  repeat split; repeat constructor; apply nonneg_Fin; lra.
Qed.

(** One step of [TAFC.advance] from [tafc_state]: the rate of fifty is
    scaled by [maximum(100/50, 1) = 2], so a hundred units of iron are taken
    from the single unit of TfFe2. *)
Lemma tafc_advance_tafc_state :
  exists st',
    TAFC.advance (fun _ => NaN) (Fin 60) tafc_state = Some st'
    /\ a3_data (TAFC.TfFe2 (TAFC.transferrin_grid st')) = [Fin (-99)].
Proof.
  unfold TAFC.advance, tafc_state, one_voxel.
  unfold TAFC.transferrin_interaction, TAFC.model_michaelian_kinetics, TAFC.ew2.
  evaluate.
  rewrite !michaelian_kinetics_fifty, !michaelian_kinetics_no_substrate.
  evaluate.
  unfold TAFC.iron_interaction, TAFC.ew2. evaluate.
  unfold TAFC.degrade. cbn [TAFC.molecules_turnover_rate
    TAFC.molecules_rel_cyt_bind_unit_t TAFC.tafc_grid TAFC.TAFC TAFC.TAFCBI].
  rewrite UtilFacts.turnover_rate_special_case. simpl.
  eexists. split; [reflexivity |]. simpl. do 2 f_equal. lra.
Qed.

(** One call of [uptake_in_element] on [one_tetrahedron]: each point holds
    a quarter of the field, so an uptake of eight takes two from each. *)
Lemma uptake_one_tetrahedron :
  UtilMesh.uptake_in_element one_tetrahedron unit_point_field [0%Z] (Fin 8)
  = Some [Fin (-1); Fin (-1); Fin (-1); Fin (-1)].
Proof.
  unfold UtilMesh.uptake_in_element, one_tetrahedron, unit_point_field.
  evaluate. unfold UtilMesh.subtract_at.
  rewrite decide_True by (split; [reflexivity | repeat constructor]).
  evaluate. repeat f_equal; lra.
Qed.

(** C3 does not hold of the code.  From a state whose concentrations are
    all non-negative, one step of [TAFC.advance] leaves [-99] in the TfFe2
    field; and an uptake of eight from a tetrahedron whose four points hold
    one each leaves [-1] at every point. *)
Theorem concentrations_go_negative :
  (TAFC.concentrations_nonneg tafc_state
   /\ exists st',
        TAFC.advance (fun _ => NaN) (Fin 60) tafc_state = Some st'
        /\ a3_data (TAFC.TfFe2 (TAFC.transferrin_grid st')) = [Fin (-99)]
        /\ ~ TAFC.concentrations_nonneg st')
  /\ (Forall nonneg unit_point_field
      /\ exists field',
           UtilMesh.uptake_in_element one_tetrahedron unit_point_field [0%Z] (Fin 8)
           = Some field'
           /\ field' = [Fin (-1); Fin (-1); Fin (-1); Fin (-1)]
           /\ ~ Forall nonneg field').
Proof.
  assert (Hneg : forall r, (r < 0)%R -> ~ nonneg (Fin r)).
  { intros r Hr H. apply nonneg_Fin in H. lra. }
  split; [split; [exact tafc_state_nonneg |] | split].
  - destruct tafc_advance_tafc_state as (st' & Hrun & Hdata).
    exists st'. split; [assumption |]. split; [assumption |].
    intros (_ & _ & H & _). unfold TAFC.grid_nonneg in H. rewrite Hdata in H.
    apply Forall_cons in H as [H _]. apply (Hneg (-99)%R); [lra | exact H].
  - unfold unit_point_field. repeat constructor; apply nonneg_Fin; lra.
  - eexists. split; [apply uptake_one_tetrahedron |]. split; [reflexivity |].
    intros H. apply Forall_cons in H as [H _]. apply (Hneg (-1)%R); [lra | exact H].
Qed.

End ConcentrationFacts.

(** ** Chemotaxis *)

Module ChemotaxisFacts.

Import Simulation Scenarios.

(** With no weight anywhere a positive draw selects nothing. *)
Lemma select_from_zero_weights (prob c : R) (n i : nat) :
  (c < prob)%R -> (c <= 0)%R ->
  select_from (Fin prob) (Fin c) i (replicate n zero) = None.
Proof.
  revert c i. induction n as [| n IH]; intros c i Hc H0; simpl; [reflexivity |].
  unfold leb. simpl.
  rewrite !bool_decide_eq_false_2 by lra. simpl.
  apply IH; lra.
Qed.

(** A draw of [0.0] selects the first candidate even when its weight is
    zero, since the test is [prob <= cum_p]. *)
Lemma select_from_zero_draw (w : list num) (i : nat) :
  select_from (Fin 0) zero i (zero :: w) = Some i.
Proof.
  unfold zero. simpl. unfold leb. simpl.
  rewrite (bool_decide_eq_true_2 (0 = 0 + 0)%R) by lra.
  now rewrite orb_true_r.
Qed.

(** The weight loop of the phagocyte routine visits the offsets in order
    and gives each one weight. *)
Lemma phagocyte_weigh_shape tissue_types molecule drift_lambda drift_bias
    tissue grid vox (l : list (Z * Z * Z)) p vox_list p_tot p' vox_list' p_tot' :
  Diffusion.foldM
    (phagocyte_weigh tissue_types molecule drift_lambda drift_bias tissue grid vox)
    (p, vox_list, p_tot) l = Some (p', vox_list', p_tot') ->
  vox_list' = vox_list ++ l /\ length p' = (length p + length l)%nat.
Proof.
  revert p vox_list p_tot. induction l as [| [[x y] z] l IH];
    intros p vox_list p_tot H; cbn [Diffusion.foldM] in H.
  - inversion H; subst. rewrite List.app_nil_r. split; [reflexivity | simpl; lia].
  - destruct (phagocyte_weigh tissue_types molecule drift_lambda drift_bias tissue
                grid vox (p, vox_list, p_tot) (x, y, z))
      as [[[p1 vl1] pt1] |] eqn:Hstep; [| simpl in H; discriminate].
    simpl in H. apply IH in H as (-> & Hlen).
    assert (vl1 = vox_list ++ [(x, y, z)] /\ length p1 = S (length p)) as [-> Hp1].
    { unfold phagocyte_weigh in Hstep.
      repeat match type of Hstep with
             | context [if ?b then _ else _] => destruct b
             | context [@mbind _ _ _ _ _ ?o] => destruct o; simpl in Hstep
             end;
        try discriminate; inversion Hstep; subst;
        rewrite length_app; simpl; split; (reflexivity || lia). }
    rewrite <- app_assoc. simpl. split; [reflexivity | lia].
Qed.

Lemma all_zero_replicate (l : list num) :
  Forall (fun w => w = zero) l -> l = replicate (length l) zero.
Proof.
  induction 1 as [| w l -> _ IH]; simpl; [reflexivity | now rewrite <- IH].
Qed.

Section ZeroWeights.

Variable get_voxel : RectangularGrid -> Point -> Voxel.
Variable tissue_types : TissueTypes.
Variables (molecule : Array3 num) (drift_lambda drift_bias : num).
Variables (tissue : Array3 Z) (grid : RectangularGrid) (cell : CellData).
Variables (p : list num) (vox_list : list (Z * Z * Z)) (p_tot : num).

Hypothesis Hweights :
  Diffusion.foldM
    (phagocyte_weigh tissue_types molecule drift_lambda drift_bias tissue grid
       (get_voxel grid (point cell)))
    ([], [], zero) offsets27 = Some (p, vox_list, p_tot).
Hypothesis Hzero : Forall (fun w => w = zero) p.
Hypothesis Htotal : eqb p_tot zero = true.

Lemma zero_weights_list : scale p p_tot = replicate 27 zero /\ vox_list = offsets27.
Proof.
  destruct (phagocyte_weigh_shape _ _ _ _ _ _ _ _ _ _ _ _ _ _ Hweights) as [-> Hlen].
  split; [| reflexivity]. unfold scale. rewrite Htotal.
  simpl in Hlen. rewrite <- Hlen. now apply all_zero_replicate.
Qed.

(** When every candidate weight is zero and the draw is positive, the
    phagocyte routine leaves the cell as it was. *)
Lemma zero_weights_positive_draw_stays (prob : R) :
  (0 < prob)%R ->
  phagocyte_chemotaxis_cell get_voxel tissue_types molecule drift_lambda drift_bias
    tissue grid (Fin prob) cell = Some cell.
Proof.
  intros Hp. unfold phagocyte_chemotaxis_cell. rewrite Hweights. simpl.
  destruct zero_weights_list as [-> _].
  unfold zero at 1. rewrite select_from_zero_weights by lra. reflexivity.
Qed.

(** When every candidate weight is zero and the draw is [0.0], the routine
    selects the offset [(0, 0, 0)] and puts the cell at the centre of its
    voxel. *)
Lemma zero_weights_zero_draw_recentres (nx ny nz : num) :
  let vox := get_voxel grid (point cell) in
  Py.index (grid_x grid) (vx vox + 0) = Some nx ->
  Py.index (grid_y grid) (vy vox + 0) = Some ny ->
  Py.index (grid_z grid) (vz vox + 0) = Some nz ->
  phagocyte_chemotaxis_cell get_voxel tissue_types molecule drift_lambda drift_bias
    tissue grid (Fin 0) cell
  = Some (update_voxel_index get_voxel grid (set_point cell (mkPoint nx ny nz))).
Proof.
  intros vox Hx Hy Hz. unfold phagocyte_chemotaxis_cell. rewrite Hweights. simpl.
  destruct zero_weights_list as [-> ->].
  change (replicate 27 zero) with (zero :: replicate 26 zero).
  rewrite select_from_zero_draw. simpl.
  fold vox. rewrite Hx. simpl. rewrite Hy. simpl. rewrite Hz. reflexivity.
Qed.

End ZeroWeights.


(** The weights of the candidates of [off_centre_cell]: its voxel is air
    and every other candidate is out of bounds. *)
Lemma off_centre_cell_weights :
  Diffusion.foldM
    (phagocyte_weigh tissue_type_values (one_voxel (Fin 1)) (Fin 10) (Fin (9 / 10))
       air_tissue one_voxel_grid (mkVoxel 0 0 0))
    ([], [], zero) offsets27
  = Some (replicate 27 zero, offsets27, zero).
Proof. simpl. reflexivity. Qed.

(** C8 does not hold of the code when the draw is exactly [0.0].  The
    candidates of [off_centre_cell] all have weight zero, yet the call of
    the phagocyte routine moves the cell from (0.7, 0.5, 0.5) to the centre
    of its voxel, (0.5, 0.5, 0.5): [prob <= cum_p] holds at the first
    candidate with [0.0 <= 0.0]. *)
Theorem zero_weights_zero_draw_moves_agent :
  Diffusion.foldM
    (phagocyte_weigh tissue_type_values (one_voxel (Fin 1)) (Fin 10) (Fin (9 / 10))
       air_tissue one_voxel_grid (get_voxel_origin one_voxel_grid (point off_centre_cell)))
    ([], [], zero) offsets27
  = Some (replicate 27 zero, offsets27, zero)
  /\ phagocyte_chemotaxis get_voxel_origin tissue_type_values (one_voxel (Fin 1))
       (Fin 10) (Fin (9 / 10)) air_tissue one_voxel_grid [off_centre_cell] zero_generator
     = Some ([set_point off_centre_cell (mkPoint (Fin (1 / 2)) (Fin (1 / 2)) (Fin (1 / 2)))],
             Random.mkGenerator (fun _ => 0%R) 1)
  /\ point (set_point off_centre_cell (mkPoint (Fin (1 / 2)) (Fin (1 / 2)) (Fin (1 / 2))))
     <> point off_centre_cell.
Proof.
  split; [exact off_centre_cell_weights |]. split.
  - assert (Hzero : Forall (fun w => w = zero) (replicate 27 zero)).
    { apply Forall_forall. intros w Hw. now apply elem_of_replicate in Hw as [-> _]. }
    assert (Htotal : eqb zero zero = true).
    { unfold eqb, zero. now rewrite bool_decide_eq_true_2. }
    unfold phagocyte_chemotaxis, zero_generator. simpl.
    rewrite (zero_weights_zero_draw_recentres get_voxel_origin tissue_type_values
               (one_voxel (Fin 1)) (Fin 10) (Fin (9 / 10)) air_tissue one_voxel_grid
               off_centre_cell (replicate 27 zero) offsets27 zero
               off_centre_cell_weights Hzero Htotal
               (Fin (1 / 2)) (Fin (1 / 2)) (Fin (1 / 2)));
      reflexivity.
  - simpl. intros H. injection H as H. lra.
Qed.


(** *** [choose_voxel_by_prob] *)

(** With weights that are all zero the default voxel is returned, and no
    draw is taken. *)
Lemma choose_voxel_by_prob_zero_weights (voxels : list Voxel) (default_value : Voxel)
    (weights : list num) (g : Random.generator) :
  Forall (fun w => w = zero) weights ->
  UtilMesh.choose_voxel_by_prob voxels default_value weights g = (Some default_value, g).
Proof.
  intros Hz. unfold UtilMesh.choose_voxel_by_prob.
  assert (Hsum : sum weights = Fin 0).
  { rewrite LaplacianFacts.sum_finite.
    - f_equal. induction Hz as [| w l -> _ IH]; simpl; [reflexivity | lra].
    - eapply Forall_impl; [exact Hz |]. now intros w ->. }
  rewrite Hsum. unfold leb, zero. simpl.
  rewrite (bool_decide_eq_true_2 (0 = 0)%R) by reflexivity.
  now rewrite orb_true_r.
Qed.

(** *** Draws consumed by the routines *)

(** A loop over cells whose body takes [k] draws takes [k] draws per cell. *)
Lemma for_each_cell_draws
    (body : Random.generator -> CellData -> option (CellData * Random.generator))
    (k : nat) (indices : list nat) (cs cs' : list CellData) (g g' : Random.generator) :
  (forall g c c' g1, body g c = Some (c', g1) ->
     Random.position g1 = (Random.position g + k)%nat
     /\ Random.stream g1 = Random.stream g) ->
  for_each_cell body indices cs g = Some (cs', g') ->
  Random.position g' = (Random.position g + k * length indices)%nat
  /\ Random.stream g' = Random.stream g.
Proof.
  intros Hbody. revert cs g. induction indices as [| i indices IH]; intros cs g H.
  - simpl in H. inversion H; subst. split; [simpl; lia | reflexivity].
  - cbn [for_each_cell] in H.
    destruct (cs !! i) as [c |]; [| simpl in H; discriminate]. simpl in H.
    destruct (body g c) as [[c' g1] |] eqn:Hb; [| simpl in H; discriminate].
    simpl in H. apply IH in H as [Hpos Hstream].
    destruct (Hbody _ _ _ _ Hb) as [Hp1 Hs1].
    split; [simpl; rewrite Nat.mul_succ_r; lia | congruence].
Qed.

(** The phagocyte routine takes one draw for each living cell. *)
Lemma phagocyte_chemotaxis_draws get_voxel tissue_types molecule drift_lambda drift_bias
    tissue grid (cs cs' : list CellData) (g g' : Random.generator) :
  phagocyte_chemotaxis get_voxel tissue_types molecule drift_lambda drift_bias tissue
    grid cs g = Some (cs', g') ->
  Random.position g' = (Random.position g + length (alive cs))%nat
  /\ Random.stream g' = Random.stream g.
Proof.
  intros H. unfold phagocyte_chemotaxis in H.
  apply (for_each_cell_draws _ 1) in H; [rewrite Nat.mul_1_l in H; exact H |].
  intros g0 c c' g1 Hb. simpl in Hb.
  destruct (phagocyte_chemotaxis_cell _ _ _ _ _ _ _ _ _); simpl in Hb; [| discriminate].
  inversion Hb; subst. simpl. split; [lia | reflexivity].
Qed.

(** The macrophage routine takes no draw of its own: every living cell is
    moved with the [prob] the routine was called with. *)
Lemma macrophage_chemotaxis_draws get_voxel tissue_types molecule prob drift_lambda
    drift_bias tissue grid (cs cs' : list CellData) (g g' : Random.generator) :
  macrophage_chemotaxis get_voxel tissue_types molecule prob drift_lambda drift_bias
    cs tissue grid g = Some (cs', g') ->
  g' = g.
Proof.
  intros H. unfold macrophage_chemotaxis in H.
  apply (for_each_cell_draws _ 0) in H.
  - destruct H as [Hp Hs]. destruct g, g'. simpl in *. f_equal; [assumption | lia].
  - intros g0 c c' g1 Hb.
    destruct (macrophage_chemotaxis_cell _ _ _ _ _ _ _ _ _); simpl in Hb; [| discriminate].
    inversion Hb; subst. split; [lia | reflexivity].
Qed.

Lemma interact_cell_draws get_voxel uptake enhance grid iron g c iron' c' g' :
  interact_cell get_voxel uptake enhance grid iron g c = Some (iron', c', g') ->
  g' = Random.mkGenerator (Random.stream g) (S (Random.position g)).
Proof.
  unfold interact_cell. intros H.
  repeat match type of H with
         | context [@mbind _ _ _ _ _ ?o] =>
             destruct o as [? |] eqn:?; simpl in H; [| discriminate]
         | context [if ?b then _ else _] => destruct b
         | context [let '(_, _) := ?p in _] => destruct p
         end;
    inversion H; subst; reflexivity.
Qed.


Lemma interact_loop_draws get_voxel uptake enhance grid indices iron cs g iron' cs' g' :
  interact_loop get_voxel uptake enhance grid indices iron cs g = Some (iron', cs', g') ->
  g' = Random.mkGenerator (Random.stream g) (Random.position g + length indices).
Proof.
  revert iron cs g. induction indices as [| i indices IH]; intros iron cs g H.
  - simpl in H. inversion H; subst. destruct g'. simpl. f_equal. lia.
  - cbn [interact_loop] in H.
    destruct (cs !! i) as [c |]; [| simpl in H; discriminate]. simpl in H.
    destruct (interact_cell get_voxel uptake enhance grid iron g c)
      as [[[iron1 c1] g1] |] eqn:Hc; [| simpl in H; discriminate].
    simpl in H. apply IH in H. apply interact_cell_draws in Hc. subst g1.
    rewrite H. simpl. f_equal. lia.
Qed.

(** One call of [Macrophage.advance] takes one draw for each living cell,
    in [interact], and a single further draw, which the chemotaxis routine
    uses for all of them. *)
Lemma macrophage_advance_draws get_voxel tissue_types st g st' g' :
  macrophage_advance get_voxel tissue_types st g = Some (st', g') ->
  g' = Random.mkGenerator (Random.stream g)
         (Random.position g + length (alive (cells (macrophage st))) + 1).
Proof.
  unfold macrophage_advance, interact. intros H.
  destruct (interact_loop _ _ _ _ _ _ _ _) as [[[iron cs] g1] |] eqn:Hi;
    [| simpl in H; discriminate].
  simpl in H. apply interact_loop_draws in Hi. subst g1.
  destruct (macrophage_chemotaxis _ _ _ _ _ _ _ _ _ _) as [[cs2 g2] |] eqn:Hc;
    [| simpl in H; discriminate].
  simpl in H. apply macrophage_chemotaxis_draws in Hc. subst g2.
  inversion H; subst. f_equal. lia.
Qed.

(** *** The macrophage routine on two cells *)

Lemma hill_probability_no_iron :
  hill_probability (Fin 0) hill_probability_km_default = Fin 0.
Proof.
  unfold hill_probability, hill_probability_km_default. evaluate. f_equal. lra.
Qed.

Lemma logistic_no_bias (x : R) : logistic (Fin x) (Fin 10) (Fin 0) = Fin 1.
Proof. unfold logistic, one. evaluate. f_equal. lra. Qed.

Lemma macrophage_weights_first_voxel :
  Diffusion.foldM
    (macrophage_weigh_x tissue_type_values no_iron (Fin 10) (Fin 0) surfactant_tissue
       two_voxel_sim_grid (mkVoxel 0 0 0))
    ([], [], zero, (0%Z, 0%Z)) steps
  = Some (two_candidates, offsets27, Fin (0 + 1 + 1), ((-1)%Z, (-1)%Z)).
Proof.
  unfold macrophage_weigh_x, macrophage_weigh_y, steps. simpl.
  unfold macrophage_weigh, leb. evaluate.
  rewrite !logistic_no_bias. evaluate. reflexivity.
Qed.

(** The draw 0.75 selects the tenth candidate, the offset (1, 0, 0); the
    draw 0.25 selects the first, the offset (0, 0, 0). *)
Lemma select_three_quarters :
  select_from (Fin (3 / 4)) zero 0 (scale two_candidates (Fin (0 + 1 + 1))) = Some 9%nat.
Proof.
  unfold scale, two_candidates, zero. evaluate. unfold leb. evaluate. reflexivity.
Qed.

Lemma select_one_quarter :
  select_from (Fin (1 / 4)) zero 0 (scale two_candidates (Fin (0 + 1 + 1))) = Some 0%nat.
Proof.
  unfold scale, two_candidates, zero. evaluate. unfold leb. evaluate. reflexivity.
Qed.

Lemma first_voxel (c : CellData) (x y z : R) :
  point c = mkPoint (Fin x) (Fin y) (Fin z) -> (x < 1 / 2)%R ->
  get_voxel_by_x two_voxel_sim_grid (point c) = mkVoxel 0 0 0.
Proof.
  intros Hp Hx. unfold get_voxel_by_x. rewrite Hp. simpl.
  now rewrite bool_decide_eq_true_2 by lra.
Qed.

Lemma macrophage_moves (c : CellData) (x y z : R) :
  point c = mkPoint (Fin x) (Fin y) (Fin z) -> (x < 1 / 2)%R ->
  macrophage_chemotaxis_cell get_voxel_by_x tissue_type_values no_iron (Fin (3 / 4))
    (Fin 10) (Fin 0) surfactant_tissue two_voxel_sim_grid c
  = Some (update_voxel_index get_voxel_by_x two_voxel_sim_grid
            (set_point c (mkPoint (Fin (x + 1)) (Fin (y + 0)) (Fin (z + 0))))).
Proof.
  intros Hp Hx. unfold macrophage_chemotaxis_cell.
  rewrite (first_voxel c x y z Hp Hx), macrophage_weights_first_voxel. simpl.
  rewrite select_three_quarters. simpl. rewrite Hp. reflexivity.
Qed.

Lemma macrophage_stays (c : CellData) (x y z : R) :
  point c = mkPoint (Fin x) (Fin y) (Fin z) -> (x < 1 / 2)%R ->
  macrophage_chemotaxis_cell get_voxel_by_x tissue_type_values no_iron (Fin (1 / 4))
    (Fin 10) (Fin 0) surfactant_tissue two_voxel_sim_grid c
  = Some (update_voxel_index get_voxel_by_x two_voxel_sim_grid
            (set_point c (mkPoint (Fin (x + 0)) (Fin (y + 0)) (Fin (z + 0))))).
Proof.
  intros Hp Hx. unfold macrophage_chemotaxis_cell.
  rewrite (first_voxel c x y z Hp Hx), macrophage_weights_first_voxel. simpl.
  rewrite select_one_quarter. simpl. rewrite Hp. reflexivity.
Qed.

(** With no iron around, [interact] leaves a cell with an empty iron pool
    as it was, and takes one draw. *)
Lemma interact_cell_idle (c : CellData) (x y z : R) (g : Random.generator) :
  point c = mkPoint (Fin x) (Fin y) (Fin z) -> (x < 1 / 2)%R ->
  iron_pool c = Fin 0 -> boolean_network c = [true; false; true] ->
  (0 <= Random.stream g (Random.position g))%R ->
  interact_cell get_voxel_by_x (Fin (1 / 10)) (Fin 1) two_voxel_sim_grid no_iron g c
  = Some (no_iron, c, Random.mkGenerator (Random.stream g) (S (Random.position g))).
Proof.
  intros Hp Hx Hpool Hnet Hu. unfold interact_cell.
  rewrite (first_voxel c x y z Hp Hx). destruct c as [pt d pool net vox].
  simpl in *. subst. rewrite hill_probability_no_iron.
  unfold gtb, one. evaluate. unfold set_iron_pool, set_boolean_network, no_iron. simpl.
  repeat f_equal; lra.
Qed.


(** C9 does not hold of the macrophage routine.  [Macrophage.advance] on
    two living cells takes three draws: one per cell in [interact] and one,
    at position 2 of the stream, for the whole call of [chemotaxis].  That
    draw, 0.75, moves both cells one voxel along x.  The next value of the
    stream, 0.25, is not taken; had the second cell been given it, the cell
    would not have moved. *)
Theorem macrophage_chemotaxis_shares_one_draw :
  macrophage_advance get_voxel_by_x tissue_type_values macrophage_state sample_generator
  = Some (mkState
            (mkMacrophageState [moved_by 1 first_macrophage; moved_by 1 second_macrophage]
               (Fin (1 / 10)) (Fin 1) (Fin 10) (Fin 0))
            no_iron surfactant_tissue two_voxel_sim_grid,
          Random.mkGenerator (Random.stream sample_generator) 3)
  /\ Random.stream sample_generator 2 = (3 / 4)%R
  /\ Random.stream sample_generator 3 = (1 / 4)%R
  /\ macrophage_chemotaxis_cell get_voxel_by_x tissue_type_values no_iron
       (Fin (Random.stream sample_generator 3)) (Fin 10) (Fin 0) surfactant_tissue
       two_voxel_sim_grid second_macrophage
     = Some (moved_by 0 second_macrophage)
  /\ point (moved_by 1 second_macrophage) <> point (moved_by 0 second_macrophage).
Proof.
  assert (H1 : point first_macrophage
               = mkPoint (Fin (1 / 10)) (Fin (1 / 10)) (Fin (1 / 10))) by reflexivity.
  assert (H2 : point second_macrophage
               = mkPoint (Fin (2 / 10)) (Fin (1 / 10)) (Fin (1 / 10))) by reflexivity.
  repeat split.
  - unfold macrophage_advance, interact, macrophage_state.
    cbn [macrophage cells MPH_UPTAKE_QTTY TF_ENHANCE DRIFT_LAMBDA DRIFT_BIAS
         iron_concentration lung_tissue grid].
    change (alive [first_macrophage; second_macrophage]) with [0%nat; 1%nat].
    cbn [interact_loop lookup list_lookup mbind option_bind].
    rewrite (interact_cell_idle first_macrophage _ _ _ sample_generator H1)
      by (try reflexivity; simpl; lra).
    cbn [mbind option_bind list_insert insert].
    change (<[0%nat := first_macrophage]> [first_macrophage; second_macrophage])
      with [first_macrophage; second_macrophage].
    cbn [interact_loop lookup list_lookup mbind option_bind].
    rewrite (interact_cell_idle second_macrophage _ _ _ _ H2)
      by (try reflexivity; simpl; lra).
    cbn [mbind option_bind].
    change (<[1%nat := second_macrophage]> [first_macrophage; second_macrophage])
      with [first_macrophage; second_macrophage].
    cbn [interact_loop mbind option_bind macrophage cells MPH_UPTAKE_QTTY TF_ENHANCE
         DRIFT_LAMBDA DRIFT_BIAS iron_concentration lung_tissue grid].
    unfold Random.random, sample_generator.
    cbn [Random.stream Random.position].
    change (if decide (2%nat = 3%nat) then (1 / 4)%R else (3 / 4)%R) with (3 / 4)%R.
    unfold macrophage_chemotaxis.
    change (alive [first_macrophage; second_macrophage]) with [0%nat; 1%nat].
    cbn [for_each_cell lookup list_lookup mbind option_bind].
    rewrite (macrophage_moves first_macrophage _ _ _ H1) by lra.
    cbn [mbind option_bind for_each_cell lookup list_lookup list_insert insert].
    rewrite (macrophage_moves second_macrophage _ _ _ H2) by lra.
    reflexivity.
  - unfold sample_generator. simpl.
    rewrite (macrophage_stays second_macrophage _ _ _ H2) by lra. reflexivity.
  - simpl. intros H. injection H as H. lra.
Qed.

End ChemotaxisFacts.

(** * Further properties *)

(** ** Kinetics primitives, continued *)

Module KineticsFacts.

Import Util.

(** X1: on a finite non-negative substrate, with positive [k_m] and volume
    and non-negative enzyme, [h] and [k_cat], the Michaelis-Menten rate grows
    with the substrate and never exceeds the saturation rate
    [h * k_cat * enzyme]. *)
Theorem michaelian_kinetics_saturates (s s' e k_m h k_cat v : R) :
  (0 <= s <= s')%R -> (0 <= e)%R -> (0 < k_m)%R -> (0 <= h)%R -> (0 <= k_cat)%R ->
  (0 < v)%R ->
  exists r r',
    michaelian_kinetics (Fin s) (Fin e) (Fin k_m) (Fin h) (Fin k_cat) (Fin v) = Fin r
    /\ michaelian_kinetics (Fin s') (Fin e) (Fin k_m) (Fin h) (Fin k_cat) (Fin v) = Fin r'
    /\ (0 <= r <= r')%R /\ (r' <= h * k_cat * e)%R.
Proof.
  intros [Hs Hss] He Hk Hh Hc Hv.
  assert (HK : (0 < k_m * v)%R) by (apply Rmult_lt_0_compat; assumption).
  set (K := (k_m * v)%R) in *.
  assert (Hce : (0 <= h * k_cat * e)%R) by (repeat apply Rmult_le_pos; assumption).
  set (c := (h * k_cat * e)%R) in *.
  rewrite !UtilFacts.michaelian_kinetics_Fin by (fold K; lra).
  fold K c. eexists _, _. split; [reflexivity |]. split; [reflexivity |].
  assert (Hfrac : forall u, (0 <= u)%R -> (0 <= u / (u + K) <= 1)%R).
  { intros u Hu. split.
    - apply Rmult_le_pos; [assumption |]. left. apply Rinv_0_lt_compat. lra.
    - apply Rmult_le_reg_r with (u + K)%R; [lra |].
      unfold Rdiv. rewrite Rmult_assoc, Rinv_l by lra. lra. }
  assert (Hmono : (s / (s + K) <= s' / (s' + K))%R).
  { apply Rmult_le_reg_r with ((s + K) * (s' + K))%R.
    - apply Rmult_lt_0_compat; lra.
    - replace (s / (s + K) * ((s + K) * (s' + K)))%R with (s * (s' + K))%R
        by (field; lra).
      replace (s' / (s' + K) * ((s + K) * (s' + K)))%R with (s' * (s + K))%R
        by (field; lra).
      nra. }
  pose proof (Hfrac s Hs) as [H0 _]. pose proof (Hfrac s' ltac:(lra)) as [_ H1].
  replace (c * s / (s + K))%R with (c * (s / (s + K)))%R by (unfold Rdiv; ring).
  replace (c * s' / (s' + K))%R with (c * (s' / (s' + K)))%R by (unfold Rdiv; ring).
  repeat split.
  - apply Rmult_le_pos; assumption.
  - apply Rmult_le_compat_l; assumption.
  - rewrite <- (Rmult_1_r c) at 2. apply Rmult_le_compat_l; assumption.
Qed.

Lemma michaelian_kinetics_saturates_witness :
  exists r r',
    michaelian_kinetics (Fin 10) (Fin 5) (Fin 2) (Fin 1) (Fin 1) (Fin 1) = Fin r
    /\ michaelian_kinetics (Fin 20) (Fin 5) (Fin 2) (Fin 1) (Fin 1) (Fin 1) = Fin r'
    /\ (0 <= r <= r')%R /\ (r' <= 1 * 1 * 5)%R.
Proof.
  apply (michaelian_kinetics_saturates 10 20 5 2 1 1 1); lra.
Defined.

(** X2: for finite [x >= 0], positive [k_d] and volume, [h >= 0] and
    [0 <= b <= 1], the activation function is finite and lies between
    [h * (1 - b)] and [h]; it is [h * (1 - b)] at [x = 0] and does not
    decrease when [x] grows. *)
Theorem activation_function_range (x x' k_d h v b : R) :
  (0 <= x <= x')%R -> (0 < k_d)%R -> (0 < v)%R -> (0 <= h)%R -> (0 <= b <= 1)%R ->
  exists r r',
    activation_function (Fin x) (Fin k_d) (Fin h) (Fin v) (Fin b) = Fin r
    /\ activation_function (Fin x') (Fin k_d) (Fin h) (Fin v) (Fin b) = Fin r'
    /\ (h * (1 - b) <= r <= r')%R /\ (r' <= h)%R
    /\ (x = 0%R -> r = (h * (1 - b))%R).
Proof.
  intros [Hx Hxx] Hk Hv Hh [Hb0 Hb1].
  assert (Hval : forall u,
            activation_function (Fin u) (Fin k_d) (Fin h) (Fin v) (Fin b)
            = Fin (h * (1 - b * exp (- u / k_d / v)))).
  { intros u. unfold activation_function, one.
    cbn [neg]. rewrite !div_Fin by lra. cbn [nexp]. rewrite mul_Fin, sub_Fin, mul_Fin.
    reflexivity. }
  rewrite !Hval. eexists _, _. split; [reflexivity |]. split; [reflexivity |].
  assert (Hkv : (0 < / k_d * / v)%R)
    by (apply Rmult_lt_0_compat; apply Rinv_0_lt_compat; assumption).
  assert (Harg : forall u, (- u / k_d / v)%R = (- (u * (/ k_d * / v)))%R)
    by (intros u; unfold Rdiv; ring).
  assert (Hle : forall u, (0 <= u)%R -> (0 < exp (- u / k_d / v) <= 1)%R).
  { intros u Hu. split; [apply exp_pos |]. apply UtilFacts.exp_le_1.
    rewrite Harg. assert (0 <= u * (/ k_d * / v))%R by (apply Rmult_le_pos; lra). lra. }
  assert (Hmono : (exp (- x' / k_d / v) <= exp (- x / k_d / v))%R).
  { destruct (Req_dec_T x x') as [-> | Hne]; [lra |].
    left. apply exp_increasing. rewrite !Harg.
    apply Ropp_lt_contravar. apply Rmult_lt_compat_r; lra. }
  pose proof (Hle x Hx) as [Hp1 Hq1]. pose proof (Hle x' ltac:(lra)) as [Hp2 Hq2].
  set (E := exp (- x / k_d / v)) in *. set (E' := exp (- x' / k_d / v)) in *.
  assert (HbE : (b * E' <= b * E)%R) by (apply Rmult_le_compat_l; assumption).
  assert (HbE1 : (b * E <= b * 1)%R) by (apply Rmult_le_compat_l; assumption).
  assert (HbE0 : (0 <= b * E')%R) by (apply Rmult_le_pos; lra).
  repeat split.
  - apply Rmult_le_compat_l; lra.
  - apply Rmult_le_compat_l; lra.
  - rewrite <- (Rmult_1_r h) at 2. apply Rmult_le_compat_l; lra.
  - intros ->. subst E. replace (- 0 / k_d / v)%R with 0%R by (unfold Rdiv; ring).
    rewrite exp_0. ring.
Qed.

Lemma activation_function_range_witness :
  exists r r',
    activation_function (Fin 0) (Fin 2) (Fin 1) (Fin 1) (Fin 1) = Fin r
    /\ activation_function (Fin 3) (Fin 2) (Fin 1) (Fin 1) (Fin 1) = Fin r'
    /\ (1 * (1 - 1) <= r <= r')%R /\ (r' <= 1)%R
    /\ (0%R = 0%R -> r = (1 * (1 - 1))%R).
Proof.
  apply (activation_function_range 0 3 2 1 1 1); lra.
Defined.


(** The general branch of [turnover_rate], entry by entry: what the
    uninitialised buffer holds plays no part. *)
Lemma turnover_rate_entries (junk : nat -> num) (x : list num) (x_system r t : num) :
  eqb x_system zero = false ->
  turnover_rate junk x x_system r t
  = Some (map (fun xi =>
                 clip (if eqb xi zero then zero
                       else div (add (mul (sub xi x_system)
                                         (nexp (mul (neg r) t))) x_system) xi)
                      zero one) x).
Proof.
  intros Hs. unfold turnover_rate. rewrite Hs.
  unfold mask_assign, true_divide_where.
  rewrite decide_True.
  2:{ rewrite length_imap, !length_zip_with, !length_map. lia. }
  simpl. f_equal. rewrite !map_is_fmap.
  apply list_eq. intros i.
  rewrite !list_lookup_fmap, lookup_zip_with, list_lookup_imap, !lookup_zip_with.
  rewrite !list_lookup_fmap.
  destruct (x !! i) as [xi |]; simpl; [| reflexivity].
  unfold neqb. destruct (eqb xi zero); reflexivity.
Qed.

(** X3: with a finite system level that is not zero, [turnover_rate]
    returns an array of the shape of [x] that does not depend on the
    contents of the uninitialised buffer; at every finite entry of [x] the
    factor is finite and lies in [[0, 1]], and it is [0] where [x == 0]. *)
Theorem turnover_rate_general_branch (junk junk' : nat -> num) (x : list num)
    (s r t : R) :
  s <> 0%R ->
  exists res,
    turnover_rate junk x (Fin s) (Fin r) (Fin t) = Some res
    /\ turnover_rate junk' x (Fin s) (Fin r) (Fin t) = Some res
    /\ length res = length x
    /\ forall i a, x !! i = Some (Fin a) ->
         exists q, res !! i = Some (Fin q) /\ (0 <= q <= 1)%R /\ (a = 0%R -> q = 0%R).
Proof.
  intros Hs.
  assert (Hsys : eqb (Fin s) zero = false)
    by (rewrite eqb_zero_Fin; now apply bool_decide_eq_false_2).
  rewrite !turnover_rate_entries by exact Hsys.
  eexists. split; [reflexivity |]. split; [reflexivity |].
  split; [apply length_map |].
  intros i a Ha. rewrite map_is_fmap, list_lookup_fmap, Ha. simpl.
  destruct (bool_decide_reflect (a = 0%R)) as [-> | Hne].
  - exists 0%R. split; [f_equal; num_crush |]. split; [lra | reflexivity].
  - set (q := (((a + - s) * exp (- r * t) + s) / a)%R).
    destruct (Rlt_dec q 0) as [Hq0 | Hq0].
    + exists 0%R. split; [f_equal; num_crush |]. split; [lra | contradiction].
    + destruct (Rlt_dec 1 q) as [Hq1 | Hq1].
      * exists 1%R. split; [f_equal; num_crush |]. split; [lra | contradiction].
      * exists q. split; [f_equal; num_crush |]. split; [lra | contradiction].
Qed.

Lemma turnover_rate_general_branch_witness :
  exists res,
    turnover_rate (fun _ => NaN) [Fin 0; Fin 2] (Fin 1) (Fin 1) (Fin 1) = Some res
    /\ turnover_rate (fun _ => PInf) [Fin 0; Fin 2] (Fin 1) (Fin 1) (Fin 1) = Some res
    /\ length res = length [Fin 0; Fin 2]
    /\ forall i a, [Fin 0; Fin 2] !! i = Some (Fin a) ->
         exists q, res !! i = Some (Fin q) /\ (0 <= q <= 1)%R /\ (a = 0%R -> q = 0%R).
Proof.
  apply (turnover_rate_general_branch (fun _ => NaN) (fun _ => PInf) [Fin 0; Fin 2] 1 1 1).
  lra.
Defined.

End KineticsFacts.

(** ** Cells and chemotaxis, continued *)

Module CellFacts.

Import Simulation Scenarios Scenarios2 CellSpec.

(** X4: with a finite scale [l <> 0] and a bias [0 <= b <= 1], [logistic]
    is finite, lies between [1 - b] and [1], takes the value [1 - b] at
    [x = 0] and is even in [x]. *)
Theorem logistic_range (x l b : R) :
  l <> 0%R -> (0 <= b <= 1)%R ->
  exists r,
    logistic (Fin x) (Fin l) (Fin b) = Fin r
    /\ (1 - b <= r <= 1)%R
    /\ (x = 0%R -> r = (1 - b)%R)
    /\ logistic (Fin (- x)) (Fin l) (Fin b) = Fin r.
Proof.
  intros Hl Hb. unfold logistic. rewrite !div_Fin by exact Hl.
  rewrite !mul_Fin. cbn [neg nexp]. rewrite !mul_Fin. unfold one. rewrite !sub_Fin.
  eexists. split; [reflexivity |].
  set (q := (x / l * (x / l))%R).
  assert (Hq : (0 <= q)%R) by (subst q; nra).
  pose proof (exp_pos (- q)) as Hpos.
  pose proof (UtilFacts.exp_le_1 (- q) ltac:(lra)) as Hle.
  split; [nra |]. split.
  - intros ->. subst q. replace (- (0 / l * (0 / l)))%R with 0%R by (field; exact Hl).
    rewrite exp_0. lra.
  - do 2 f_equal. f_equal. f_equal. subst q. field. exact Hl.
Qed.

Lemma logistic_range_witness :
  exists r,
    logistic (Fin 3) (Fin 10) (Fin (9 / 10)) = Fin r
    /\ (1 - 9 / 10 <= r <= 1)%R
    /\ (3 = 0 -> r = 1 - 9 / 10)%R
    /\ logistic (Fin (- 3)) (Fin 10) (Fin (9 / 10)) = Fin r.
Proof. apply (logistic_range 3 10 (9 / 10)); lra. Defined.

(** X5: with a finite half-saturation constant [km <> 0],
    [hill_probability] is finite and lies in [[0, 1)]; it is [0] exactly when
    the amount is [0], and it does not decrease when the amount grows away
    from [0]. *)
Theorem hill_probability_range (s s' km : R) :
  km <> 0%R -> (0 <= s <= s')%R ->
  exists r r',
    hill_probability (Fin s) (Fin km) = Fin r
    /\ hill_probability (Fin s') (Fin km) = Fin r'
    /\ (0 <= r <= r')%R /\ (r' < 1)%R
    /\ (r = 0%R <-> s = 0%R).
Proof.
  intros Hkm [Hs Hss]. unfold hill_probability. rewrite !mul_Fin, !add_Fin.
  assert (HK : (0 < km * km)%R) by nra.
  set (K := (km * km)%R) in *.
  assert (Hsq : (0 <= s * s <= s' * s')%R) by nra.
  set (u := (s * s)%R) in *. set (u' := (s' * s')%R) in *.
  rewrite !div_Fin by lra.
  eexists _, _. split; [reflexivity |]. split; [reflexivity |].
  assert (Hinv : forall v, (0 <= v)%R -> (0 < / (v + K))%R)
    by (intros v Hv; apply Rinv_0_lt_compat; lra).
  assert (Hmono : (u / (u + K) <= u' / (u' + K))%R).
  { apply Rmult_le_reg_r with ((u + K) * (u' + K))%R.
    - apply Rmult_lt_0_compat; lra.
    - replace (u / (u + K) * ((u + K) * (u' + K)))%R with (u * (u' + K))%R
        by (field; lra).
      replace (u' / (u' + K) * ((u + K) * (u' + K)))%R with (u' * (u + K))%R
        by (field; lra).
      nra. }
  assert (H0 : (0 <= u / (u + K))%R).
  { apply Rmult_le_pos; [lra |]. left. apply Hinv. lra. }
  assert (H1 : (u' / (u' + K) < 1)%R).
  { apply Rmult_lt_reg_r with (u' + K)%R; [lra |].
    unfold Rdiv. rewrite Rmult_assoc, Rinv_l by lra. lra. }
  repeat split; try assumption.
  - intros Hr. assert (Hu : u = 0%R).
    { apply Rmult_eq_reg_r with (/ (u + K))%R.
      - rewrite Rmult_0_l. exact Hr.
      - pose proof (Hinv u ltac:(lra)). lra. }
    subst u. nra.
  - intros ->. subst u. unfold Rdiv. rewrite !Rmult_0_l. reflexivity.
Qed.

Lemma hill_probability_range_witness :
  exists r r',
    hill_probability (Fin 0) (Fin 10) = Fin r
    /\ hill_probability (Fin 5) (Fin 10) = Fin r'
    /\ (0 <= r <= r')%R /\ (r' < 1)%R
    /\ (r = 0%R <-> 0%R = 0%R).
Proof. apply (hill_probability_range 0 5 10); lra. Defined.

(** Adding [0.0] leaves any value as it is. *)
Lemma add_zero_r (c : num) : add c zero = c.
Proof. destruct c; simpl; try reflexivity. f_equal. lra. Qed.

(** The selection loop stops at a position only when the weight there moved
    the cumulative sum: as long as the draw is above the sum so far, the
    selected weight is neither [0.0] nor NaN. *)
Lemma select_from_weight (prob c : num) (i j : nat) (p : list num) :
  leb prob c = false ->
  select_from prob c i p = Some j ->
  (i <= j)%nat /\ exists w, p !! (j - i)%nat = Some w /\ w <> zero /\ w <> NaN.
Proof.
  revert c i. induction p as [| w p IH]; intros c i Hc H; [discriminate |].
  cbn [select_from] in H.
  destruct (leb prob (add c w)) eqn:Hle.
  - inversion H; subst. split; [lia |]. rewrite Nat.sub_diag. exists w.
    split; [reflexivity |]. split.
    + intros ->. rewrite add_zero_r in Hle. congruence.
    + intros ->. destruct c, prob; simpl in Hle; discriminate.
  - destruct (IH _ _ Hle H) as (Hij & w' & Hw' & Hnz).
    split; [lia |]. exists w'. split; [| exact Hnz].
    replace (j - i)%nat with (S (j - S i)) by lia. exact Hw'.
Qed.

(** X6: the selection loop of both chemotaxis routines, run with a draw
    above zero, returns a position inside the list whose weight is neither
    [0.0] nor NaN: a candidate of weight zero is never selected. *)
Theorem select_from_skips_zero_weights (u : R) (p : list num) (j : nat) :
  (0 < u)%R ->
  select_from (Fin u) zero 0 p = Some j ->
  (j < length p)%nat /\ exists w, p !! j = Some w /\ w <> zero /\ w <> NaN.
Proof.
  intros Hu H.
  assert (Hc : leb (Fin u) zero = false) by num_crush.
  destruct (select_from_weight _ _ _ _ _ Hc H) as (_ & w & Hw & Hnz).
  rewrite Nat.sub_0_r in Hw. split; [| eauto].
  apply lookup_lt_is_Some. eauto.
Qed.

Lemma select_from_skips_zero_weights_witness :
  (1 < length [Fin 0; Fin 1])%nat
  /\ exists w, [Fin 0; Fin 1] !! 1%nat = Some w /\ w <> zero /\ w <> NaN.
Proof.
  apply (select_from_skips_zero_weights (1 / 2) [Fin 0; Fin 1] 1).
  - lra.
  - unfold zero. evaluate. unfold leb. evaluate. unfold leb. evaluate. reflexivity.
Defined.


(** One step of the weight loop of the phagocytes appends one weight and
    one offset; the weight differs from [0.0] only for an in-bounds voxel
    of one of the four accepted tissue types. *)
Lemma phagocyte_weigh_step tissue_types molecule drift_lambda drift_bias
    tissue grid vox p vox_list p_tot ox oy oz acc :
  phagocyte_weigh tissue_types molecule drift_lambda drift_bias tissue grid vox
    (p, vox_list, p_tot) (ox, oy, oz) = Some acc ->
  exists w p_tot',
    acc = (p ++ [w], vox_list ++ [(ox, oy, oz)], p_tot')
    /\ (w <> zero ->
        is_valid_voxel grid (mkVoxel (vx vox + ox) (vy vox + oy) (vz vox + oz)) = true
        /\ exists t, get3 tissue (vz vox + oz) (vy vox + oy) (vx vox + ox) = Some t
             /\ t ∈ [SURFACTANT tissue_types; BLOOD tissue_types;
                     EPITHELIUM tissue_types; PORE tissue_types]).
Proof.
  unfold phagocyte_weigh.
  destruct (is_valid_voxel grid _) eqn:Hvalid.
  - destruct (get3 tissue _ _ _) as [t |] eqn:Ht; simpl; [| discriminate].
    destruct (bool_decide_reflect
                (t ∈ [SURFACTANT tissue_types; BLOOD tissue_types;
                      EPITHELIUM tissue_types; PORE tissue_types])) as [Hin | Hin].
    + destruct (get3 molecule _ _ _) as [m |]; simpl; [| discriminate].
      intros H; inversion H; subst. eexists _, _. split; [reflexivity |].
      intros _. split; [reflexivity |]. eauto.
    + intros H; inversion H; subst. eexists _, _. split; [reflexivity |].
      intros Hw. now contradiction Hw.
  - intros H; inversion H; subst. eexists _, _. split; [reflexivity |].
    intros Hw. now contradiction Hw.
Qed.


(** The whole weight loop: the weights that differ from [0.0] belong to
    in-bounds candidates of accepted tissue. *)
Lemma phagocyte_weigh_entries tissue_types molecule drift_lambda drift_bias
    tissue grid vox (l : list (Z * Z * Z)) p vox_list p_tot p' vox_list' p_tot' :
  Diffusion.foldM
    (phagocyte_weigh tissue_types molecule drift_lambda drift_bias tissue grid vox)
    (p, vox_list, p_tot) l = Some (p', vox_list', p_tot') ->
  exists ws,
    p' = p ++ ws /\ vox_list' = vox_list ++ l
    /\ forall k w, ws !! k = Some w -> w <> zero ->
         exists ox oy oz,
           l !! k = Some (ox, oy, oz)
           /\ is_valid_voxel grid
                (mkVoxel (vx vox + ox) (vy vox + oy) (vz vox + oz)) = true
           /\ exists t, get3 tissue (vz vox + oz) (vy vox + oy) (vx vox + ox) = Some t
                /\ t ∈ [SURFACTANT tissue_types; BLOOD tissue_types;
                        EPITHELIUM tissue_types; PORE tissue_types].
Proof.
  revert p vox_list p_tot.
  induction l as [| [[ox oy] oz] l IH]; intros p vox_list p_tot H.
  - simpl in H. inversion H; subst. exists []. rewrite !List.app_nil_r.
    split; [reflexivity |]. split; [reflexivity |]. intros k w Hk. discriminate.
  - cbn [Diffusion.foldM] in H.
    destruct (phagocyte_weigh _ _ _ _ _ _ _ _ _) as [acc |] eqn:Hstep; [| discriminate].
    destruct (phagocyte_weigh_step _ _ _ _ _ _ _ _ _ _ _ _ _ _ Hstep)
      as (w0 & p_tot1 & -> & Hw0).
    destruct (IH _ _ _ H) as (ws & -> & -> & Hws).
    exists (w0 :: ws). rewrite <- !List.app_assoc. simpl.
    split; [reflexivity |]. split; [reflexivity |].
    intros [| k] w Hk Hw.
    + inversion Hk; subst. exists ox, oy, oz. split; [reflexivity |]. now apply Hw0.
    + simpl in Hk. exact (Hws k w Hk Hw).
Qed.

(** Scaling keeps a weight of [0.0] at [0.0], or turns it into NaN. *)
Lemma scale_zero_weight (p : list num) (p_tot : num) (i : nat) (w : num) :
  scale p p_tot !! i = Some w -> w <> zero -> w <> NaN ->
  exists w0, p !! i = Some w0 /\ w0 <> zero.
Proof.
  unfold scale. destruct (eqb p_tot zero) eqn:Htot.
  - intros Hw Hz _. eauto.
  - rewrite F64Facts.map_is_fmap, list_lookup_fmap.
    destruct (p !! i) as [w0 |]; simpl; [| discriminate].
    intros Hw Hz Hn. inversion Hw; subst. exists w0. split; [reflexivity |].
    intros ->. destruct p_tot as [y | | |]; simpl in *.
    + destruct (bool_decide_reflect (y = 0%R)) as [Hy | Hy]; [discriminate |].
      apply Hz. unfold zero. f_equal. unfold Rdiv. apply Rmult_0_l.
    + now apply Hz.
    + now apply Hz.
    + now apply Hn.
Qed.

(** X7: with a draw above zero, the chemotaxis step of a phagocyte either
    leaves the cell as it is or puts it at the centre of one of the 27
    candidate voxels, and that voxel is inside the grid and of one of the
    four accepted tissue types. *)
Theorem phagocyte_moves_to_accepted_tissue get_voxel tissue_types molecule
    drift_lambda drift_bias tissue grid (u : R) (cell cell' : CellData) :
  (0 < u)%R ->
  phagocyte_chemotaxis_cell get_voxel tissue_types molecule drift_lambda drift_bias
    tissue grid (Fin u) cell = Some cell' ->
  cell' = cell
  \/ exists ox oy oz nx ny nz t,
       let vox := get_voxel grid (point cell) in
       (ox, oy, oz) ∈ offsets27
       /\ is_valid_voxel grid (mkVoxel (vx vox + ox) (vy vox + oy) (vz vox + oz)) = true
       /\ get3 tissue (vz vox + oz) (vy vox + oy) (vx vox + ox) = Some t
       /\ t ∈ [SURFACTANT tissue_types; BLOOD tissue_types;
               EPITHELIUM tissue_types; PORE tissue_types]
       /\ Py.index (grid_x grid) (vx vox + ox) = Some nx
       /\ Py.index (grid_y grid) (vy vox + oy) = Some ny
       /\ Py.index (grid_z grid) (vz vox + oz) = Some nz
       /\ cell' = update_voxel_index get_voxel grid (set_point cell (mkPoint nx ny nz)).
Proof.
  intros Hu. unfold phagocyte_chemotaxis_cell.
  destruct (Diffusion.foldM _ _ _) as [[[p vox_list] p_tot] |] eqn:Hw; [| discriminate].
  simpl.
  destruct (phagocyte_weigh_entries _ _ _ _ _ _ _ _ _ _ _ _ _ _ Hw)
    as (ws & Hp & Hvl & Hws).
  simpl in Hp, Hvl. subst ws vox_list.
  destruct (select_from (Fin u) zero 0 (scale p p_tot)) as [i |] eqn:Hsel.
  2:{ intros H; inversion H. now left. }
  assert (Hc : leb (Fin u) zero = false) by num_crush.
  destruct (select_from_weight _ _ _ _ _ Hc Hsel) as (_ & w & Hwi & Hz & Hn).
  rewrite Nat.sub_0_r in Hwi.
  destruct (scale_zero_weight _ _ _ _ Hwi Hz Hn) as (w0 & Hw0 & Hz0).
  destruct (Hws _ _ Hw0 Hz0) as (ox & oy & oz & Ho & Hvalid & t & Ht & Hin).
  rewrite Ho. simpl.
  destruct (Py.index (grid_x grid) _) as [nx |] eqn:Hx; simpl; [| discriminate].
  destruct (Py.index (grid_y grid) _) as [ny |] eqn:Hy; simpl; [| discriminate].
  destruct (Py.index (grid_z grid) _) as [nz |] eqn:Hz'; simpl; [| discriminate].
  intros H; inversion H. right. exists ox, oy, oz, nx, ny, nz, t.
  cbv zeta. repeat split; try assumption.
  apply list_elem_of_lookup. eauto.
Qed.


(** The weights the phagocyte routine gives the candidates of a cell of
    the first voxel of [two_voxel_sim_grid]. *)
Lemma phagocyte_weights_first_voxel :
  Diffusion.foldM
    (phagocyte_weigh tissue_type_values no_iron (Fin 10) (Fin 0) surfactant_tissue
       two_voxel_sim_grid (mkVoxel 0 0 0))
    ([], [], zero) offsets27
  = Some (two_candidates, offsets27, Fin (0 + 1 + 1)).
Proof.
  unfold offsets27, steps. simpl.
  unfold phagocyte_weigh, is_valid_voxel. evaluate.
  rewrite !ChemotaxisFacts.logistic_no_bias. evaluate. reflexivity.
Qed.

(** A phagocyte of the first voxel that draws 0.75 moves to the centre of
    the second voxel. *)
Lemma phagocyte_moves :
  phagocyte_chemotaxis_cell get_voxel_by_x tissue_type_values no_iron (Fin 10) (Fin 0)
    surfactant_tissue two_voxel_sim_grid (Fin (3 / 4)) first_macrophage
  = Some (update_voxel_index get_voxel_by_x two_voxel_sim_grid
            (set_point first_macrophage
               (mkPoint (Fin (3 / 4)) (Fin (1 / 4)) (Fin (1 / 4))))).
Proof.
  unfold phagocyte_chemotaxis_cell.
  rewrite (ChemotaxisFacts.first_voxel first_macrophage (1 / 10) (1 / 10) (1 / 10)
             eq_refl ltac:(lra)).
  rewrite phagocyte_weights_first_voxel. simpl.
  rewrite ChemotaxisFacts.select_three_quarters. reflexivity.
Qed.

Lemma phagocyte_moves_to_accepted_tissue_witness :
  update_voxel_index get_voxel_by_x two_voxel_sim_grid
    (set_point first_macrophage (mkPoint (Fin (3 / 4)) (Fin (1 / 4)) (Fin (1 / 4))))
  = first_macrophage
  \/ exists ox oy oz nx ny nz t,
       let vox := get_voxel_by_x two_voxel_sim_grid (point first_macrophage) in
       (ox, oy, oz) ∈ offsets27
       /\ is_valid_voxel two_voxel_sim_grid
            (mkVoxel (vx vox + ox) (vy vox + oy) (vz vox + oz)) = true
       /\ get3 surfactant_tissue (vz vox + oz) (vy vox + oy) (vx vox + ox) = Some t
       /\ t ∈ [SURFACTANT tissue_type_values; BLOOD tissue_type_values;
               EPITHELIUM tissue_type_values; PORE tissue_type_values]
       /\ Py.index (grid_x two_voxel_sim_grid) (vx vox + ox) = Some nx
       /\ Py.index (grid_y two_voxel_sim_grid) (vy vox + oy) = Some ny
       /\ Py.index (grid_z two_voxel_sim_grid) (vz vox + oz) = Some nz
       /\ update_voxel_index get_voxel_by_x two_voxel_sim_grid
            (set_point first_macrophage
               (mkPoint (Fin (3 / 4)) (Fin (1 / 4)) (Fin (1 / 4))))
          = update_voxel_index get_voxel_by_x two_voxel_sim_grid
              (set_point first_macrophage (mkPoint nx ny nz)).
Proof.
  apply (phagocyte_moves_to_accepted_tissue get_voxel_by_x tissue_type_values no_iron
           (Fin 10) (Fin 0) surfactant_tissue two_voxel_sim_grid (3 / 4)
           first_macrophage).
  - lra.
  - exact phagocyte_moves.
Defined.


(** The indices listed by [alive] are those of the cells that are not dead. *)
Lemma elem_of_alive (cs : list CellData) (i : nat) :
  i ∈ alive cs <-> exists c, cs !! i = Some c /\ dead c = false.
Proof.
  unfold alive. rewrite list_elem_of_omap. split.
  - intros ([j c] & Hin & Hf).
    apply list_elem_of_lookup in Hin as [k Hk].
    apply lookup_zip_with_Some in Hk as (j' & c' & Heq & Hj & Hc).
    inversion Heq; subst j' c'. apply lookup_seq in Hj as [-> _].
    destruct (dead c) eqn:Hd; [discriminate |]. inversion Hf; subst.
    exists c. split; [exact Hc | exact Hd].
  - intros (c & Hc & Hd). exists (i, c). split.
    + apply list_elem_of_lookup. exists i. apply lookup_zip_with_Some.
      exists i, c. split; [reflexivity |]. split; [| exact Hc].
      apply lookup_seq. split; [reflexivity |].
      apply lookup_lt_is_Some. eauto.
    + simpl. now rewrite Hd.
Qed.

(** What a loop over cells keeps: a relation that the body keeps and that
    is reflexive and transitive holds between every cell before and after,
    the table keeps its length, and the cells that are not listed stay as
    they are. *)
Lemma for_each_cell_frame
    (body : Random.generator -> CellData -> option (CellData * Random.generator))
    (Rel : CellData -> CellData -> Prop) :
  (forall c, Rel c c) ->
  (forall a b c, Rel a b -> Rel b c -> Rel a c) ->
  (forall g c c' g', body g c = Some (c', g') -> Rel c c') ->
  forall indices cs g cs' g',
    for_each_cell body indices cs g = Some (cs', g') ->
    length cs' = length cs
    /\ forall i c, cs !! i = Some c ->
         exists c', cs' !! i = Some c' /\ Rel c c' /\ (i ∉ indices -> c' = c).
Proof.
  intros Hrefl Htrans Hbody.
  induction indices as [| index indices IH]; intros cs g cs' g' H.
  - simpl in H. inversion H; subst. split; [reflexivity |]. intros i c Hc. eauto.
  - cbn [for_each_cell] in H.
    destruct (cs !! index) as [cell |] eqn:Hcell; simpl in H; [| discriminate].
    destruct (body g cell) as [[cell1 g1] |] eqn:Hb; simpl in H; [| discriminate].
    destruct (IH _ _ _ _ H) as [Hlen Hall].
    rewrite length_insert in Hlen. split; [exact Hlen |].
    intros i c Hc. destruct (decide (i = index)) as [-> | Hne].
    + rewrite Hcell in Hc. inversion Hc; subst c.
      destruct (Hall index cell1) as (c' & Hc' & Hr & _).
      { apply list_lookup_insert_eq. apply lookup_lt_is_Some. eauto. }
      exists c'. split; [exact Hc' |]. split.
      * eapply Htrans; [eapply Hbody; exact Hb | exact Hr].
      * intros Hnot. contradiction Hnot. left.
    + destruct (Hall i c) as (c' & Hc' & Hr & Hsame).
      { rewrite list_lookup_insert_ne by congruence. exact Hc. }
      exists c'. split; [exact Hc' |]. split; [exact Hr |].
      intros Hnot. apply Hsame. intros Hin. apply Hnot. now right.
Qed.

Lemma same_cell_state_refl (c : CellData) : same_cell_state c c.
Proof. repeat split. Qed.

Lemma same_cell_state_trans (a b c : CellData) :
  same_cell_state a b -> same_cell_state b c -> same_cell_state a c.
Proof. unfold same_cell_state. intros (? & ? & ?) (? & ? & ?). repeat split; congruence. Qed.

Lemma phagocyte_chemotaxis_cell_frame get_voxel tissue_types molecule drift_lambda
    drift_bias tissue grid prob (cell cell' : CellData) :
  phagocyte_chemotaxis_cell get_voxel tissue_types molecule drift_lambda drift_bias
    tissue grid prob cell = Some cell' ->
  same_cell_state cell cell'.
Proof.
  unfold phagocyte_chemotaxis_cell.
  destruct (Diffusion.foldM _ _ _) as [[[p vox_list] p_tot] |]; simpl; [| discriminate].
  destruct (select_from _ _ _ _) as [i |].
  2:{ intros H; inversion H. apply same_cell_state_refl. }
  destruct (vox_list !! i) as [[[ox oy] oz] |]; simpl; [| discriminate].
  destruct (Py.index (grid_x grid) _); simpl; [| discriminate].
  destruct (Py.index (grid_y grid) _); simpl; [| discriminate].
  destruct (Py.index (grid_z grid) _); simpl; [| discriminate].
  intros H; inversion H. repeat split.
Qed.

Lemma macrophage_chemotaxis_cell_frame get_voxel tissue_types molecule prob drift_lambda
    drift_bias tissue grid (cell cell' : CellData) :
  macrophage_chemotaxis_cell get_voxel tissue_types molecule prob drift_lambda drift_bias
    tissue grid cell = Some cell' ->
  same_cell_state cell cell'.
Proof.
  unfold macrophage_chemotaxis_cell.
  destruct (Diffusion.foldM _ _ _) as [[[[p vox_list] p_tot] xy] |]; simpl;
    [| discriminate].
  destruct (select_from _ _ _ _) as [i |].
  2:{ intros H; inversion H. apply same_cell_state_refl. }
  destruct (vox_list !! i) as [[[ox oy] oz] |]; simpl; [| discriminate].
  intros H; inversion H. repeat split.
Qed.

(** X8: a call of the chemotaxis routine of the phagocytes that returns
    keeps the number of cells, leaves every dead cell exactly as it was,
    changes neither the status, the iron pool nor the boolean network of
    any cell, and consumes one random draw for each living cell. *)
Theorem phagocyte_chemotaxis_frame get_voxel tissue_types molecule drift_lambda
    drift_bias tissue grid (cs cs' : list CellData) (g g' : Random.generator) :
  phagocyte_chemotaxis get_voxel tissue_types molecule drift_lambda drift_bias tissue
    grid cs g = Some (cs', g') ->
  length cs' = length cs
  /\ (forall i c, cs !! i = Some c ->
        exists c', cs' !! i = Some c'
          /\ dead c' = dead c /\ iron_pool c' = iron_pool c
          /\ boolean_network c' = boolean_network c
          /\ (dead c = true -> c' = c))
  /\ Random.position g' = (Random.position g + length (alive cs))%nat
  /\ Random.stream g' = Random.stream g.
Proof.
  intros H.
  pose proof (ChemotaxisFacts.phagocyte_chemotaxis_draws _ _ _ _ _ _ _ _ _ _ _ H)
    as [Hpos Hstream].
  unfold phagocyte_chemotaxis in H.
  apply (for_each_cell_frame _ same_cell_state same_cell_state_refl
           same_cell_state_trans) in H as [Hlen Hall].
  - split; [exact Hlen |]. split; [| split; assumption].
    intros i c Hc. destruct (Hall i c Hc) as (c' & Hc' & (Hd & Hi & Hb) & Hsame).
    exists c'. repeat split; try assumption.
    intros Hdead. apply Hsame. rewrite elem_of_alive.
    intros (c0 & Hc0 & Hd0). congruence.
  - intros g0 c c' g1. simpl.
    destruct (phagocyte_chemotaxis_cell _ _ _ _ _ _ _ _ c) as [c1 |] eqn:Hcell;
      simpl; [| discriminate].
    intros Hb; inversion Hb; subst. eapply phagocyte_chemotaxis_cell_frame. exact Hcell.
Qed.


(** One phagocyte in the first voxel of [two_voxel_sim_grid], with the
    draw 0.75. *)
Lemma phagocyte_chemotaxis_one_cell :
  phagocyte_chemotaxis get_voxel_by_x tissue_type_values no_iron (Fin 10) (Fin 0)
    surfactant_tissue two_voxel_sim_grid [first_macrophage] sample_generator
  = Some ([update_voxel_index get_voxel_by_x two_voxel_sim_grid
             (set_point first_macrophage
                (mkPoint (Fin (3 / 4)) (Fin (1 / 4)) (Fin (1 / 4))))],
          Random.mkGenerator (Random.stream sample_generator) 1).
Proof.
  unfold phagocyte_chemotaxis. simpl.
  rewrite phagocyte_moves. reflexivity.
Qed.

Lemma phagocyte_chemotaxis_frame_witness :
  let cs := [first_macrophage] in
  let cs' := [update_voxel_index get_voxel_by_x two_voxel_sim_grid
                (set_point first_macrophage
                   (mkPoint (Fin (3 / 4)) (Fin (1 / 4)) (Fin (1 / 4))))] in
  let g := sample_generator in
  let g' := Random.mkGenerator (Random.stream sample_generator) 1 in
  length cs' = length cs
  /\ (forall i c, cs !! i = Some c ->
        exists c', cs' !! i = Some c'
          /\ dead c' = dead c /\ iron_pool c' = iron_pool c
          /\ boolean_network c' = boolean_network c
          /\ (dead c = true -> c' = c))
  /\ Random.position g' = (Random.position g + length (alive cs))%nat
  /\ Random.stream g' = Random.stream g.
Proof.
  exact (phagocyte_chemotaxis_frame get_voxel_by_x tissue_type_values no_iron (Fin 10)
           (Fin 0) surfactant_tissue two_voxel_sim_grid _ _ _ _
           phagocyte_chemotaxis_one_cell).
Defined.


Lemma norm_index_lt (n : nat) (i : Z) (k : nat) :
  norm_index n i = Some k -> (k < n)%nat.
Proof.
  unfold norm_index. repeat case_decide; intros Hk; inversion Hk; lia.
Qed.

(** Reading back the item that was just stored. *)
Lemma index_insert_same {A} (l : list A) (i : Z) (n : nat) (v : A) :
  norm_index (length l) i = Some n -> Py.index (<[n := v]> l) i = Some v.
Proof.
  intros Hn. unfold Py.index. rewrite length_insert, Hn. simpl.
  apply list_lookup_insert_eq. eapply norm_index_lt. exact Hn.
Qed.

(** [interact] stores [False] in the transferrin node of the boolean
    network just before it reads it: the enhancement factor is never
    used. *)
Lemma interact_cell_enhance get_voxel uptake enhance enhance' grid iron g cell :
  interact_cell get_voxel uptake enhance grid iron g cell
  = interact_cell get_voxel uptake enhance' grid iron g cell.
Proof.
  unfold interact_cell.
  destruct (get3 iron _ _ _) as [iron_amount |]; simpl; [| reflexivity].
  destruct (_ : option (Array3 num * CellData)) as [[iron1 cell1] |]; simpl;
    [| reflexivity].
  destruct (norm_index (length (boolean_network cell1)) 0) as [n_fpn |]; simpl;
    [| reflexivity].
  destruct (norm_index (length (<[n_fpn := true]> (boolean_network cell1))) 1)
    as [n_tf |] eqn:Htf; simpl; [| reflexivity].
  destruct (Py.index _ 0) as [[|] |]; simpl; try reflexivity.
  rewrite (index_insert_same _ _ _ false Htf). reflexivity.
Qed.

(** X9: the loop of [interact] gives the same iron field, the same cells
    and the same generator whatever the value of [TF_ENHANCE]. *)
Theorem interact_ignores_tf_enhance get_voxel uptake enhance enhance' grid indices
    iron cs g :
  interact_loop get_voxel uptake enhance grid indices iron cs g
  = interact_loop get_voxel uptake enhance' grid indices iron cs g.
Proof.
  revert iron cs g. induction indices as [| index indices IH]; intros iron cs g.
  - reflexivity.
  - cbn [interact_loop]. destruct (cs !! index) as [cell |]; simpl; [| reflexivity].
    rewrite (interact_cell_enhance get_voxel uptake enhance enhance').
    destruct (interact_cell _ _ _ _ _ _ _) as [[[iron1 cell1] g1] |]; simpl;
      [| reflexivity].
    apply IH.
Qed.


(** Storing into a position that can be read succeeds, and the stored value
    is read back. *)
Lemma set3_get3 {A} (a : Array3 A) (k j i : Z) (old v : A) :
  get3 a k j i = Some old ->
  exists a', set3 a k j i v = Some a' /\ get3 a' k j i = Some v.
Proof.
  unfold get3, set3. destruct (a3_shape a) as [[n0 n1] n2] eqn:Hs.
  destruct (norm_index n0 k) as [k' |] eqn:Hk; simpl; [| discriminate].
  destruct (norm_index n1 j) as [j' |] eqn:Hj; simpl; [| discriminate].
  destruct (norm_index n2 i) as [i' |] eqn:Hi; simpl; [| discriminate].
  intros Hold. eexists. split; [reflexivity |]. simpl.
  rewrite Hk, Hj, Hi. simpl. apply list_lookup_insert_eq.
  apply lookup_lt_is_Some. eauto.
Qed.

(** The two stores into the boolean network and the two reads that follow. *)
Lemma network_update (bn : list bool) :
  (2 <= length bn)%nat ->
  norm_index (length bn) 0 = Some 0%nat
  /\ norm_index (length (<[0%nat := true]> bn)) 1 = Some 1%nat
  /\ Py.index (<[1%nat := false]> (<[0%nat := true]> bn)) 0 = Some true
  /\ Py.index (<[1%nat := false]> (<[0%nat := true]> bn)) 1 = Some false.
Proof.
  intros Hlen. destruct bn as [| b0 [| b1 bn]]; simpl in Hlen; try lia.
  unfold Py.index. simpl length.
  rewrite !LaplacianFacts.norm_index_in_range by lia. repeat split.
Qed.

(** The release step of [interact]: the cell gives the fraction
    [min(uptake, 1)] of its pool back to its voxel. *)
Lemma interact_release (get_voxel : RectangularGrid -> Point -> Voxel) (u : R)
    (enhance : num) (grid : RectangularGrid) (cell0 : CellData)
    (iron : Array3 num) (g : Random.generator) (cell : CellData) (a q : R) :
  let vox := get_voxel grid (point cell0) in
  get3 iron (vz vox) (vy vox) (vx vox) = Some (Fin a) ->
  iron_pool cell = Fin q ->
  (2 <= length (boolean_network cell))%nat ->
  exists iron' cell' a' q',
    (let fpn := 0%Z in
     let tf := 1%Z in
     n_fpn ← norm_index (length (boolean_network cell)) fpn;
     let cell := set_boolean_network cell (<[n_fpn := true]> (boolean_network cell)) in
     n_tf ← norm_index (length (boolean_network cell)) tf;
     let cell := set_boolean_network cell (<[n_tf := false]> (boolean_network cell)) in
     b_fpn ← Py.index (boolean_network cell) fpn;
     if (b_fpn : bool) then
       b_tf ← Py.index (boolean_network cell) tf;
       let enhancer := if (b_tf : bool) then enhance else one in
       let qtty :=
         mul (iron_pool cell)
             (if gtb (mul (Fin u) enhancer) one then one else mul (Fin u) enhancer) in
       old ← get3 iron (vz vox) (vy vox) (vx vox);
       iron ← set3 iron (vz vox) (vy vox) (vx vox) (add old qtty);
       Some (iron, set_iron_pool cell (sub (iron_pool cell) qtty), g)
     else Some (iron, cell, g)) = Some (iron', cell', g)
    /\ get3 iron' (vz vox) (vy vox) (vx vox) = Some (Fin a')
    /\ iron_pool cell' = Fin q'
    /\ (a' + q' = a + q)%R
    /\ ((0 <= u)%R -> (0 <= a)%R -> (0 <= q)%R -> (0 <= a')%R /\ (0 <= q')%R)
    /\ point cell' = point cell /\ dead cell' = dead cell.
Proof.
  intros vox Ha Hq Hlen.
  destruct (network_update _ Hlen) as (H0 & H1 & Hfpn & Htf).
  cbv zeta. rewrite H0. simpl. rewrite H1. simpl. rewrite Hfpn. simpl.
  rewrite Htf. simpl. rewrite Ha. simpl. rewrite Hq.
  set (f := if bool_decide (1 < u * 1)%R then one else Fin (u * 1)).
  assert (Hf : exists fr, f = Fin fr /\ ((0 <= u)%R -> (0 <= fr <= 1)%R)).
  { subst f. destruct (bool_decide_reflect (1 < u * 1)%R).
    - exists 1%R. split; [reflexivity | lra].
    - exists (u * 1)%R. split; [reflexivity | lra]. }
  destruct Hf as (fr & -> & Hfr).
  rewrite !mul_Fin, sub_Fin.
  destruct (set3_get3 iron (vz vox) (vy vox) (vx vox) (Fin a) (Fin (a + q * fr)) Ha)
    as (iron' & Hset & Hget).
  fold vox. rewrite Hset. simpl.
  eexists _, _, _, _. split; [reflexivity |]. split; [exact Hget |].
  split; [reflexivity |]. split; [lra |]. split; [| split; reflexivity].
  intros Hu Ha0 Hq0. specialize (Hfr Hu). split; nra.
Qed.


(** X10: on a cell whose voxel holds a finite amount of iron, whose pool
    is finite and whose boolean network has at least two nodes, the body of
    the loop of [interact] returns, consumes one random draw, leaves the
    position and the status of the cell alone, and conserves iron: what
    the voxel and the pool hold together is unchanged.  With an uptake
    fraction in [[0, 1]] neither of the two goes below zero. *)
Theorem interact_cell_conserves_iron (get_voxel : RectangularGrid -> Point -> Voxel)
    (u : R) (enhance : num) (grid : RectangularGrid) (iron : Array3 num)
    (g : Random.generator) (cell : CellData) (a q : R) :
  let vox := get_voxel grid (point cell) in
  get3 iron (vz vox) (vy vox) (vx vox) = Some (Fin a) ->
  iron_pool cell = Fin q ->
  (2 <= length (boolean_network cell))%nat ->
  exists iron' cell' a' q',
    interact_cell get_voxel (Fin u) enhance grid iron g cell
    = Some (iron', cell', Random.mkGenerator (Random.stream g) (S (Random.position g)))
    /\ get3 iron' (vz vox) (vy vox) (vx vox) = Some (Fin a')
    /\ iron_pool cell' = Fin q'
    /\ (a' + q' = a + q)%R
    /\ ((0 <= u <= 1)%R -> (0 <= a)%R -> (0 <= q)%R -> (0 <= a')%R /\ (0 <= q')%R)
    /\ point cell' = point cell /\ dead cell' = dead cell.
Proof.
  intros vox Ha Hq Hlen. unfold interact_cell, Random.random. fold vox. rewrite Ha.
  cbn [mbind option_bind].
  set (g1 := Random.mkGenerator (Random.stream g) (S (Random.position g))).
  destruct (gtb _ _).
  - rewrite Hq, !mul_Fin, add_Fin, sub_Fin.
    destruct (set3_get3 iron (vz vox) (vy vox) (vx vox) (Fin a) (Fin (a - u * a)) Ha)
      as (iron1 & Hset & Hget).
    rewrite Hset. cbn [mbind option_bind].
    destruct (interact_release get_voxel u enhance grid cell iron1 g1
                (set_iron_pool cell (Fin (q + u * a))) (a - u * a) (q + u * a)
                Hget eq_refl Hlen)
      as (iron' & cell' & a' & q' & Hrun & Hget' & Hpool & Hsum & Hpos & Hpt & Hd).
    exists iron', cell', a', q'. split; [exact Hrun |]. split; [exact Hget' |].
    split; [exact Hpool |]. split; [lra |]. split; [| split; assumption].
    intros Hu Ha0 Hq0. apply Hpos; nra.
  - destruct (interact_release get_voxel u enhance grid cell iron g1 cell a q
                Ha Hq Hlen)
      as (iron' & cell' & a' & q' & Hrun & Hget' & Hpool & Hsum & Hpos & Hpt & Hd).
    exists iron', cell', a', q'. split; [exact Hrun |]. split; [exact Hget' |].
    split; [exact Hpool |]. split; [exact Hsum |]. split; [| split; assumption].
    intros Hu Ha0 Hq0. apply Hpos; lra.
Qed.

Lemma interact_cell_conserves_iron_witness :
  let vox := get_voxel_by_x two_voxel_sim_grid (point first_macrophage) in
  exists iron' cell' a' q',
    interact_cell get_voxel_by_x (Fin (1 / 10)) (Fin 1) two_voxel_sim_grid no_iron
      sample_generator first_macrophage
    = Some (iron', cell',
            Random.mkGenerator (Random.stream sample_generator)
              (S (Random.position sample_generator)))
    /\ get3 iron' (vz vox) (vy vox) (vx vox) = Some (Fin a')
    /\ iron_pool cell' = Fin q'
    /\ (a' + q' = 0 + 0)%R
    /\ ((0 <= 1 / 10 <= 1)%R -> (0 <= 0)%R -> (0 <= 0)%R -> (0 <= a')%R /\ (0 <= q')%R)
    /\ point cell' = point first_macrophage /\ dead cell' = dead first_macrophage.
Proof.
  apply (interact_cell_conserves_iron get_voxel_by_x (1 / 10) (Fin 1) two_voxel_sim_grid
           no_iron sample_generator first_macrophage 0 0).
  - rewrite (ChemotaxisFacts.first_voxel first_macrophage (1 / 10) (1 / 10) (1 / 10)
               eq_refl ltac:(lra)).
    reflexivity.
  - reflexivity.
  - simpl. lia.
Defined.


Lemma set3_shape {A} (a a' : Array3 A) (k j i : Z) (v : A) :
  set3 a k j i v = Some a' -> a3_shape a' = a3_shape a.
Proof.
  unfold set3. destruct (a3_shape a) as [[n0 n1] n2] eqn:Hs.
  destruct (norm_index n0 k); simpl; [| discriminate].
  destruct (norm_index n1 j); simpl; [| discriminate].
  destruct (norm_index n2 i); simpl; [| discriminate].
  intros H; inversion H. reflexivity.
Qed.

(** The body of the loop of [interact] moves no cell, changes no status
    and keeps the shape of the iron field. *)
Lemma interact_cell_frame get_voxel uptake enhance grid iron g cell iron' cell' g' :
  interact_cell get_voxel uptake enhance grid iron g cell = Some (iron', cell', g') ->
  a3_shape iron' = a3_shape iron /\ dead cell' = dead cell /\ point cell' = point cell.
Proof.
  unfold interact_cell, Random.random.
  destruct (get3 iron _ _ _) as [iron_amount |]; cbn [mbind option_bind]; [| discriminate].
  set (first := if gtb _ _ then _ else _).
  assert (Hfirst : forall iron1 cell1, first = Some (iron1, cell1) ->
            a3_shape iron1 = a3_shape iron /\ dead cell1 = dead cell
            /\ point cell1 = point cell).
  { subst first. intros iron1 cell1. destruct (gtb _ _).
    - destruct (set3 _ _ _ _ _) as [iron2 |] eqn:Hset; cbn [mbind option_bind];
        [| discriminate].
      intros H; inversion H; subst. split; [| split; reflexivity].
      eapply set3_shape. exact Hset.
    - intros H; inversion H; subst. repeat split. }
  destruct first as [[iron1 cell1] |]; cbn [mbind option_bind]; [| discriminate].
  destruct (Hfirst _ _ eq_refl) as (Hs1 & Hd1 & Hp1).
  destruct (norm_index _ 0) as [n_fpn |]; cbn [mbind option_bind]; [| discriminate].
  destruct (norm_index _ 1) as [n_tf |]; cbn [mbind option_bind]; [| discriminate].
  destruct (Py.index _ 0) as [[|] |]; cbn [mbind option_bind]; [| | discriminate].
  - destruct (Py.index _ 1) as [b_tf |]; cbn [mbind option_bind]; [| discriminate].
    destruct (get3 iron1 _ _ _) as [old |]; cbn [mbind option_bind]; [| discriminate].
    destruct (set3 iron1 _ _ _ _) as [iron2 |] eqn:Hset; cbn [mbind option_bind];
      [| discriminate].
    intros H; inversion H; subst. simpl. split; [| split; assumption].
    rewrite <- Hs1. eapply set3_shape. exact Hset.
  - intros H; inversion H; subst. simpl. repeat split; assumption.
Qed.

Lemma interact_loop_frame get_voxel uptake enhance grid indices :
  forall iron cs g iron' cs' g',
    interact_loop get_voxel uptake enhance grid indices iron cs g
    = Some (iron', cs', g') ->
    a3_shape iron' = a3_shape iron /\ length cs' = length cs
    /\ forall i c, cs !! i = Some c ->
         exists c', cs' !! i = Some c' /\ dead c' = dead c /\ point c' = point c
           /\ (i ∉ indices -> c' = c).
Proof.
  induction indices as [| index indices IH]; intros iron cs g iron' cs' g' H.
  - simpl in H. inversion H; subst. repeat split. intros i c Hc. eauto.
  - cbn [interact_loop] in H.
    destruct (cs !! index) as [cell |] eqn:Hcell; simpl in H; [| discriminate].
    destruct (interact_cell _ _ _ _ _ _ _) as [[[iron1 cell1] g1] |] eqn:Hb;
      simpl in H; [| discriminate].
    destruct (interact_cell_frame _ _ _ _ _ _ _ _ _ _ Hb) as (Hs1 & Hd1 & Hp1).
    destruct (IH _ _ _ _ _ _ H) as (Hs & Hlen & Hall).
    rewrite length_insert in Hlen. split; [congruence |]. split; [exact Hlen |].
    intros i c Hc. destruct (decide (i = index)) as [-> | Hne].
    + rewrite Hcell in Hc. inversion Hc; subst c.
      destruct (Hall index cell1) as (c' & Hc' & Hd & Hp & _).
      { apply list_lookup_insert_eq. apply lookup_lt_is_Some. eauto. }
      exists c'. split; [exact Hc' |]. split; [congruence |]. split; [congruence |].
      intros Hnot. contradiction Hnot. left.
    + destruct (Hall i c) as (c' & Hc' & Hd & Hp & Hsame).
      { rewrite list_lookup_insert_ne by congruence. exact Hc. }
      exists c'. split; [exact Hc' |]. split; [exact Hd |]. split; [exact Hp |].
      intros Hnot. apply Hsame. intros Hin. apply Hnot. now right.
Qed.

(** X11: a call of [Macrophage.advance] that returns leaves the tissue,
    the grid and the four parameters as they were, keeps the shape of the
    iron field and the number of cells, changes the status of no cell and
    leaves every dead cell exactly as it was; it consumes one random draw
    for each living cell and one more. *)
Theorem macrophage_advance_frame get_voxel tissue_types (st st' : State)
    (g g' : Random.generator) :
  macrophage_advance get_voxel tissue_types st g = Some (st', g') ->
  lung_tissue st' = lung_tissue st /\ grid st' = grid st
  /\ MPH_UPTAKE_QTTY (macrophage st') = MPH_UPTAKE_QTTY (macrophage st)
  /\ TF_ENHANCE (macrophage st') = TF_ENHANCE (macrophage st)
  /\ DRIFT_LAMBDA (macrophage st') = DRIFT_LAMBDA (macrophage st)
  /\ DRIFT_BIAS (macrophage st') = DRIFT_BIAS (macrophage st)
  /\ a3_shape (iron_concentration st') = a3_shape (iron_concentration st)
  /\ length (cells (macrophage st')) = length (cells (macrophage st))
  /\ (forall i c, cells (macrophage st) !! i = Some c ->
        exists c', cells (macrophage st') !! i = Some c'
          /\ dead c' = dead c /\ (dead c = true -> c' = c))
  /\ g' = Random.mkGenerator (Random.stream g)
            (Random.position g + length (alive (cells (macrophage st))) + 1).
Proof.
  intros H.
  pose proof (ChemotaxisFacts.macrophage_advance_draws _ _ _ _ _ _ H) as Hdraws.
  unfold macrophage_advance, interact in H.
  destruct (interact_loop _ _ _ _ _ _ _ _) as [[[iron1 cs1] g1] |] eqn:Hloop;
    cbn [mbind option_bind] in H; [| discriminate].
  cbn [macrophage iron_concentration lung_tissue grid cells MPH_UPTAKE_QTTY TF_ENHANCE
       DRIFT_LAMBDA DRIFT_BIAS] in H.
  destruct (Random.random g1) as [prob g2].
  destruct (macrophage_chemotaxis _ _ _ _ _ _ _ _ _ _) as [[cs2 g3] |] eqn:Hchem;
    cbn [mbind option_bind] in H; [| discriminate].
  inversion H; subst st' g'. clear H. simpl.
  destruct (interact_loop_frame _ _ _ _ _ _ _ _ _ _ _ Hloop) as (Hs & Hlen1 & Hall1).
  unfold macrophage_chemotaxis in Hchem.
  apply (for_each_cell_frame _ same_cell_state same_cell_state_refl
           same_cell_state_trans) in Hchem as [Hlen2 Hall2].
  2:{ intros g0 c c' g4.
      destruct (macrophage_chemotaxis_cell _ _ _ _ _ _ _ _ c) as [c1 |] eqn:Hcell;
        simpl; [| discriminate].
      intros Hb; inversion Hb; subst. eapply macrophage_chemotaxis_cell_frame.
      exact Hcell. }
  repeat (split; [first [reflexivity | congruence] |]).
  split; [| reflexivity].
  intros i c Hc.
  destruct (Hall1 i c Hc) as (c1 & Hc1 & Hd1 & _ & Hsame1).
  destruct (Hall2 i c1 Hc1) as (c2 & Hc2 & (Hd2 & _ & _) & Hsame2).
  exists c2. split; [exact Hc2 |]. split; [congruence |].
  intros Hdead.
  assert (c1 = c) as ->.
  { apply Hsame1. rewrite elem_of_alive. intros (c0 & Hc0 & Hd0). congruence. }
  apply Hsame2. rewrite elem_of_alive. intros (c0 & Hc0 & Hd0). congruence.
Qed.


(** [Macrophage.advance] on one macrophage of the first voxel: the cell
    takes up nothing, then moves one voxel along x on the draw 0.75. *)
Lemma macrophage_advance_one_cell :
  macrophage_advance get_voxel_by_x tissue_type_values one_macrophage_state
    sample_generator
  = Some (mkState
            (mkMacrophageState [moved_by 1 first_macrophage]
               (Fin (1 / 10)) (Fin 1) (Fin 10) (Fin 0))
            no_iron surfactant_tissue two_voxel_sim_grid,
          Random.mkGenerator (Random.stream sample_generator) 2).
Proof.
  assert (H1 : point first_macrophage
               = mkPoint (Fin (1 / 10)) (Fin (1 / 10)) (Fin (1 / 10))) by reflexivity.
  unfold macrophage_advance, interact, one_macrophage_state.
  cbn [macrophage cells MPH_UPTAKE_QTTY TF_ENHANCE DRIFT_LAMBDA DRIFT_BIAS
       iron_concentration lung_tissue grid].
  change (alive [first_macrophage]) with [0%nat].
  cbn [interact_loop lookup list_lookup mbind option_bind].
  rewrite (ChemotaxisFacts.interact_cell_idle first_macrophage _ _ _ sample_generator H1)
    by (try reflexivity; simpl; lra).
  cbn [mbind option_bind list_insert insert].
  change (<[0%nat := first_macrophage]> [first_macrophage]) with [first_macrophage].
  cbn [interact_loop mbind option_bind macrophage cells MPH_UPTAKE_QTTY TF_ENHANCE
       DRIFT_LAMBDA DRIFT_BIAS iron_concentration lung_tissue grid].
  unfold Random.random, sample_generator.
  cbn [Random.stream Random.position].
  change (if decide (1%nat = 3%nat) then (1 / 4)%R else (3 / 4)%R) with (3 / 4)%R.
  unfold macrophage_chemotaxis.
  change (alive [first_macrophage]) with [0%nat].
  cbn [for_each_cell lookup list_lookup mbind option_bind].
  rewrite (ChemotaxisFacts.macrophage_moves first_macrophage _ _ _ H1) by lra.
  reflexivity.
Qed.

Lemma macrophage_advance_frame_witness :
  let st := one_macrophage_state in
  let st' := mkState
               (mkMacrophageState [moved_by 1 first_macrophage]
                  (Fin (1 / 10)) (Fin 1) (Fin 10) (Fin 0))
               no_iron surfactant_tissue two_voxel_sim_grid in
  let g := sample_generator in
  let g' := Random.mkGenerator (Random.stream sample_generator) 2 in
  lung_tissue st' = lung_tissue st /\ grid st' = grid st
  /\ MPH_UPTAKE_QTTY (macrophage st') = MPH_UPTAKE_QTTY (macrophage st)
  /\ TF_ENHANCE (macrophage st') = TF_ENHANCE (macrophage st)
  /\ DRIFT_LAMBDA (macrophage st') = DRIFT_LAMBDA (macrophage st)
  /\ DRIFT_BIAS (macrophage st') = DRIFT_BIAS (macrophage st)
  /\ a3_shape (iron_concentration st') = a3_shape (iron_concentration st)
  /\ length (cells (macrophage st')) = length (cells (macrophage st))
  /\ (forall i c, cells (macrophage st) !! i = Some c ->
        exists c', cells (macrophage st') !! i = Some c'
          /\ dead c' = dead c /\ (dead c = true -> c' = c))
  /\ g' = Random.mkGenerator (Random.stream g)
            (Random.position g + length (alive (cells (macrophage st))) + 1).
Proof.
  exact (macrophage_advance_frame get_voxel_by_x tissue_type_values _ _ _ _
           macrophage_advance_one_cell).
Defined.


(** One iteration of the innermost weight loop of the macrophage routine:
    it lists the current values of the loop variables as an offset, tests
    the voxel at that offset, and leaves the voxel coordinates in [x] and
    [y].  The weight differs from [0.0] only if the tissue there is the
    value of the [or] chain. *)
Lemma macrophage_weigh_step tissue_types molecule drift_lambda drift_bias
    tissue grid vox p vox_list p_tot x y z acc :
  macrophage_weigh tissue_types molecule drift_lambda drift_bias tissue grid vox
    (p, vox_list, p_tot, (x, y)) z = Some acc ->
  exists w p_tot',
    acc = (p ++ [w], vox_list ++ [(x, y, z)], p_tot', ((vx vox + x)%Z, (vy vox + y)%Z))
    /\ (w <> zero ->
        get3 tissue (vz vox + z) (vy vox + y) (vx vox + x)
        = Some (py_or (SURFACTANT tissue_types)
                  (py_or (BLOOD tissue_types)
                     (py_or (EPITHELIUM tissue_types) (PORE tissue_types))))).
Proof.
  unfold macrophage_weigh.
  destruct (Py.index (grid_xv grid) 0); cbn [mbind option_bind]; [| discriminate].
  destruct (Py.index (grid_xv grid) (-1)); cbn [mbind option_bind]; [| discriminate].
  destruct (Py.index (grid_yv grid) 0); cbn [mbind option_bind]; [| discriminate].
  destruct (Py.index (grid_yv grid) (-1)); cbn [mbind option_bind]; [| discriminate].
  destruct (Py.index (grid_zv grid) 0); cbn [mbind option_bind]; [| discriminate].
  destruct (Py.index (grid_zv grid) (-1)); cbn [mbind option_bind]; [| discriminate].
  match goal with |- context [if ?c then _ else _] => destruct c end.
  - destruct (get3 tissue _ _ _) as [t |] eqn:Ht; cbn [mbind option_bind];
      [| discriminate].
    match goal with |- context [bool_decide ?P] =>
      destruct (bool_decide_reflect P) as [Hin | Hin] end.
    + destruct (get3 molecule _ _ _) as [m |]; cbn [mbind option_bind];
        [| discriminate].
      intros H; inversion H; subst. eexists _, _. split; [reflexivity |].
      intros _. apply list_elem_of_singleton in Hin. now subst t.
    + intros H; inversion H; subst. eexists _, _. split; [reflexivity |].
      intros Hw. now contradiction Hw.
  - intros H; inversion H; subst. eexists _, _. split; [reflexivity |].
    intros Hw. now contradiction Hw.
Qed.

End CellFacts.

(** ** The integrators, continued *)

Module DiffusionFacts.

Import Diffusion Scenarios Scenarios2.

(** Clipping at zero leaves no entry below zero. *)
Lemma clip_not_negative (result : vec) :
  Forall (fun x => ltb x zero = false) (map (fun r => clip r zero PInf) result).
Proof.
  apply Forall_forall. intros x Hx.
  rewrite map_is_fmap in Hx. apply list_elem_of_fmap in Hx as (y & -> & _).
  destruct y; num_crush.
Qed.

(** X12: when the in-place Crank-Nicolson step returns, whatever the
    solver answered, the variable holds the solver's iterate clipped at
    zero (broadcast to the variable's shape if the iterate has one entry),
    so no entry of it is below zero; nothing else in the heap changed, and
    the log only grew, by at most two records. *)
Theorem mesh_step_result (cg : mat -> vec -> option vec -> num -> vec * Z)
    (variable : loc) (cn_a cn_b : mat) (tolerance : num) (s s' : state) :
  apply_mesh_diffusion_crank_nicholson cg variable cn_a cn_b tolerance s
  = (Returned tt, s') ->
  exists v rhs r extra,
    heap s !! variable = Some v
    /\ matvec cn_b v = Some rhs
    /\ heap s' = <[variable := r]> (heap s)
    /\ (let clipped := map (fun x => clip x zero PInf)
                           (cg cn_a rhs (Some v) tolerance).1 in
        (length clipped = length v /\ r = clipped)
        \/ (length clipped = 1%nat /\ r = replicate (length v) (clipped !!! 0%nat)))
    /\ Forall (fun x => ltb x zero = false) r
    /\ log s' = log s ++ extra /\ (length extra <= 2)%nat.
Proof.
  unfold apply_mesh_diffusion_crank_nicholson, copyto,
    Py.bind, read, lift, ret, raise, logger, write.
  destruct (heap s !! variable) as [v |] eqn:Hv; [| discriminate].
  destruct (matvec cn_b v) as [rhs |] eqn:Hrhs; [| discriminate].
  destruct (cg cn_a rhs (Some v) tolerance) as [result info] eqn:Hcg.
  set (clipped := map (fun r => clip r zero PInf) result).
  assert (Hwritten : (if existsb (fun r => ltb r zero) result then clipped else result)
                     = clipped).
  { subst clipped. destruct (existsb _ result) eqn:He; [reflexivity |].
    symmetry. now apply IntegratorFacts.clip_no_negative. }
  pose proof (clip_not_negative result) as Hclip. fold clipped in Hclip.
  intros H. exists v, rhs. rewrite Hcg. cbn [fst]. fold clipped.
  assert (Hone : length clipped = 1%nat ->
            Forall (fun x => ltb x zero = false)
                   (replicate (length v) (clipped !!! 0%nat))).
  { intros Hl. apply Forall_replicate.
    destruct clipped as [| c0 [| c1 cl]]; try discriminate.
    simpl. now inversion Hclip. }
  destruct (existsb (fun r => ltb r zero) result) eqn:Hneg;
    [| rewrite Hwritten in H];
    (destruct (info =? 0)%Z; [| destruct (0 <? info)%Z]); simpl in H;
    rewrite Hv in H; simpl in H; fold clipped in H;
    repeat case_decide; simpl in H; inversion H; subst s'; clear H; simpl;
    rewrite <- ?List.app_assoc;
    (eexists _, _; split; [reflexivity |]; split; [exact Hrhs |];
     split; [reflexivity |];
     split; [first [left; split; [assumption | reflexivity]
                   | right; split; [assumption | reflexivity]] |];
     split; [solve [auto] |];
     split; [first [reflexivity | symmetry; apply List.app_nil_r] |]; simpl; lia).
Qed.


Lemma mesh_step_result_witness :
  exists s',
    apply_mesh_diffusion_crank_nicholson cg_not_converged 0%nat [[Fin 1]] [[Fin 1]]
      (Fin (/ 10 ^ 10)) one_cell_state = (Returned tt, s')
    /\ exists v rhs r extra,
         heap one_cell_state !! 0%nat = Some v
         /\ matvec [[Fin 1]] v = Some rhs
         /\ heap s' = <[0%nat := r]> (heap one_cell_state)
         /\ (let clipped := map (fun x => clip x zero PInf)
                                (cg_not_converged [[Fin 1]] rhs (Some v)
                                   (Fin (/ 10 ^ 10))).1 in
             (length clipped = length v /\ r = clipped)
             \/ (length clipped = 1%nat
                 /\ r = replicate (length v) (clipped !!! 0%nat)))
         /\ Forall (fun x => ltb x zero = false) r
         /\ log s' = log one_cell_state ++ extra /\ (length extra <= 2)%nat.
Proof.
  destruct (IntegratorFacts.mesh_step_returns cg_not_converged 0%nat [[Fin 1]] [[Fin 1]]
              (Fin (/ 10 ^ 10)) one_cell_state [Fin 1] _ _ 1%Z
              eq_refl eq_refl eq_refl eq_refl) as (s' & Hrun & _).
  exists s'. split; [exact Hrun |].
  exact (mesh_step_result cg_not_converged 0%nat [[Fin 1]] [[Fin 1]] (Fin (/ 10 ^ 10))
           one_cell_state s' Hrun).
Defined.

(** X13: the one-shot grid apply returns only when the solver reports
    [info = 0] with an iterate of the shape of the variable.  It then
    returns a location the heap did not use, holding the iterate with its
    entries below zero replaced by zero; the heap is otherwise unchanged,
    the variable included, and nothing is logged. *)
Theorem grid_apply_result (cg : mat -> vec -> option vec -> num -> vec * Z)
    (variable : loc) (laplacian : mat) (diffusivity dt tolerance : num)
    (s s' : state) (l : loc) :
  apply_grid_diffusion cg variable laplacian diffusivity dt tolerance s
  = (Returned l, s') ->
  exists a b v rhs var_next,
    grid_operators laplacian diffusivity dt = Some (a, b)
    /\ heap s !! variable = Some v
    /\ matvec b v = Some rhs
    /\ cg a rhs None tolerance = (var_next, 0%Z)
    /\ length var_next = length v
    /\ heap s !! l = None
    /\ heap s' = <[l := map (maximum zero) var_next]> (heap s)
    /\ heap s' !! variable = Some v
    /\ Forall (fun x => ltb x zero = false) (map (maximum zero) var_next)
    /\ log s' = log s.
Proof.
  unfold apply_grid_diffusion, Py.bind, lift, read, ret, raise.
  destruct (grid_operators laplacian diffusivity dt) as [[a b] |]; simpl;
    [| discriminate].
  destruct (heap s !! variable) as [v |] eqn:Hv; [| discriminate].
  destruct (matvec b v) as [rhs |] eqn:Hrhs; simpl; [| discriminate].
  destruct (cg a rhs None tolerance) as [var_next info] eqn:Hcg.
  destruct (0 <? info)%Z eqn:Hpos; [discriminate |].
  destruct (info <? 0)%Z eqn:Hneg; [discriminate |].
  case_decide as Hlen; [| discriminate].
  unfold alloc. intros H; inversion H; subst l s'; clear H. simpl.
  assert (Hfresh : heap s !! fresh_loc (heap s) = None).
  { apply not_elem_of_dom. unfold fresh_loc. apply is_fresh. }
  exists a, b, v, rhs, var_next.
  replace info with 0%Z in Hcg by lia.
  repeat (split; [first [reflexivity | assumption] |]).
  split.
  - rewrite lookup_insert_ne; [exact Hv |]. intros Heq. rewrite Heq in Hfresh.
    congruence.
  - split; [| reflexivity].
    apply Forall_forall. intros x Hx.
    rewrite map_is_fmap in Hx. apply list_elem_of_fmap in Hx as (y & -> & _).
    destruct y; num_crush.
Qed.


(** The one-shot grid apply returns when the solver reports success. *)
Lemma grid_apply_returns (cg : mat -> vec -> option vec -> num -> vec * Z)
    (variable : loc) (laplacian a b : mat) (diffusivity dt tolerance : num)
    (s : state) (v rhs var_next : vec) :
  heap s !! variable = Some v ->
  grid_operators laplacian diffusivity dt = Some (a, b) ->
  matvec b v = Some rhs ->
  cg a rhs None tolerance = (var_next, 0%Z) ->
  length var_next = length v ->
  exists l s',
    apply_grid_diffusion cg variable laplacian diffusivity dt tolerance s
    = (Returned l, s').
Proof.
  intros Hv Hops Hrhs Hcg Hlen.
  unfold apply_grid_diffusion, Py.bind, lift, read, ret, raise.
  rewrite Hops. simpl. rewrite Hv, Hrhs, Hcg. simpl.
  rewrite decide_True by exact Hlen. unfold alloc. eauto.
Qed.

Lemma grid_apply_result_witness :
  exists l s',
    apply_grid_diffusion cg_converged 0%nat [[Fin 0]] (Fin 1) (Fin 1)
      (Fin (/ 10 ^ 10)) one_cell_state = (Returned l, s')
    /\ exists a b v rhs var_next,
         grid_operators [[Fin 0]] (Fin 1) (Fin 1) = Some (a, b)
         /\ heap one_cell_state !! 0%nat = Some v
         /\ matvec b v = Some rhs
         /\ cg_converged a rhs None (Fin (/ 10 ^ 10)) = (var_next, 0%Z)
         /\ length var_next = length v
         /\ heap one_cell_state !! l = None
         /\ heap s' = <[l := map (maximum zero) var_next]> (heap one_cell_state)
         /\ heap s' !! 0%nat = Some v
         /\ Forall (fun x => ltb x zero = false) (map (maximum zero) var_next)
         /\ log s' = log one_cell_state.
Proof.
  destruct (grid_apply_returns cg_converged 0%nat [[Fin 0]] _ _ (Fin 1) (Fin 1)
              (Fin (/ 10 ^ 10)) one_cell_state [Fin 1] _ _
              eq_refl eq_refl eq_refl eq_refl eq_refl) as (l & s' & Hrun).
  exists l, s'. split; [exact Hrun |].
  exact (grid_apply_result cg_converged 0%nat [[Fin 0]] (Fin 1) (Fin 1)
           (Fin (/ 10 ^ 10)) one_cell_state s' l Hrun).
Defined.


(** X14: the operators of the one-shot grid apply are built for a
    Laplacian of any shape, while [assemble_mesh_laplacian_crank_nicholson]
    returns exactly when the Laplacian has as many rows as columns: adding
    [identity(rank)] to a matrix that is not square is an error. *)
Theorem operators_defined (laplacian : mat) (diffusivity dt : num) :
  is_Some (grid_operators laplacian diffusivity dt)
  /\ (is_Some (assemble_mesh_laplacian_crank_nicholson laplacian diffusivity dt)
      <-> (mshape laplacian).1 = (mshape laplacian).2).
Proof.
  unfold grid_operators, assemble_mesh_laplacian_crank_nicholson, identity, mzip.
  pose proof (OperatorFacts.mshape_eye_like laplacian) as He.
  rewrite !OperatorFacts.mshape_mscale.
  destruct (mshape laplacian) as [r c] eqn:Hs. cbn [fst snd] in *.
  rewrite He, !decide_True by reflexivity. simpl. split; [eauto |].
  rewrite OperatorFacts.mshape_eye by tauto.
  destruct (decide ((r, r) = (r, c))) as [Heq | Hne]; simpl.
  - split; [intros _; congruence | eauto].
  - split; [intros [x Hx]; discriminate | intros ->; now contradiction Hne].
Qed.

End DiffusionFacts.

(** ** The TAFC step, continued *)

Module TAFCFacts.

Import TAFC TAFCSpec Scenarios Scenarios2.

(** An element-wise operation on two grids of one shape returns a grid of
    that shape, computed entry by entry. *)
Lemma ew2_total (f : num -> num -> num) (a b : Array3 num) :
  same_dims a b ->
  exists c,
    ew2 f a b = Some c /\ same_dims c a
    /\ forall i x y, a3_data a !! i = Some x -> a3_data b !! i = Some y ->
         a3_data c !! i = Some (f x y).
Proof.
  intros [Hs Hl]. unfold ew2. rewrite decide_True by (split; assumption).
  eexists. split; [reflexivity |]. split.
  - split; [reflexivity |]. simpl. rewrite length_zip_with. lia.
  - intros i x y Hx Hy. simpl. rewrite lookup_zip_with, Hx. simpl. now rewrite Hy.
Qed.

Lemma same_dims_sym (a b : Array3 num) : same_dims a b -> same_dims b a.
Proof. intros [? ?]. split; congruence. Qed.

Lemma same_dims_trans (a b c : Array3 num) :
  same_dims a b -> same_dims b c -> same_dims a c.
Proof. intros [? ?] [? ?]. split; congruence. Qed.

Create HintDb dims.
#[local] Hint Resolve same_dims_sym same_dims_trans : dims.

(** X15: on grids of one shape [iron_interaction] returns and touches
    neither transferrin nor the cells.  At a voxel with finite values it
    moves [min(iron, TAFC)] from free iron and free TAFC to iron-bound
    TAFC: iron plus TAFCBI and TAFC plus TAFCBI are conserved, one of free
    iron and free TAFC ends at zero, and neither goes below zero when both
    started at or above it. *)
Theorem iron_interaction_conserves (st : State) :
  same_dims (iron_grid st) (TAFC (tafc_grid st)) ->
  same_dims (TAFCBI (tafc_grid st)) (TAFC (tafc_grid st)) ->
  exists st',
    iron_interaction st = Some st'
    /\ transferrin_grid st' = transferrin_grid st
    /\ afumigatus_cells st' = afumigatus_cells st
    /\ forall i fe t b,
         at_voxel (iron_grid st) i fe ->
         at_voxel (TAFC (tafc_grid st)) i t ->
         at_voxel (TAFCBI (tafc_grid st)) i b ->
         exists fe' t' b',
           at_voxel (iron_grid st') i fe'
           /\ at_voxel (TAFC (tafc_grid st')) i t'
           /\ at_voxel (TAFCBI (tafc_grid st')) i b'
           /\ (fe' + b' = fe + b)%R /\ (t' + b' = t + b)%R
           /\ (fe' = 0%R \/ t' = 0%R)
           /\ ((0 <= fe)%R -> (0 <= t)%R -> (0 <= fe')%R /\ (0 <= t')%R).
Proof.
  intros Hfe Hbi. unfold iron_interaction.
  destruct (ew2_total minimum _ _ Hfe) as (q & -> & Hq & Hqi). simpl.
  destruct (ew2_total sub (TAFC (tafc_grid st)) q) as (t1 & -> & Ht1 & Ht1i);
    [eauto with dims |]. simpl.
  destruct (ew2_total add (TAFCBI (tafc_grid st)) q) as (b1 & -> & Hb1 & Hb1i);
    [eauto with dims |]. simpl.
  destruct (ew2_total sub (iron_grid st) q) as (fe1 & -> & Hfe1 & Hfe1i);
    [eauto with dims |]. simpl.
  eexists. split; [reflexivity |]. simpl. split; [reflexivity |].
  split; [reflexivity |].
  intros i fe t b Hi Ht Hb. unfold at_voxel in *.
  pose proof (Hqi _ _ _ Hi Ht) as Hqv.
  rewrite (Hfe1i _ _ _ Hi Hqv), (Ht1i _ _ _ Ht Hqv), (Hb1i _ _ _ Hb Hqv).
  destruct (Rlt_dec t fe) as [Hlt | Hge].
  - replace (minimum (Fin fe) (Fin t)) with (Fin t) by num_crush.
    rewrite !sub_Fin, add_Fin. eexists _, _, _.
    repeat (split; [reflexivity |]). repeat split; lra.
  - replace (minimum (Fin fe) (Fin t)) with (Fin fe) by num_crush.
    rewrite !sub_Fin, add_Fin. eexists _, _, _.
    repeat (split; [reflexivity |]). repeat split; lra.
Qed.


Lemma iron_interaction_conserves_witness :
  exists st',
    iron_interaction tafc_state = Some st'
    /\ transferrin_grid st' = transferrin_grid tafc_state
    /\ afumigatus_cells st' = afumigatus_cells tafc_state
    /\ forall i fe t b,
         at_voxel (iron_grid tafc_state) i fe ->
         at_voxel (TAFC (tafc_grid tafc_state)) i t ->
         at_voxel (TAFCBI (tafc_grid tafc_state)) i b ->
         exists fe' t' b',
           at_voxel (iron_grid st') i fe'
           /\ at_voxel (TAFC (tafc_grid st')) i t'
           /\ at_voxel (TAFCBI (tafc_grid st')) i b'
           /\ (fe' + b' = fe + b)%R /\ (t' + b' = t + b)%R
           /\ (fe' = 0%R \/ t' = 0%R)
           /\ ((0 <= fe)%R -> (0 <= t)%R -> (0 <= fe')%R /\ (0 <= t')%R).
Proof.
  apply (iron_interaction_conserves tafc_state); split; reflexivity.
Defined.

(** The rescaled rate of one of the two transfers at a voxel: finite
    whenever the inputs are, since the quotient is replaced by zero where
    the total change is zero. *)
Lemma rescaled_rate_finite (d t total : R) :
  exists r,
    mul (Fin d)
        (maximum (if eqb (Fin total) zero then zero else div (Fin t) (Fin total)) one)
    = Fin r.
Proof.
  rewrite eqb_zero_Fin.
  destruct (bool_decide_reflect (total = 0%R)) as [-> | Hne].
  - replace (maximum zero one) with (Fin 1) by num_crush. rewrite mul_Fin. eauto.
  - rewrite div_Fin by exact Hne.
    destruct (Rlt_dec (t / total) 1).
    + replace (maximum (Fin (t / total)) one) with (Fin 1) by num_crush.
      rewrite mul_Fin. eauto.
    + replace (maximum (Fin (t / total)) one) with (Fin (t / total)) by num_crush.
      rewrite mul_Fin. eauto.
Qed.

(** X16: on grids of one shape, with finite [k_m], voxel volume and time
    step and [k_m * volume > 0], [transferrin_interaction] returns and
    touches neither the iron field nor the cells.  At a voxel with finite
    values and non-negative TfFe and TfFe2 it conserves transferrin
    ([Tf + TfFe + TfFe2]), TAFC ([TAFC + TAFCBI]) and iron
    ([TfFe + 2 TfFe2 + TAFCBI]). *)
Theorem transferrin_interaction_conserves (ts km vol : R) (st : State) :
  same_dims (Tf (transferrin_grid st)) (TAFC (tafc_grid st)) ->
  same_dims (TfFe (transferrin_grid st)) (TAFC (tafc_grid st)) ->
  same_dims (TfFe2 (transferrin_grid st)) (TAFC (tafc_grid st)) ->
  same_dims (TAFCBI (tafc_grid st)) (TAFC (tafc_grid st)) ->
  k_m_tf_tafc st = Fin km -> voxel_volume st = Fin vol -> (0 < km * vol)%R ->
  exists st',
    transferrin_interaction (Fin ts) st = Some st'
    /\ iron_grid st' = iron_grid st
    /\ afumigatus_cells st' = afumigatus_cells st
    /\ forall i tf tffe tffe2 t b,
         at_voxel (Tf (transferrin_grid st)) i tf ->
         at_voxel (TfFe (transferrin_grid st)) i tffe ->
         at_voxel (TfFe2 (transferrin_grid st)) i tffe2 ->
         at_voxel (TAFC (tafc_grid st)) i t ->
         at_voxel (TAFCBI (tafc_grid st)) i b ->
         (0 <= tffe)%R -> (0 <= tffe2)%R ->
         exists tf' tffe' tffe2' t' b',
           at_voxel (Tf (transferrin_grid st')) i tf'
           /\ at_voxel (TfFe (transferrin_grid st')) i tffe'
           /\ at_voxel (TfFe2 (transferrin_grid st')) i tffe2'
           /\ at_voxel (TAFC (tafc_grid st')) i t'
           /\ at_voxel (TAFCBI (tafc_grid st')) i b'
           /\ (tf' + tffe' + tffe2' = tf + tffe + tffe2)%R
           /\ (t' + b' = t + b)%R
           /\ (tffe' + 2 * tffe2' + b' = tffe + 2 * tffe2 + b)%R.
Proof.
  intros Htf Htffe Htffe2 Hbi Hkm Hvol Hpos.
  unfold transferrin_interaction, model_michaelian_kinetics.
  rewrite Hkm, Hvol.
  set (mk := fun s e => Util.michaelian_kinetics s e (Fin km) (div (Fin ts) (Fin 60))
                          Util.michaelian_kinetics_k_cat_default (Fin vol)).
  set (T := TAFC (tafc_grid st)) in *.
  destruct (ew2_total mk _ _ Htffe2) as (d2 & -> & Hd2 & Hd2i). simpl.
  destruct (ew2_total mk _ _ Htffe) as (d1 & -> & Hd1 & Hd1i). simpl.
  assert (Hd2T : same_dims d2 T) by eauto with dims.
  assert (Hd1T : same_dims d1 T) by eauto with dims.
  destruct (ew2_total add d2 d1) as (tc & -> & Htc & Htci); [eauto with dims |]. simpl.
  assert (HtcT : same_dims tc T) by eauto with dims.
  destruct (ew2_total div T tc) as (r0 & -> & Hr0 & Hr0i); [eauto with dims |]. simpl.
  destruct (ew2_total (fun r t => if eqb t zero then zero else r) r0 tc)
    as (r1 & -> & Hr1 & Hr1i); [eauto with dims |]. simpl.
  assert (Hr1T : same_dims r1 T) by eauto with dims.
  set (rel := ew1 (fun r => maximum r one) r1).
  assert (HrelT : same_dims rel T).
  { destruct Hr1T as [? ?]. split; simpl; [assumption |]. now rewrite length_map. }
  destruct (ew2_total mul d2 rel) as (e2 & -> & He2 & He2i); [eauto with dims |]. simpl.
  destruct (ew2_total mul d1 rel) as (e1 & -> & He1 & He1i); [eauto with dims |]. simpl.
  assert (He2T : same_dims e2 T) by eauto with dims.
  assert (He1T : same_dims e1 T) by eauto with dims.
  destruct (ew2_total sub (TfFe2 (transferrin_grid st)) e2)
    as (n2 & -> & Hn2 & Hn2i); [eauto with dims |]. simpl.
  destruct (ew2_total add (TfFe (transferrin_grid st)) e2)
    as (n1a & -> & Hn1a & Hn1ai); [eauto with dims |]. simpl.
  destruct (ew2_total sub n1a e1) as (n1 & -> & Hn1 & Hn1i); [eauto with dims |]. simpl.
  destruct (ew2_total add (Tf (transferrin_grid st)) e1)
    as (n0 & -> & Hn0 & Hn0i); [eauto with dims |]. simpl.
  destruct (ew2_total add e2 e1) as (ch & -> & Hch & Hchi); [eauto with dims |]. simpl.
  assert (HchT : same_dims ch T) by eauto with dims.
  destruct (ew2_total sub T ch) as (tn & -> & Htn & Htni); [eauto with dims |]. simpl.
  destruct (ew2_total add (TAFCBI (tafc_grid st)) ch)
    as (bn & -> & Hbn & Hbni); [eauto with dims |]. simpl.
  eexists. split; [reflexivity |]. simpl. split; [reflexivity |].
  split; [reflexivity |].
  intros i tf tffe tffe2 t b Hitf Hitffe Hitffe2 Hit Hib H1 H2.
  unfold at_voxel in *.
  assert (Hmk : forall s, (0 <= s)%R -> exists d, mk (Fin s) (Fin t) = Fin d).
  { intros s Hs. subst mk. cbv beta. rewrite div_Fin by lra.
    unfold Util.michaelian_kinetics_k_cat_default, one.
    rewrite UtilFacts.michaelian_kinetics_Fin by lra. eauto. }
  destruct (Hmk _ H2) as (v2 & Hv2). destruct (Hmk _ H1) as (v1 & Hv1).
  pose proof (Hd2i _ _ _ Hitffe2 Hit) as Hd2v. rewrite Hv2 in Hd2v.
  pose proof (Hd1i _ _ _ Hitffe Hit) as Hd1v. rewrite Hv1 in Hd1v.
  pose proof (Htci _ _ _ Hd2v Hd1v) as Htcv. rewrite add_Fin in Htcv.
  pose proof (Hr0i _ _ _ Hit Htcv) as Hr0v.
  pose proof (Hr1i _ _ _ Hr0v Htcv) as Hr1v. cbv beta in Hr1v.
  assert (Hrelv : a3_data rel !! i
                  = Some (maximum (if eqb (Fin (v2 + v1)) zero then zero
                                   else div (Fin t) (Fin (v2 + v1))) one)).
  { subst rel. simpl. rewrite map_is_fmap, list_lookup_fmap, Hr1v. reflexivity. }
  pose proof (He2i _ _ _ Hd2v Hrelv) as He2v.
  pose proof (He1i _ _ _ Hd1v Hrelv) as He1v.
  destruct (rescaled_rate_finite v2 t (v2 + v1)) as (w2 & Hw2).
  destruct (rescaled_rate_finite v1 t (v2 + v1)) as (w1 & Hw1).
  rewrite Hw2 in He2v. rewrite Hw1 in He1v.
  pose proof (Hn2i _ _ _ Hitffe2 He2v) as Hn2v.
  pose proof (Hn1ai _ _ _ Hitffe He2v) as Hn1av.
  pose proof (Hn1i _ _ _ Hn1av He1v) as Hn1v.
  pose proof (Hn0i _ _ _ Hitf He1v) as Hn0v.
  pose proof (Hchi _ _ _ He2v He1v) as Hchv.
  pose proof (Htni _ _ _ Hit Hchv) as Htnv.
  pose proof (Hbni _ _ _ Hib Hchv) as Hbnv.
  rewrite ?add_Fin, ?sub_Fin in *.
  eexists _, _, _, _, _.
  split; [exact Hn0v |]. split; [exact Hn1v |]. split; [exact Hn2v |].
  split; [exact Htnv |]. split; [exact Hbnv |].
  repeat split; lra.
Qed.


Lemma transferrin_interaction_conserves_witness :
  exists st',
    transferrin_interaction (Fin 60) tafc_state = Some st'
    /\ iron_grid st' = iron_grid tafc_state
    /\ afumigatus_cells st' = afumigatus_cells tafc_state
    /\ forall i tf tffe tffe2 t b,
         at_voxel (Tf (transferrin_grid tafc_state)) i tf ->
         at_voxel (TfFe (transferrin_grid tafc_state)) i tffe ->
         at_voxel (TfFe2 (transferrin_grid tafc_state)) i tffe2 ->
         at_voxel (TAFC (tafc_grid tafc_state)) i t ->
         at_voxel (TAFCBI (tafc_grid tafc_state)) i b ->
         (0 <= tffe)%R -> (0 <= tffe2)%R ->
         exists tf' tffe' tffe2' t' b',
           at_voxel (Tf (transferrin_grid st')) i tf'
           /\ at_voxel (TfFe (transferrin_grid st')) i tffe'
           /\ at_voxel (TfFe2 (transferrin_grid st')) i tffe2'
           /\ at_voxel (TAFC (tafc_grid st')) i t'
           /\ at_voxel (TAFCBI (tafc_grid st')) i b'
           /\ (tf' + tffe' + tffe2' = tf + tffe + tffe2)%R
           /\ (t' + b' = t + b)%R
           /\ (tffe' + 2 * tffe2' + b' = tffe + 2 * tffe2 + b)%R.
Proof.
  apply (transferrin_interaction_conserves 60 1 1 tafc_state);
    try (split; reflexivity); try reflexivity.
  lra.
Defined.


(** X17: the body of the loop of [TAFC.advance] over the fungal cells, on
    a cell whose voxel holds finite amounts of TAFC and TAFCBI and whose
    iron pool is finite.  It returns, appends the cell to the cells done,
    and conserves iron: TAFCBI at the voxel plus the pool is unchanged.
    Free TAFC at the voxel stays or grows by [tafc_qtty].  A cell that is
    dead, not free or dying is skipped: grids and cell are unchanged.  With
    an uptake fraction in [[0, 1]] neither TAFCBI nor the pool goes below
    zero. *)
Theorem fungus_cell_conserves_iron (up qt : R) (tafc : TAFCGrid)
    (done : list AfumigatusCellData) (cell : AfumigatusCellData)
    (k j i : Z) (b q t : R) :
  cell_voxel cell = (k, j, i) ->
  get3 (TAFCBI tafc) k j i = Some (Fin b) ->
  get3 (TAFC tafc) k j i = Some (Fin t) ->
  iron_pool cell = Fin q ->
  exists tafc' cell' b' q' t',
    fungus_cell (Fin up) (Fin qt) (tafc, done) cell = Some (tafc', done ++ [cell'])
    /\ get3 (TAFCBI tafc') k j i = Some (Fin b')
    /\ get3 (TAFC tafc') k j i = Some (Fin t')
    /\ iron_pool cell' = Fin q'
    /\ (b' + q' = b + q)%R
    /\ (t' = t \/ t' = (t + qt)%R)
    /\ ((0 <= up <= 1)%R -> (0 <= b)%R -> (0 <= q)%R -> (0 <= b')%R /\ (0 <= q')%R)
    /\ (dead cell = true \/ cell_state cell <> FREE \/ cell_status cell = DYING ->
        tafc' = tafc /\ cell' = cell)
    /\ dead cell' = dead cell /\ cell_state cell' = cell_state cell
    /\ cell_status cell' = cell_status cell /\ cell_voxel cell' = cell_voxel cell
    /\ boolean_network cell' = boolean_network cell.
Proof.
  intros Hvox Hb Ht Hq. unfold fungus_cell.
  assert (Hskip : exists tafc' cell' b' q' t',
            Some (tafc, done ++ [cell]) = Some (tafc', done ++ [cell'])
            /\ get3 (TAFCBI tafc') k j i = Some (Fin b')
            /\ get3 (TAFC tafc') k j i = Some (Fin t')
            /\ iron_pool cell' = Fin q'
            /\ (b' + q' = b + q)%R
            /\ (t' = t \/ t' = (t + qt)%R)
            /\ ((0 <= up <= 1)%R -> (0 <= b)%R -> (0 <= q)%R ->
                (0 <= b')%R /\ (0 <= q')%R)
            /\ (dead cell = true \/ cell_state cell <> FREE \/ cell_status cell = DYING ->
                tafc' = tafc /\ cell' = cell)
            /\ dead cell' = dead cell /\ cell_state cell' = cell_state cell
            /\ cell_status cell' = cell_status cell /\ cell_voxel cell' = cell_voxel cell
            /\ boolean_network cell' = boolean_network cell).
  { exists tafc, cell, b, q, t. repeat split; auto; lra. }
  destruct (dead cell) eqn:Hdead; [exact Hskip |].
  destruct (bool_decide_reflect (cell_state cell <> FREE)) as [Hstate | Hstate];
    [exact Hskip |].
  destruct (bool_decide_reflect (cell_status cell = DYING)) as [Hstatus | Hstatus];
    [exact Hskip |].
  clear Hskip. cbn [orb]. rewrite Hvox.
  assert (Hnoskip : ~ (false = true \/ cell_state cell <> FREE \/ cell_status cell = DYING))
    by (intros [? | [? | ?]]; [discriminate | contradiction | contradiction]).
  destruct (boolean_network cell MirB && boolean_network cell EstB).
  - rewrite Hb. cbn [mbind option_bind].
    rewrite Hq, mul_Fin, sub_Fin, add_Fin.
    destruct (CellFacts.set3_get3 (TAFCBI tafc) k j i (Fin b) (Fin (b - b * up)) Hb)
      as (bi' & Hset & Hget).
    rewrite Hset. cbn [mbind option_bind TAFC TAFCBI boolean_network cell_status].
    destruct (boolean_network cell NetTAFC && bool_decide _).
    + rewrite Ht. cbn [mbind option_bind].
      destruct (CellFacts.set3_get3 (TAFC tafc) k j i (Fin t) (add (Fin t) (Fin qt)) Ht)
        as (tf' & Hset' & Hget').
      rewrite Hset'. cbn [mbind option_bind]. rewrite add_Fin in Hget'.
      eexists _, _, _, _, _. split; [reflexivity |]. simpl.
      split; [exact Hget |]. split; [exact Hget' |]. split; [reflexivity |].
      split; [lra |]. split; [now right |]. split; [intros; split; nra |].
      split; [intros Hs; now contradiction Hnoskip |]. repeat split; auto.
    + cbn [mbind option_bind].
      eexists _, _, _, _, _. split; [reflexivity |]. simpl.
      split; [exact Hget |]. split; [exact Ht |]. split; [reflexivity |].
      split; [lra |]. split; [now left |]. split; [intros; split; nra |].
      split; [intros Hs; now contradiction Hnoskip |]. repeat split; auto.
  - cbn [mbind option_bind].
    destruct (boolean_network cell NetTAFC && bool_decide _).
    + rewrite Ht. cbn [mbind option_bind].
      destruct (CellFacts.set3_get3 (TAFC tafc) k j i (Fin t) (add (Fin t) (Fin qt)) Ht)
        as (tf' & Hset' & Hget').
      rewrite Hset'. cbn [mbind option_bind]. rewrite add_Fin in Hget'.
      eexists _, _, _, _, _. split; [reflexivity |]. simpl.
      split; [exact Hb |]. split; [exact Hget' |]. split; [exact Hq |].
      split; [lra |]. split; [now right |]. split; [intros; split; lra |].
      split; [intros Hs; now contradiction Hnoskip |]. repeat split; auto.
    + cbn [mbind option_bind].
      eexists _, _, _, _, _. split; [reflexivity |]. simpl.
      split; [exact Hb |]. split; [exact Ht |]. split; [exact Hq |].
      split; [lra |]. split; [now left |]. split; [intros; split; lra |].
      split; [intros Hs; now contradiction Hnoskip |]. repeat split; auto.
Qed.


Lemma fungus_cell_conserves_iron_witness :
  exists tafc' cell' b' q' t',
    fungus_cell (Fin (1 / 2)) (Fin 3) (tafc_grid tafc_state, []) hypha
    = Some (tafc', [] ++ [cell'])
    /\ get3 (TAFCBI tafc') 0 0 0 = Some (Fin b')
    /\ get3 (TAFC tafc') 0 0 0 = Some (Fin t')
    /\ iron_pool cell' = Fin q'
    /\ (b' + q' = 0 + 0)%R
    /\ (t' = 100%R \/ t' = (100 + 3)%R)
    /\ ((0 <= 1 / 2 <= 1)%R -> (0 <= 0)%R -> (0 <= 0)%R -> (0 <= b')%R /\ (0 <= q')%R)
    /\ (dead hypha = true \/ cell_state hypha <> FREE \/ cell_status hypha = DYING ->
        tafc' = tafc_grid tafc_state /\ cell' = hypha)
    /\ dead cell' = dead hypha /\ cell_state cell' = cell_state hypha
    /\ cell_status cell' = cell_status hypha /\ cell_voxel cell' = cell_voxel hypha
    /\ boolean_network cell' = boolean_network hypha.
Proof.
  apply (fungus_cell_conserves_iron (1 / 2) 3 (tafc_grid tafc_state) [] hypha
           0 0 0 0 0 100); reflexivity.
Defined.

End TAFCFacts.

(** ** Voxel choice and uptake in a mesh element, continued *)

Module MeshFacts.

Import UtilMesh LaplacianSpec Scenarios.

(** The scan of the cumulative normalised weights: starting at or below the
    draw and ending above it, the first cumulative sum above the draw is
    reached at a weight that is positive. *)
Lemma first_true_cumsum (ws : list num) (acc u N : R) :
  Forall (fun w => exists r, w = Fin r /\ (0 <= r)%R) ws ->
  (0 < N)%R -> (acc <= u)%R -> (u < acc + total ws / N)%R ->
  exists k r,
    first_true (map (fun c => gtb (sub c (Fin u)) zero)
                    (cumsum_from (Fin acc) (map (fun w => div w (Fin N)) ws)))
    = Some k
    /\ ws !! k = Some (Fin r) /\ (0 < r)%R.
Proof.
  intros Hws HN. revert acc.
  induction Hws as [| w ws (r & -> & Hr) _ IH]; intros acc Hacc Hu.
  - simpl in Hu. unfold Rdiv in Hu. rewrite Rmult_0_l in Hu. lra.
  - cbn [map cumsum_from first_true]. rewrite div_Fin by lra.
    rewrite add_Fin, sub_Fin. unfold gtb, ltb, zero.
    assert (Hsplit : (total (Fin r :: ws) / N = r / N + total ws / N)%R)
      by (simpl; field; lra).
    rewrite Hsplit in Hu.
    destruct (bool_decide_reflect (0 < acc + r / N - u)%R) as [Hhit | Hmiss].
    + exists 0%nat, r. split; [reflexivity |]. split; [reflexivity |].
      assert (Hq : (0 < r / N)%R) by lra.
      destruct (Rle_lt_or_eq_dec 0 r Hr) as [Hpos | <-]; [exact Hpos |].
      unfold Rdiv in Hq. rewrite Rmult_0_l in Hq. lra.
    + destruct (IH (acc + r / N)%R ltac:(lra) ltac:(lra)) as (k & r' & Hk & Hw & Hr').
      fold zero in Hk. unfold gtb, ltb, zero in Hk. rewrite Hk.
      exists (S k), r'. split; [reflexivity |]. split; assumption.
Qed.

(** Non-negative weights of which one is positive have a positive sum. *)
Lemma total_positive (ws : list num) :
  Forall (fun w => exists r, w = Fin r /\ (0 <= r)%R) ws ->
  Exists (fun w => exists r, w = Fin r /\ (0 < r)%R) ws ->
  all_finite ws /\ (0 < total ws)%R.
Proof.
  intros Hws Hex. split.
  - eapply Forall_impl; [exact Hws |]. now intros w (r & -> & _).
  - assert (Hnn : (0 <= total ws)%R).
    { clear Hex. induction Hws as [| w ws (r & -> & Hr) _ IH]; simpl; lra. }
    induction Hex as [w ws (r & -> & Hr) | w ws _ IH].
    + apply Forall_cons in Hws as [_ Hws].
      assert ((0 <= total ws)%R).
      { clear Hnn. induction Hws as [| w' ws' (r' & -> & Hr') _ IH']; simpl; lra. }
      simpl. lra.
    + apply Forall_cons in Hws as [(r & -> & Hr) Hws].
      assert ((0 <= total ws)%R).
      { clear IH Hnn. induction Hws as [| w' ws' (r' & -> & Hr') _ IH']; simpl; lra. }
      simpl in *. specialize (IH Hws ltac:(lra)). lra.
Qed.

(** X18: with as many voxels as weights, weights that are finite and
    non-negative and not all zero, and a draw in [[0, 1)],
    [choose_voxel_by_prob] takes one draw and returns one of the given
    voxels, never the default, and the weight of the voxel returned is
    positive. *)
Theorem choose_voxel_by_prob_picks_weighted (voxels : list Voxel)
    (default_value : Voxel) (weights : list num) (g : Random.generator) :
  length voxels = length weights ->
  Forall (fun w => exists r, w = Fin r /\ (0 <= r)%R) weights ->
  Exists (fun w => exists r, w = Fin r /\ (0 < r)%R) weights ->
  (0 <= Random.stream g (Random.position g) < 1)%R ->
  exists k v r,
    choose_voxel_by_prob voxels default_value weights g
    = (Some v, Random.mkGenerator (Random.stream g) (S (Random.position g)))
    /\ voxels !! k = Some v
    /\ weights !! k = Some (Fin r) /\ (0 < r)%R.
Proof.
  intros Hlen Hws Hex Hu.
  destruct (total_positive weights Hws Hex) as [Hfin Hpos].
  unfold choose_voxel_by_prob. rewrite (LaplacianFacts.sum_finite _ Hfin).
  set (N := total weights) in *. set (u := Random.stream g (Random.position g)) in *.
  replace (leb (Fin N) zero) with false by (symmetry; num_crush).
  unfold Random.random. fold u. cbn [map cumsum first_true].
  destruct (first_true_cumsum weights 0 u N Hws Hpos ltac:(lra)) as (k & r & Hk & Hw & Hr).
  { fold N. unfold Rdiv. rewrite Rinv_r by lra. lra. }
  fold zero in Hk. unfold argmax_bool. cbn [map cumsum first_true].
  replace (gtb (sub zero (Fin u)) zero) with false by (symmetry; num_crush).
  rewrite Hk. cbn [fmap option_fmap option_map default]. unfold Datatypes.id.
  replace (Z.of_nat (S k) - 1)%Z with (Z.of_nat k) by lia.
  replace (Z.of_nat k <? 0)%Z with false by (symmetry; apply Z.ltb_ge; lia).
  assert (Hklt : (k < length voxels)%nat).
  { rewrite Hlen. apply lookup_lt_is_Some. eauto. }
  destruct (lookup_lt_is_Some_2 voxels k Hklt) as [v Hv].
  exists k, v, r. split; [| repeat split; assumption].
  unfold Py.index. rewrite LaplacianFacts.norm_index_in_range by lia.
  simpl. rewrite Nat2Z.id, Hv. reflexivity.
Qed.

Lemma choose_voxel_by_prob_picks_weighted_witness :
  exists k v r,
    choose_voxel_by_prob [mkVoxel 0 0 0; mkVoxel 1 0 0] (mkVoxel 9 9 9)
      [Fin 0; Fin 1] zero_generator
    = (Some v, Random.mkGenerator (Random.stream zero_generator)
                 (S (Random.position zero_generator)))
    /\ [mkVoxel 0 0 0; mkVoxel 1 0 0] !! k = Some v
    /\ [Fin 0; Fin 1] !! k = Some (Fin r) /\ (0 < r)%R.
Proof.
  apply (choose_voxel_by_prob_picks_weighted [mkVoxel 0 0 0; mkVoxel 1 0 0]
           (mkVoxel 9 9 9) [Fin 0; Fin 1] zero_generator).
  - reflexivity.
  - repeat constructor; eexists; (split; [reflexivity | lra]).
  - apply Exists_cons_tl, Exists_cons_hd. exists 1%R. split; [reflexivity | lra].
  - simpl. lra.
Defined.


(** An item read from a list is a member of the list. *)
Lemma index_elem_of {A} (l : list A) (i : Z) (x : A) : Py.index l i = Some x -> x ∈ l.
Proof.
  unfold Py.index. destruct (norm_index (length l) i) as [n |]; simpl; [| discriminate].
  intros H. apply list_elem_of_lookup. eauto.
Qed.

(** X19: on a mesh of tetrahedra, a call of [uptake_in_element] with an
    array of two or more element indices, other than four of them, raises:
    the [(n, 4)] array of point values cannot be divided by the [(n,)] array
    of their sums. *)
Theorem uptake_in_element_shape_error (mesh : TetrahedralMesh) (point_field : list num)
    (element_index : list Z) (amount : num) :
  Forall (fun row => length row = 4%nat) (element_point_indices mesh) ->
  (2 <= length element_index)%nat -> length element_index <> 4%nat ->
  uptake_in_element mesh point_field element_index amount = None.
Proof.
  intros Hmesh Hn H4. unfold uptake_in_element.
  destruct (mapM _ element_index) as [points |] eqn:Hpoints; simpl; [| reflexivity].
  destruct (gather point_field points) as [fap |] eqn:Hfap; simpl; [| reflexivity].
  unfold gather in Hfap.
  assert (Hdiv : divide_rows fap (map sum fap) = None).
  { unfold divide_rows. apply mapM_None_2.
    pose proof (length_mapM _ _ _ Hpoints) as Hl1.
    pose proof (length_mapM _ _ _ Hfap) as Hl2.
    apply mapM_Some_1 in Hpoints. apply mapM_Some_1 in Hfap.
    destruct fap as [| row fap]; [simpl in *; lia |].
    apply Exists_cons_hd.
    destruct points as [| p points]; [discriminate |].
    apply Forall2_cons in Hfap as [Hrow _].
    apply Forall2_length in Hpoints as Hlen.
    destruct element_index as [| e element_index]; [discriminate |].
    apply Forall2_cons in Hpoints as [He _].
    apply index_elem_of in He.
    rewrite Forall_forall in Hmesh. specialize (Hmesh _ He).
    apply length_mapM in Hrow.
    unfold bcast. rewrite length_map.
    rewrite !decide_False; [reflexivity | | |]; simpl in *; lia. }
  rewrite Hdiv. reflexivity.
Qed.

Lemma uptake_in_element_shape_error_witness :
  uptake_in_element one_tetrahedron unit_point_field [0; 0]%Z (Fin 1) = None.
Proof.
  apply (uptake_in_element_shape_error one_tetrahedron unit_point_field [0; 0]%Z (Fin 1)).
  - repeat constructor.
  - simpl. lia.
  - simpl. lia.
Defined.


(** Reading at a position given as a non-negative index. *)
Lemma index_of_nat {A} (l : list A) (n : nat) (x : A) :
  l !! n = Some x -> Py.index l (Z.of_nat n) = Some x.
Proof.
  intros H. unfold Py.index.
  rewrite LaplacianFacts.norm_index_in_range.
  - simpl. now rewrite Nat2Z.id.
  - pose proof (lookup_lt_Some _ _ _ H). lia.
Qed.

(** One unbuffered subtraction at a position that holds a value. *)
Lemma subtract_at_row_step (a : list num) (n : nat) (old v : num)
    (pv : list (Z * num)) :
  a !! n = Some old ->
  subtract_at_row a ((Z.of_nat n, v) :: pv)
  = subtract_at_row (<[n := sub old v]> a) pv.
Proof.
  intros H. unfold subtract_at_row. cbn [Diffusion.foldM].
  rewrite LaplacianFacts.norm_index_in_range
    by (pose proof (lookup_lt_Some _ _ _ H); lia).
  cbn [mbind option_bind]. rewrite Nat2Z.id, H. reflexivity.
Qed.

(** X20: [uptake_in_element] on one tetrahedron whose four points are
    distinct, hold finite values with a sum that is not zero, and have
    finite dual volumes that are not zero.  The call returns; it changes the
    field at the four points only, and the amount removed, the sum over the
    four points of dual volume times the drop in concentration, is exactly
    [amount]. *)
Theorem uptake_in_element_mass_balance (mesh : TetrahedralMesh)
    (point_field : list num) (e : Z) (m : R) (n0 n1 n2 n3 : nat)
    (a0 a1 a2 a3 v0 v1 v2 v3 : R) :
  Py.index (element_point_indices mesh) e
  = Some [Z.of_nat n0; Z.of_nat n1; Z.of_nat n2; Z.of_nat n3] ->
  NoDup [n0; n1; n2; n3] ->
  point_field !! n0 = Some (Fin a0) -> point_field !! n1 = Some (Fin a1) ->
  point_field !! n2 = Some (Fin a2) -> point_field !! n3 = Some (Fin a3) ->
  point_dual_volumes mesh !! n0 = Some (Fin v0) ->
  point_dual_volumes mesh !! n1 = Some (Fin v1) ->
  point_dual_volumes mesh !! n2 = Some (Fin v2) ->
  point_dual_volumes mesh !! n3 = Some (Fin v3) ->
  v0 <> 0%R -> v1 <> 0%R -> v2 <> 0%R -> v3 <> 0%R ->
  (a0 + a1 + a2 + a3 <> 0)%R ->
  exists field' b0 b1 b2 b3,
    uptake_in_element mesh point_field [e] (Fin m) = Some field'
    /\ length field' = length point_field
    /\ field' !! n0 = Some (Fin b0) /\ field' !! n1 = Some (Fin b1)
    /\ field' !! n2 = Some (Fin b2) /\ field' !! n3 = Some (Fin b3)
    /\ (forall n, n ∉ [n0; n1; n2; n3] -> field' !! n = point_field !! n)
    /\ (v0 * (a0 - b0) + v1 * (a1 - b1) + v2 * (a2 - b2) + v3 * (a3 - b3) = m)%R.
Proof.
  intros He Hnd Ha0 Ha1 Ha2 Ha3 Hv0 Hv1 Hv2 Hv3 Hz0 Hz1 Hz2 Hz3 Hs.
  apply NoDup_cons in Hnd as [Hn0 Hnd]. apply NoDup_cons in Hnd as [Hn1 Hnd].
  apply NoDup_cons in Hnd as [Hn2 _].
  repeat rewrite not_elem_of_cons in Hn0. repeat rewrite not_elem_of_cons in Hn1.
  repeat rewrite not_elem_of_cons in Hn2.
  destruct Hn0 as (H01 & H02 & H03 & _), Hn1 as (H12 & H13 & _), Hn2 as (H23 & _).
  unfold uptake_in_element, gather.
  cbn [mapM mbind option_bind mret option_ret]. rewrite He.
  cbn [mapM mbind option_bind mret option_ret fmap option_fmap option_map].
  rewrite !(index_of_nat _ _ _ Ha0), !(index_of_nat _ _ _ Ha1),
    !(index_of_nat _ _ _ Ha2), !(index_of_nat _ _ _ Ha3).
  cbn [mapM mbind option_bind mret option_ret fmap option_fmap option_map].
  rewrite !(index_of_nat _ _ _ Hv0), !(index_of_nat _ _ _ Hv1),
    !(index_of_nat _ _ _ Hv2), !(index_of_nat _ _ _ Hv3).
  cbn [mapM mbind option_bind mret option_ret fmap option_fmap option_map].
  set (S := (0 + a0 + a1 + a2 + a3)%R).
  assert (HS : S <> 0%R) by (subst S; lra).
  unfold divide_rows.
  assert (Hsum : map sum [[Fin a0; Fin a1; Fin a2; Fin a3]] = [Fin S]) by reflexivity.
  rewrite Hsum. clear Hsum.
  cbn [mapM mbind option_bind mret option_ret fmap option_fmap option_map].
  unfold bcast. cbn [length]. rewrite decide_False by lia.
  rewrite decide_False by lia. rewrite decide_True by reflexivity.
  cbn [mapM mbind option_bind mret option_ret fmap option_fmap option_map map
       lookup_total list_lookup_total zip_with].
  rewrite !div_Fin by assumption. rewrite !mul_Fin. rewrite !div_Fin by assumption.
  unfold subtract_at.
  rewrite decide_True by (split; [reflexivity | repeat constructor]).
  cbn [zip_with zip Diffusion.foldM].
  rewrite (subtract_at_row_step _ _ _ _ _ Ha0).
  rewrite (subtract_at_row_step _ n1 (Fin a1))
    by (rewrite list_lookup_insert_ne by congruence; exact Ha1).
  rewrite (subtract_at_row_step _ n2 (Fin a2))
    by (rewrite !list_lookup_insert_ne by congruence; exact Ha2).
  rewrite (subtract_at_row_step _ n3 (Fin a3))
    by (rewrite !list_lookup_insert_ne by congruence; exact Ha3).
  unfold subtract_at_row. cbn [Diffusion.foldM mbind option_bind].
  rewrite !sub_Fin.
  pose proof (lookup_lt_Some _ _ _ Ha0) as L0. pose proof (lookup_lt_Some _ _ _ Ha1) as L1.
  pose proof (lookup_lt_Some _ _ _ Ha2) as L2. pose proof (lookup_lt_Some _ _ _ Ha3) as L3.
  eexists _, _, _, _, _. split; [reflexivity |].
  split; [now rewrite !length_insert |].
  split.
  { rewrite !list_lookup_insert_ne by congruence.
    apply list_lookup_insert_eq. exact L0. }
  split.
  { rewrite !list_lookup_insert_ne by congruence.
    apply list_lookup_insert_eq. now rewrite !length_insert. }
  split.
  { rewrite !list_lookup_insert_ne by congruence.
    apply list_lookup_insert_eq. now rewrite !length_insert. }
  split.
  { apply list_lookup_insert_eq. now rewrite !length_insert. }
  split.
  { intros n Hn. repeat rewrite not_elem_of_cons in Hn.
    destruct Hn as (N0 & N1 & N2 & N3 & _).
    rewrite !list_lookup_insert_ne by congruence. reflexivity. }
  subst S. field. repeat split; first [assumption | lra].
Qed.

Lemma uptake_in_element_mass_balance_witness :
  exists field' b0 b1 b2 b3,
    uptake_in_element one_tetrahedron unit_point_field [0%Z] (Fin 8) = Some field'
    /\ length field' = length unit_point_field
    /\ field' !! 0%nat = Some (Fin b0) /\ field' !! 1%nat = Some (Fin b1)
    /\ field' !! 2%nat = Some (Fin b2) /\ field' !! 3%nat = Some (Fin b3)
    /\ (forall n, n ∉ [0; 1; 2; 3]%nat -> field' !! n = unit_point_field !! n)
    /\ (1 * (1 - b0) + 1 * (1 - b1) + 1 * (1 - b2) + 1 * (1 - b3) = 8)%R.
Proof.
  apply (uptake_in_element_mass_balance one_tetrahedron unit_point_field 0 8
           0 1 2 3 1 1 1 1 1 1 1 1); try reflexivity; try lra.
  repeat constructor; rewrite ?not_elem_of_cons; repeat split; try lia;
    apply not_elem_of_nil.
Defined.

End MeshFacts.

(** ** The TNF-a / anti-TNF-a reaction *)

Module ReactionFacts.

Import AntiTNFa.

(** [np.maximum(0.0, x)] leaves a non-negative finite [x] as it is. *)
Lemma maximum_zero_nonneg (x : R) : (0 <= x)%R -> maximum zero (Fin x) = Fin x.
Proof.
  intros Hx. unfold maximum, zero, ltb.
  destruct (bool_decide_reflect (0 < x)%R); [reflexivity |]. f_equal. lra.
Qed.

(** X21: on three arrays of one length the reaction step of
    [AntiTNFa.advance] returns arrays of that length.  At an entry where the
    rate is finite and both amounts are finite and non-negative, both new
    amounts are finite and non-negative and both molecules lose the same
    quantity; with a non-negative rate neither amount grows, and either one
    of the two is used up or the quantity lost is the rate. *)
Theorem react_consumes_equally (kinetics anti_tnf_a tnf_a : list num) :
  length kinetics = length anti_tnf_a -> length anti_tnf_a = length tnf_a ->
  exists anti' tnf',
    react kinetics anti_tnf_a tnf_a = Some (anti', tnf')
    /\ length anti' = length anti_tnf_a /\ length tnf' = length tnf_a
    /\ forall i q a t,
         kinetics !! i = Some (Fin q) -> anti_tnf_a !! i = Some (Fin a) ->
         tnf_a !! i = Some (Fin t) -> (0 <= a)%R -> (0 <= t)%R ->
         exists a' t',
           anti' !! i = Some (Fin a') /\ tnf' !! i = Some (Fin t')
           /\ (0 <= a')%R /\ (0 <= t')%R /\ (a - a' = t - t')%R
           /\ ((0 <= q)%R ->
               (a' <= a)%R /\ (t' <= t)%R
               /\ (a' = 0%R \/ t' = 0%R \/ (a - a')%R = q)).
Proof.
  intros Hl1 Hl2. unfold react, min3.
  rewrite decide_True by (split; assumption). cbn [mbind option_bind].
  eexists _, _. split; [reflexivity |].
  split; [rewrite length_map, !length_zip_with; lia |].
  split; [rewrite length_map, !length_zip_with; lia |].
  intros i q a t Hq Ha Ht Ha0 Ht0.
  rewrite !map_is_fmap, !list_lookup_fmap, !lookup_zip_with, Hq, Ha, Ht.
  cbn [mbind option_bind fmap option_fmap option_map].
  assert (Hmin : exists r, minimum (minimum (Fin q) (Fin a)) (Fin t) = Fin r
                           /\ (r <= q)%R /\ (r <= a)%R /\ (r <= t)%R
                           /\ (r = q \/ r = a \/ r = t)).
  { destruct (Rlt_dec a q) as [Haq | Haq].
    - replace (minimum (Fin q) (Fin a)) with (Fin a) by num_crush.
      destruct (Rlt_dec t a) as [Hta | Hta].
      + exists t. split; [num_crush |]. repeat split; lra.
      + exists a. split; [num_crush |]. repeat split; lra.
    - replace (minimum (Fin q) (Fin a)) with (Fin q) by num_crush.
      destruct (Rlt_dec t q) as [Htq | Htq].
      + exists t. split; [num_crush |]. repeat split; lra.
      + exists q. split; [num_crush |]. repeat split; lra. }
  destruct Hmin as (r & -> & Hrq & Hra & Hrt & Hcase).
  rewrite !sub_Fin.
  rewrite !maximum_zero_nonneg by lra.
  exists (a - r)%R, (t - r)%R. split; [reflexivity |]. split; [reflexivity |].
  split; [lra |]. split; [lra |]. split; [lra |].
  intros Hq0. destruct Hcase as [-> | [-> | ->]]; repeat split; lra.
Qed.

Lemma react_consumes_equally_witness :
  exists anti' tnf',
    react [Fin 1] [Fin 2] [Fin 3] = Some (anti', tnf')
    /\ length anti' = length [Fin 2] /\ length tnf' = length [Fin 3]
    /\ forall i q a t,
         [Fin 1] !! i = Some (Fin q) -> [Fin 2] !! i = Some (Fin a) ->
         [Fin 3] !! i = Some (Fin t) -> (0 <= a)%R -> (0 <= t)%R ->
         exists a' t',
           anti' !! i = Some (Fin a') /\ tnf' !! i = Some (Fin t')
           /\ (0 <= a')%R /\ (0 <= t')%R /\ (a - a' = t - t')%R
           /\ ((0 <= q)%R ->
               (a' <= a)%R /\ (t' <= t)%R
               /\ (a' = 0%R \/ t' = 0%R \/ (a - a')%R = q)).
Proof.
  apply (react_consumes_equally [Fin 1] [Fin 2] [Fin 3]); reflexivity.
Defined.

End ReactionFacts.

(** ** The minimal complement model *)

Module ComplementFacts.

Import Complement ComplementSpec.

(** Division of finite numbers, as a conditional rewriting rule. *)
Ltac finite_division :=
  repeat match goal with
         | |- context [bool_decide (?y = 0%R)] =>
             rewrite (bool_decide_eq_false_2 (y = 0%R)) by assumption
         end.

(** X22: for finite values and rates, away from the poles of the three
    saturable terms, [minimal_model] returns nine finite rates that obey
    three balance laws.  Factor H in all its forms changes by
    [ks[3] - d[3] FH]; factor B in all its forms changes by
    [ks[2] - d[2] FB - k[6] C3bBb - k[21] C3bBbH]; and C3 in all its forms
    changes by [ks[1] - d[1] C3 - k[19] C3bH FI / (k[20] + C3bH)]: the
    binding, dissociation and conversion terms cancel. *)
Theorem minimal_model_balances (t : num) (kr ksr dr : nat -> R)
    (fd fi c3 c3b c3bb_c c3bb_o c3bbb fb fh c3bh c3bbbh : R) :
  (kr 3%nat + c3 <> 0)%R -> (kr 8%nat + c3bb_o <> 0)%R -> (kr 20%nat + c3bh <> 0)%R ->
  exists d0 d1 d2 d3 d4 d5 d6 d7 d8,
    minimal_model t
      (map Fin [c3; c3b; c3bb_c; c3bb_o; c3bbb; fb; fh; c3bh; c3bbbh])
      (fun i => Fin (kr i)) (fun i => Fin (ksr i)) (fun i => Fin (dr i))
      (Fin fd) (Fin fi)
    = Some (map Fin [d0; d1; d2; d3; d4; d5; d6; d7; d8])
    /\ (d6 + d7 + d8 = ksr 3%nat - dr 3%nat * fh)%R
    /\ (d5 + d2 + d3 + d4 + d8
        = ksr 2%nat - dr 2%nat * fb - kr 6%nat * c3bbb - kr 21%nat * c3bbbh)%R
    /\ (d0 + d1 + d2 + d3 + d4 + d7 + d8
        = ksr 1%nat - dr 1%nat * c3 - kr 19%nat * c3bh * fi / (kr 20%nat + c3bh))%R.
Proof.
  intros H3 H8 H20.
  cbn [minimal_model map add sub mul neg div]. finite_division.
  eexists _, _, _, _, _, _, _, _, _. split; [reflexivity |].
  repeat split; unfold Rdiv; ring.
Qed.

Lemma minimal_model_balances_witness :
  exists d0 d1 d2 d3 d4 d5 d6 d7 d8,
    minimal_model (Fin 0)
      (map Fin [6; 0; 0; 0; 0; 2; 3; 0; 0]%R)
      (fun i => Fin ((fun _ => 1%R) i)) (fun i => Fin ((fun _ => 1%R) i))
      (fun i => Fin ((fun _ => 1%R) i)) (Fin 1) (Fin 1)
    = Some (map Fin [d0; d1; d2; d3; d4; d5; d6; d7; d8])
    /\ (d6 + d7 + d8 = 1 - 1 * 3)%R
    /\ (d5 + d2 + d3 + d4 + d8 = 1 - 1 * 2 - 1 * 0 - 1 * 0)%R
    /\ (d0 + d1 + d2 + d3 + d4 + d7 + d8 = 1 - 1 * 6 - 1 * 0 * 1 / (1 + 0))%R.
Proof.
  apply (minimal_model_balances (Fin 0) (fun _ => 1%R) (fun _ => 1%R) (fun _ => 1%R)
           1 1 6 0 0 0 0 2 3 0 0); lra.
Defined.


(** X23: for finite values and rates, away from the poles of the three
    saturable terms, [jacobian] returns a nine by nine matrix of finite
    entries that agrees with the three balance laws of [minimal_model]: in
    every column, the entries of the rows of the forms of factor H, of
    factor B and of C3 add up to the partial derivative of the right-hand
    side of the balance law of that family. *)
Theorem jacobian_respects_balances (t : num) (kr ksr dr : nat -> R)
    (fd fi c3 c3b c3bb_c c3bb_o c3bbb fb fh c3bh c3bbbh : R) :
  (kr 3%nat + c3 <> 0)%R -> (kr 8%nat + c3bb_o <> 0)%R -> (kr 20%nat + c3bh <> 0)%R ->
  exists J,
    jacobian t
      (map Fin [c3; c3b; c3bb_c; c3bb_o; c3bbb; fb; fh; c3bh; c3bbbh])
      (fun i => Fin (kr i)) (fun i => Fin (ksr i)) (fun i => Fin (dr i))
      (Fin fd) (Fin fi)
    = Some (map (map Fin) J)
    /\ length J = 9%nat
    /\ forall j, (j < 9)%nat ->
         length (nth j J []) = 9%nat
         /\ (entry J 6 j + entry J 7 j + entry J 8 j
             = if decide (j = 6%nat) then - dr 3%nat else 0)%R
         /\ (entry J 5 j + entry J 2 j + entry J 3 j + entry J 4 j + entry J 8 j
             = match j with
               | 4%nat => - kr 6%nat
               | 5%nat => - dr 2%nat
               | 8%nat => - kr 21%nat
               | _ => 0
               end)%R
         /\ (entry J 0 j + entry J 1 j + entry J 2 j + entry J 3 j + entry J 4 j
             + entry J 7 j + entry J 8 j
             = match j with
               | 0%nat => - dr 1%nat
               | 7%nat =>
                   - (fi * kr 19%nat / (c3bh + kr 20%nat))
                   + c3bh * fi * kr 19%nat
                     / ((c3bh + kr 20%nat) * (c3bh + kr 20%nat))
               | _ => 0
               end)%R.
Proof.
  intros H3 H8 H20.
  assert (H3' : (c3 + kr 3%nat <> 0)%R) by lra.
  assert (H8' : (c3bb_o + kr 8%nat <> 0)%R) by lra.
  assert (H20' : (c3bh + kr 20%nat <> 0)%R) by lra.
  assert (H3s : ((c3 + kr 3%nat) * (c3 + kr 3%nat) <> 0)%R)
    by (apply Rmult_integral_contrapositive_currified; assumption).
  assert (H8s : ((c3bb_o + kr 8%nat) * (c3bb_o + kr 8%nat) <> 0)%R)
    by (apply Rmult_integral_contrapositive_currified; assumption).
  assert (H20s : ((c3bh + kr 20%nat) * (c3bh + kr 20%nat) <> 0)%R)
    by (apply Rmult_integral_contrapositive_currified; assumption).
  cbn [jacobian map add sub mul neg div sq zero transpose seq lookup_total
       list_lookup_total].
  finite_division.
  eexists [[_; _; _; _; _; _; _; _; _]; [_; _; _; _; _; _; _; _; _];
           [_; _; _; _; _; _; _; _; _]; [_; _; _; _; _; _; _; _; _];
           [_; _; _; _; _; _; _; _; _]; [_; _; _; _; _; _; _; _; _];
           [_; _; _; _; _; _; _; _; _]; [_; _; _; _; _; _; _; _; _];
           [_; _; _; _; _; _; _; _; _]].
  split; [reflexivity |]. split; [reflexivity |].
  intros j Hj. unfold entry.
  do 9 (destruct j as [| j];
        [cbn [nth length]; split; [reflexivity |];
         split; [first [rewrite decide_True by reflexivity
                       | rewrite decide_False by discriminate];
                 unfold Rdiv; ring
                | split; unfold Rdiv; ring] |]).
  lia.
Qed.


Lemma jacobian_respects_balances_witness :
  exists J,
    jacobian (Fin 0)
      (map Fin [6; 0; 0; 0; 0; 2; 3; 0; 0]%R)
      (fun i => Fin ((fun _ => 1%R) i)) (fun i => Fin ((fun _ => 1%R) i))
      (fun i => Fin ((fun _ => 1%R) i)) (Fin 1) (Fin 1)
    = Some (map (map Fin) J)
    /\ length J = 9%nat
    /\ forall j, (j < 9)%nat ->
         length (nth j J []) = 9%nat
         /\ (entry J 6 j + entry J 7 j + entry J 8 j
             = if decide (j = 6%nat) then - 1 else 0)%R
         /\ (entry J 5 j + entry J 2 j + entry J 3 j + entry J 4 j + entry J 8 j
             = match j with
               | 4%nat => - 1
               | 5%nat => - 1
               | 8%nat => - 1
               | _ => 0
               end)%R
         /\ (entry J 0 j + entry J 1 j + entry J 2 j + entry J 3 j + entry J 4 j
             + entry J 7 j + entry J 8 j
             = match j with
               | 0%nat => - 1
               | 7%nat => - (1 * 1 / (0 + 1)) + 0 * 1 * 1 / ((0 + 1) * (0 + 1))
               | _ => 0
               end)%R.
Proof.
  apply (jacobian_respects_balances (Fin 0) (fun _ => 1%R) (fun _ => 1%R)
           (fun _ => 1%R) 1 1 6 0 0 0 0 2 3 0 0); lra.
Defined.

End ComplementFacts.

(** ** The candidates of the macrophage routine *)

Module MacrophageFacts.

Import Simulation Scenarios Scenarios2 CellSpec.

Section Candidates.

Variable tissue_types : TissueTypes.
Variables (molecule : Array3 num) (drift_lambda drift_bias : num).
Variables (tissue : Array3 Z) (grid : RectangularGrid) (vox : Voxel).

#[local] Abbreviation accepted :=
  (py_or (SURFACTANT tissue_types)
     (py_or (BLOOD tissue_types)
        (py_or (EPITHELIUM tissue_types) (PORE tissue_types)))).

#[local] Abbreviation weigh :=
  (macrophage_weigh tissue_types molecule drift_lambda drift_bias tissue grid vox).

(** One run of the innermost loop. *)
Lemma macrophage_weigh_inner p vox_list p_tot x y p' vox_list' p_tot' xy' :
  Diffusion.foldM weigh (p, vox_list, p_tot, (x, y)) steps
  = Some (p', vox_list', p_tot', xy') ->
  exists ws,
    p' = p ++ ws /\ vox_list' = vox_list ++ inner_offsets vox x y
    /\ Forall2 (weighed_for tissue vox accepted) ws (inner_offsets vox x y)
    /\ xy' = ((3 * vx vox + x)%Z, (3 * vy vox + y)%Z).
Proof.
  unfold steps. cbn [Diffusion.foldM]. intros H.
  destruct (weigh _ 0%Z) as [acc1 |] eqn:H1; cbn [mbind option_bind] in H;
    [| discriminate].
  destruct (CellFacts.macrophage_weigh_step _ _ _ _ _ _ _ _ _ _ _ _ _ _ H1)
    as (w1 & t1 & -> & A1).
  destruct (weigh _ 1%Z) as [acc2 |] eqn:H2; cbn [mbind option_bind] in H;
    [| discriminate].
  destruct (CellFacts.macrophage_weigh_step _ _ _ _ _ _ _ _ _ _ _ _ _ _ H2)
    as (w2 & t2 & -> & A2).
  destruct (weigh _ (-1)%Z) as [acc3 |] eqn:H3; cbn [mbind option_bind] in H;
    [| discriminate].
  destruct (CellFacts.macrophage_weigh_step _ _ _ _ _ _ _ _ _ _ _ _ _ _ H3)
    as (w3 & t3 & -> & A3).
  inversion H; subst. exists [w1; w2; w3]. unfold inner_offsets.
  rewrite <- !List.app_assoc. cbn [app].
  replace (2 * vx vox + x)%Z with (vx vox + (vx vox + x))%Z by lia.
  replace (2 * vy vox + y)%Z with (vy vox + (vy vox + y))%Z by lia.
  split; [reflexivity |]. split; [reflexivity |]. split.
  - repeat constructor; assumption.
  - f_equal; lia.
Qed.

#[local] Abbreviation weigh_y :=
  (macrophage_weigh_y tissue_types molecule drift_lambda drift_bias tissue grid vox).

#[local] Abbreviation weigh_x :=
  (macrophage_weigh_x tissue_types molecule drift_lambda drift_bias tissue grid vox).

(** One run of the loop over [y]: three runs of the innermost loop, the
    variable [x] drifting on from one to the next. *)
Lemma macrophage_weigh_middle p vox_list p_tot x y0 p' vox_list' p_tot' xy' :
  Diffusion.foldM weigh_y (p, vox_list, p_tot, (x, y0)) steps
  = Some (p', vox_list', p_tot', xy') ->
  exists ws,
    p' = p ++ ws /\ vox_list' = vox_list ++ middle_offsets vox x
    /\ Forall2 (weighed_for tissue vox accepted) ws (middle_offsets vox x)
    /\ exists y', xy' = ((9 * vx vox + x)%Z, y').
Proof.
  unfold steps at 1. cbn [Diffusion.foldM]. intros H.
  destruct (weigh_y _ 0%Z) as [[[[p1 vl1] pt1] xy1] |] eqn:H1;
    cbn [mbind option_bind] in H; [| discriminate].
  unfold macrophage_weigh_y in H1.
  destruct (macrophage_weigh_inner _ _ _ _ _ _ _ _ _ H1) as (ws1 & -> & -> & F1 & ->).
  destruct (weigh_y _ 1%Z) as [[[[p2 vl2] pt2] xy2] |] eqn:H2;
    cbn [mbind option_bind] in H; [| discriminate].
  unfold macrophage_weigh_y in H2.
  destruct (macrophage_weigh_inner _ _ _ _ _ _ _ _ _ H2) as (ws2 & -> & -> & F2 & ->).
  destruct (weigh_y _ (-1)%Z) as [[[[p3 vl3] pt3] xy3] |] eqn:H3;
    cbn [mbind option_bind] in H; [| discriminate].
  unfold macrophage_weigh_y in H3.
  destruct (macrophage_weigh_inner _ _ _ _ _ _ _ _ _ H3) as (ws3 & -> & -> & F3 & ->).
  inversion H; subst. exists (ws1 ++ ws2 ++ ws3). unfold middle_offsets.
  replace (6 * vx vox + x)%Z with (3 * vx vox + (3 * vx vox + x))%Z by lia.
  rewrite <- !List.app_assoc.
  split; [reflexivity |]. split; [reflexivity |]. split.
  - repeat apply Forall2_app; assumption.
  - eexists. f_equal. lia.
Qed.

(** The three loops together. *)
Lemma macrophage_weigh_outer acc :
  Diffusion.foldM weigh_x ([], [], zero, (0%Z, 0%Z)) steps = Some acc ->
  acc.1.1.2
  = middle_offsets vox 0 ++ middle_offsets vox 1 ++ middle_offsets vox (-1)
  /\ Forall2 (weighed_for tissue vox accepted) acc.1.1.1 acc.1.1.2.
Proof.
  unfold steps at 1. cbn [Diffusion.foldM]. intros H.
  destruct (weigh_x _ 0%Z) as [[[[p1 vl1] pt1] xy1] |] eqn:H1;
    cbn [mbind option_bind] in H; [| discriminate].
  unfold macrophage_weigh_x in H1.
  destruct (macrophage_weigh_middle _ _ _ _ _ _ _ _ _ H1)
    as (ws1 & -> & -> & F1 & y1 & ->).
  destruct (weigh_x _ 1%Z) as [[[[p2 vl2] pt2] xy2] |] eqn:H2;
    cbn [mbind option_bind] in H; [| discriminate].
  unfold macrophage_weigh_x in H2.
  destruct (macrophage_weigh_middle _ _ _ _ _ _ _ _ _ H2)
    as (ws2 & -> & -> & F2 & y2 & ->).
  destruct (weigh_x _ (-1)%Z) as [[[[p3 vl3] pt3] xy3] |] eqn:H3;
    cbn [mbind option_bind] in H; [| discriminate].
  unfold macrophage_weigh_x in H3.
  destruct (macrophage_weigh_middle _ _ _ _ _ _ _ _ _ H3)
    as (ws3 & -> & -> & F3 & y3 & ->).
  remember (middle_offsets vox 0) as m0 eqn:E0.
  remember (middle_offsets vox 1) as m1 eqn:E1.
  remember (middle_offsets vox (-1)) as m2 eqn:E2.
  injection H as <-. cbn [fst snd]. rewrite <- ?List.app_assoc, ?List.app_nil_l.
  split; [reflexivity |].
  repeat apply Forall2_app; assumption.
Qed.

(** The offsets listed, as one enumeration. *)
Lemma drifting_offsets_unfold :
  drifting_offsets vox
  = middle_offsets vox 0 ++ middle_offsets vox 1 ++ middle_offsets vox (-1).
Proof.
  unfold drifting_offsets, middle_offsets, inner_offsets, steps.
  cbn [mbind list_bind zip zip_with app mret list_ret fmap list_fmap].
  repeat (f_equal; try lia).
Qed.

End Candidates.


(** X24: when the weight loops of the macrophage routine complete, they
    have weighed 27 candidates whose offsets from the voxel of the cell are
    [drifting_offsets]: the loop variables are overwritten by voxel
    coordinates, so the offsets are the 27 neighbour offsets exactly when
    the cell is in a voxel with [x = 0] and [y = 0].  A weight other than
    [0.0] is given only where the tissue at the offset is the value of the
    [or] chain of the four tissue types. *)
Theorem macrophage_candidates_drift tissue_types molecule drift_lambda drift_bias
    tissue grid vox p vox_list p_tot xy :
  Diffusion.foldM
    (macrophage_weigh_x tissue_types molecule drift_lambda drift_bias tissue grid vox)
    ([], [], zero, (0%Z, 0%Z)) steps
  = Some (p, vox_list, p_tot, xy) ->
  vox_list = drifting_offsets vox
  /\ length p = 27%nat
  /\ Forall2 (weighed_for tissue vox
                (py_or (SURFACTANT tissue_types)
                   (py_or (BLOOD tissue_types)
                      (py_or (EPITHELIUM tissue_types) (PORE tissue_types)))))
             p vox_list
  /\ (drifting_offsets vox = offsets27 <-> vx vox = 0%Z /\ vy vox = 0%Z).
Proof.
  intros H.
  destruct (macrophage_weigh_outer _ _ _ _ _ _ _ _ H) as [Hvl Hall].
  cbn [fst snd] in Hvl, Hall. rewrite <- drifting_offsets_unfold in Hvl.
  split; [exact Hvl |]. split.
  - rewrite (Forall2_length _ _ _ Hall), Hvl. reflexivity.
  - split; [exact Hall |]. split.
    + intros Heq. apply (f_equal (fun l => l !! 1%nat)) in Heq.
      unfold drifting_offsets, offsets27, steps in Heq.
      cbn [mbind list_bind zip zip_with app mret list_ret fmap list_fmap
           lookup list_lookup] in Heq.
      inversion Heq. lia.
    + intros [Hx Hy]. unfold drifting_offsets, offsets27, steps.
      cbn [mbind list_bind zip zip_with app mret list_ret fmap list_fmap].
      rewrite Hx, Hy. reflexivity.
Qed.

Lemma macrophage_candidates_drift_witness :
  offsets27 = drifting_offsets (mkVoxel 0 0 0)
  /\ length two_candidates = 27%nat
  /\ Forall2 (weighed_for surfactant_tissue (mkVoxel 0 0 0)
                (py_or (SURFACTANT tissue_type_values)
                   (py_or (BLOOD tissue_type_values)
                      (py_or (EPITHELIUM tissue_type_values)
                         (PORE tissue_type_values)))))
             two_candidates offsets27
  /\ (drifting_offsets (mkVoxel 0 0 0) = offsets27
      <-> vx (mkVoxel 0 0 0) = 0%Z /\ vy (mkVoxel 0 0 0) = 0%Z).
Proof.
  exact (macrophage_candidates_drift tissue_type_values no_iron (Fin 10) (Fin 0)
           surfactant_tissue two_voxel_sim_grid (mkVoxel 0 0 0) _ _ _ _
           ChemotaxisFacts.macrophage_weights_first_voxel).
Defined.

(** X25: with a surfactant value other than zero and a draw above zero,
    the chemotaxis step of one macrophage either leaves the cell as it is
    or moves it by one of the offsets of [drifting_offsets], and the tissue
    at that offset from the voxel of the cell is surfactant: the [or] chain
    of the four tissue types is its first member, so that blood,
    epithelium and pore are accepted only where their value is that of
    surfactant. *)
Theorem macrophage_enters_surfactant_only get_voxel tissue_types molecule
    drift_lambda drift_bias tissue grid (u : R) (cell cell' : CellData) :
  SURFACTANT tissue_types <> 0%Z -> (0 < u)%R ->
  macrophage_chemotaxis_cell get_voxel tissue_types molecule (Fin u) drift_lambda
    drift_bias tissue grid cell = Some cell' ->
  cell' = cell
  \/ exists ox oy oz,
       let vox := get_voxel grid (point cell) in
       (ox, oy, oz) ∈ drifting_offsets vox
       /\ get3 tissue (vz vox + oz) (vy vox + oy) (vx vox + ox)
          = Some (SURFACTANT tissue_types)
       /\ cell' = update_voxel_index get_voxel grid
                    (set_point cell
                       (point_add (point cell)
                          (mkPoint (Fin (IZR ox)) (Fin (IZR oy)) (Fin (IZR oz))))).
Proof.
  intros Hs Hu. unfold macrophage_chemotaxis_cell.
  destruct (Diffusion.foldM _ _ _) as [[[[p vox_list] p_tot] xy] |] eqn:Hw;
    cbn [mbind option_bind]; [| discriminate].
  destruct (macrophage_weigh_outer _ _ _ _ _ _ _ _ Hw) as [Hvl Hall].
  cbn [fst snd] in Hvl, Hall. rewrite <- drifting_offsets_unfold in Hvl.
  destruct (select_from (Fin u) zero 0 (scale p p_tot)) as [i |] eqn:Hsel.
  2:{ intros H; inversion H. now left. }
  assert (Hc : leb (Fin u) zero = false) by num_crush.
  destruct (CellFacts.select_from_weight _ _ _ _ _ Hc Hsel) as (_ & w & Hwi & Hz & Hn).
  rewrite Nat.sub_0_r in Hwi.
  destruct (CellFacts.scale_zero_weight _ _ _ _ Hwi Hz Hn) as (w0 & Hw0 & Hz0).
  destruct (Forall2_lookup_l _ _ _ _ _ Hall Hw0) as ([[ox oy] oz] & Ho & Hacc).
  rewrite Ho. cbn [mbind option_bind].
  intros H; inversion H. right. exists ox, oy, oz. cbv zeta.
  split; [rewrite <- Hvl; apply list_elem_of_lookup; eauto |].
  split; [| reflexivity].
  specialize (Hacc Hz0). cbn [fst snd] in Hacc. rewrite Hacc. f_equal.
  unfold py_or. now rewrite decide_False by exact Hs.
Qed.

Lemma macrophage_enters_surfactant_only_witness :
  update_voxel_index get_voxel_by_x two_voxel_sim_grid
    (set_point first_macrophage
       (mkPoint (Fin (1 / 10 + 1)) (Fin (1 / 10 + 0)) (Fin (1 / 10 + 0))))
  = first_macrophage
  \/ exists ox oy oz,
       let vox := get_voxel_by_x two_voxel_sim_grid (point first_macrophage) in
       (ox, oy, oz) ∈ drifting_offsets vox
       /\ get3 surfactant_tissue (vz vox + oz) (vy vox + oy) (vx vox + ox)
          = Some (SURFACTANT tissue_type_values)
       /\ update_voxel_index get_voxel_by_x two_voxel_sim_grid
            (set_point first_macrophage
               (mkPoint (Fin (1 / 10 + 1)) (Fin (1 / 10 + 0)) (Fin (1 / 10 + 0))))
          = update_voxel_index get_voxel_by_x two_voxel_sim_grid
              (set_point first_macrophage
                 (point_add (point first_macrophage)
                    (mkPoint (Fin (IZR ox)) (Fin (IZR oy)) (Fin (IZR oz))))).
Proof.
  apply (macrophage_enters_surfactant_only get_voxel_by_x tissue_type_values no_iron
           (Fin 10) (Fin 0) surfactant_tissue two_voxel_sim_grid (3 / 4)
           first_macrophage).
  - discriminate.
  - lra.
  - exact (ChemotaxisFacts.macrophage_moves first_macrophage (1 / 10) (1 / 10) (1 / 10)
             eq_refl ltac:(lra)).
Defined.

End MacrophageFacts.

(** ** Competitive binding, continued *)

Module BindingFacts.

Import Util.


(** The cubic of [iron_tf_reaction] on the clamped relative iron. *)
Lemma cubic_bound (p1 p2 p3 c : R) :
  (0 <= c <= 1)%R ->
  (((p1 * c + p2) * c + p3) * c <= Rabs p1 + Rabs p2 + Rabs p3)%R.
Proof.
  intros [H0 H1].
  pose proof (Rle_abs p1) as A1. pose proof (Rle_abs p2) as A2.
  pose proof (Rle_abs p3) as A3.
  pose proof (Rabs_pos p1) as B1. pose proof (Rabs_pos p2) as B2.
  pose proof (Rabs_pos p3) as B3.
  assert (H2 : (0 <= c * c <= 1)%R) by nra.
  assert (H3 : (0 <= c * c * c <= 1)%R) by nra.
  assert (T1 : (p1 * (c * c * c) <= Rabs p1)%R) by nra.
  assert (T2 : (p2 * (c * c) <= Rabs p2)%R) by nra.
  assert (T3 : (p3 * c <= Rabs p3)%R) by nra.
  replace (((p1 * c + p2) * c + p3) * c)%R
    with (p1 * (c * c * c) + p2 * (c * c) + p3 * c)%R by ring.
  lra.
Qed.

(** One entry of the result of [iron_tf_reaction] on finite arguments. *)
Lemma iron_tf_entry_upper (p1 p2 p3 iron tf tf_fe : R) :
  exists r,
    iron_tf_entry (Fin p1) (Fin p2) (Fin p3) (Fin iron) (Fin tf) (Fin tf_fe) = Fin r
    /\ (0 <= r <= Rabs p1 + Rabs p2 + Rabs p3)%R
    /\ ((iron + tf_fe)%R = 0%R -> r = 0%R).
Proof.
  pose proof (Rabs_pos p1) as B1. pose proof (Rabs_pos p2) as B2.
  pose proof (Rabs_pos p3) as B3.
  unfold iron_tf_entry, EPSILON.
  pose proof EPSILON_pos as He. set (eps := (/ 10 ^ 50)%R) in *. clearbody eps.
  rewrite !add_Fin, !mul_Fin, !add_Fin.
  rewrite eqb_zero_Fin.
  destruct (bool_decide_reflect (2 * (tf + tf_fe) = 0)%R) as [Hz | Hz].
  { exists 0%R. repeat split; lra. }
  rewrite eqb_zero_Fin.
  destruct (bool_decide_reflect (iron + tf_fe = 0)%R) as [Hi | Hi].
  { exists 0%R. repeat split; lra. }
  assert (Hc : exists c,
            maximum (minimum (div (Fin (iron + tf_fe))
                                  (Fin (2 * (tf + tf_fe) + eps))) one) zero = Fin c
            /\ (0 <= c <= 1)%R).
  { destruct (div (Fin (iron + tf_fe)) (Fin (2 * (tf + tf_fe) + eps)))
      as [q | | |] eqn:Hq.
    - destruct (Rlt_dec 1 q) as [H1 | H1].
      + exists 1%R. split; [num_crush | lra].
      + destruct (Rlt_dec q 0) as [H0 | H0].
        * exists 0%R. split; [num_crush | lra].
        * exists q. split; [num_crush | lra].
    - exists 1%R. split; [num_crush | lra].
    - exists 0%R. split; [num_crush | lra].
    - exfalso. revert Hq. simpl.
      destruct (bool_decide_reflect (2 * (tf + tf_fe) + eps = 0)%R); [| discriminate].
      unfold sign_of.
      destruct (bool_decide_reflect (0 < iron + tf_fe)%R); [simpl; discriminate |].
      destruct (bool_decide_reflect (iron + tf_fe < 0)%R); [simpl; discriminate |].
      lra. }
  destruct Hc as (c & -> & Hc). rewrite !mul_Fin, !add_Fin, !mul_Fin.
  pose proof (cubic_bound p1 p2 p3 c Hc) as Hb.
  set (poly := (((p1 * c + p2) * c + p3) * c)%R) in *.
  destruct (Rlt_dec 0 poly) as [Hp | Hp].
  - exists poly. split; [| split; [lra | intros; contradiction]].
    subst poly. num_crush.
  - exists 0%R. split; [| split; [lra | intros; contradiction]].
    subst poly. num_crush.
Qed.

(** X26: with [tf] and [tf_fe] of one shape and [iron] a scalar or an array
    of that shape, [iron_tf_reaction] returns; at a position where the three
    arguments are finite, the value returned is finite, lies between [0]
    and [|p1| + |p2| + |p3|], and is [0] where the total iron
    [iron + tf_fe] is zero. *)
Theorem iron_tf_reaction_upper_bound (iron : operand) (tf tf_fe : list num)
    (p1 p2 p3 : R) :
  length tf = length tf_fe ->
  length (operand_entries (length tf) iron) = length tf ->
  exists res,
    iron_tf_reaction iron tf tf_fe (Fin p1) (Fin p2) (Fin p3) = Some res
    /\ length res = length tf
    /\ forall i x a b,
         operand_entries (length tf) iron !! i = Some (Fin x) ->
         tf !! i = Some (Fin a) -> tf_fe !! i = Some (Fin b) ->
         exists r,
           res !! i = Some (Fin r)
           /\ (0 <= r <= Rabs p1 + Rabs p2 + Rabs p3)%R
           /\ ((x + b)%R = 0%R -> r = 0%R).
Proof.
  intros Hlen Hil.
  rewrite (UtilFacts.iron_tf_reaction_entries iron tf tf_fe _ _ _ Hlen Hil).
  eexists. split; [reflexivity |]. split.
  { rewrite length_zip_with, length_zip. lia. }
  intros i x a b Hx Ha Hb.
  rewrite lookup_zip_with, Hx. cbn [mbind option_bind].
  rewrite lookup_zip_with, Ha. cbn [mbind option_bind]. rewrite Hb.
  cbn [mbind option_bind].
  destruct (iron_tf_entry_upper p1 p2 p3 x a b) as (r & -> & Hr & Hz).
  exists r. split; [reflexivity |]. split; assumption.
Qed.

Lemma iron_tf_reaction_upper_bound_witness :
  exists res,
    iron_tf_reaction (Scalar (Fin 1)) [Fin 0; Fin 2] [Fin 0; Fin 1]
      (Fin 1) (Fin 1) (Fin 1) = Some res
    /\ length res = length [Fin 0; Fin 2]
    /\ forall i x a b,
         operand_entries (length [Fin 0; Fin 2]) (Scalar (Fin 1)) !! i = Some (Fin x) ->
         [Fin 0; Fin 2] !! i = Some (Fin a) -> [Fin 0; Fin 1] !! i = Some (Fin b) ->
         exists r,
           res !! i = Some (Fin r)
           /\ (0 <= r <= Rabs 1 + Rabs 1 + Rabs 1)%R
           /\ ((x + b)%R = 0%R -> r = 0%R).
Proof.
  apply (iron_tf_reaction_upper_bound (Scalar (Fin 1)) [Fin 0; Fin 2] [Fin 0; Fin 1]
           1 1 1); reflexivity.
Defined.

End BindingFacts.
